(** * aacs-player: the audio analysis and adaptive-quality core

    A shallow embedding of the analysis code of [music-player.tsx] (signal
    processors, meters, oscilloscope, waveform, render loop, performance
    monitor, track navigation), of the buffers and the quality switch of
    the audio provider, of the release spotlight's index steps and of the
    columns of [ascii-spectrum-analyzer.tsx], followed by the properties
    of that code.

    Numbers.  The source computes with JavaScript numbers (IEEE-754
    doubles).  They are modelled as exact values: rationals ([Q]) wherever
    the code only adds, subtracts, multiplies, divides by a non-zero
    constant and compares; reals ([R]) where it calls [Math.sqrt],
    [Math.log10] or [Math.pow].  Where the source can divide by zero the
    outcome ([NaN] or an infinity) is part of the model.  The two signal
    processors are also given on binary64 numbers ([Binary64]), to run
    them as the engine does.  Integer-valued quantities (timestamps in
    milliseconds, counters, indices, frame rates after [Math.round]) are
    [Z] or [nat].  A [Uint8Array] is a [list byte].

    State.  Each React state cell or ref is a record field; a handler or
    an updater is a function from the state before to the state after. *)

From Stdlib Require Import ZArith QArith Qminmax Qround List Bool Lia Lra Lqa.
From Stdlib Require Import Reals Qabs.
From Stdlib Require Floats Uint63.
From Stdlib.Strings Require Import Byte.
Import ListNotations.

(** ** JavaScript primitives on exact rationals *)

Module JS.
Local Open Scope Q_scope.

(** [a > b], [a < b] and [a <= b] on numbers. *)
Definition gt (a b : Q) : bool := negb (Qle_bool a b).
Definition lt (a b : Q) : bool := negb (Qle_bool b a).
Definition le (a b : Q) : bool := Qle_bool a b.

Definition Math_max (a b : Q) : Q := Qmax a b.
Definition Math_min (a b : Q) : Q := Qmin a b.
Definition Math_floor (x : Q) : Z := Qfloor x.
(** [Math.round] rounds half up: [floor (x + 1/2)]. *)
Definition Math_round (x : Q) : Z := Qfloor (x + (1 # 2)).
Definition Math_abs (x : Q) : Q := Qabs.Qabs x.

(** The value of an element of a [Uint8Array]. *)
Definition u8 (b : byte) : Z := Z.of_N (Byte.to_N b).

(** [arr[i]] on a typed array: [undefined] outside the array. *)
Definition index (arr : list byte) (i : Z) : option byte :=
  if (i <? 0)%Z then None else nth_error arr (Z.to_nat i).

(** [arr.subarray(lo, hi)] for [0 <= lo]. *)
Definition subarray (arr : list byte) (lo hi : nat) : list byte :=
  firstn (hi - lo) (skipn lo arr).

(** A fresh [new Uint8Array(n)]: [n] zero bytes. *)
Definition new_Uint8Array (n : nat) : list byte := repeat x00 n.

End JS.

(** ** QualityProfile registry *)

Module Quality.

Inductive quality := ultra | high | medium | low.

Definition quality_eqb (a b : quality) : bool :=
  match a, b with
  | ultra, ultra | high, high | medium, medium | low, low => true
  | _, _ => false
  end.

Record intervals := { meter : Z; waveform : Z; performance : Z }.

Definition getUpdateIntervals (q : quality) : intervals :=
  match q with
  | ultra => {| meter := 50; waveform := 33; performance := 500 |}
  | high => {| meter := 100; waveform := 66; performance := 1000 |}
  | medium => {| meter := 200; waveform := 100; performance := 1000 |}
  | low => {| meter := 500; waveform := 250; performance := 2000 |}
  end.

Definition getWaveformBars (q : quality) : nat :=
  match q with
  | ultra => 48
  | high => 32
  | medium => 24
  | low => 12
  end%nat.

(** The tables of [updateQualitySettings]. *)
Definition fftSizes (q : quality) : nat :=
  match q with ultra => 512 | high => 256 | medium => 128 | low => 64 end%nat.

Definition bufferSizes (q : quality) : nat :=
  match q with ultra => 256 | high => 128 | medium => 64 | low => 32 end%nat.

(** The tables of [updatePerformanceMetrics]. *)
Definition qualityMultiplier (q : quality) : Q :=
  match q with ultra => 4 | high => 5 # 2 | medium => 3 # 2 | low => 1 end.

Definition targetFps (q : quality) : Q :=
  match q with ultra => 60 | high => 45 | medium => 30 | low => 15 end.

(** Position of a tier, lowest first: the order "lower than" on tiers. *)
Definition rank (q : quality) : nat :=
  match q with low => 0 | medium => 1 | high => 2 | ultra => 3 end%nat.

End Quality.

(** ** Waveform bars (the waveform block of [updateVisuals]) *)

Module Waveform.
Import JS Quality.
Local Open Scope Q_scope.

(** One bar: [frequencyData[i * step] || 0], scaled by [80/255] and
    clamped by [Math.min(100, Math.max(5, _))]. *)
Definition bar (frequencyData : list byte) (step : Z) (i : nat) : Q :=
  let freqIndex := (Z.of_nat i * step)%Z in
  let frequency :=
    match index frequencyData freqIndex with
    | Some b => u8 b
    | None => 0%Z
    end in
  Math_min 100 (Math_max 5 ((inject_Z frequency / 255) * 80)).

(** The waveform update: [bars] is what [setWaveformBars] receives; with
    an empty buffer the state is left as it was. *)
Definition updateWaveform (frequencyData : list byte) (qualityLevel : quality)
    (waveformBars : list Q) : list Q :=
  if (0 <? length frequencyData)%nat then
    let barCount := getWaveformBars qualityLevel in
    let step :=
      Math_floor (inject_Z (Z.of_nat (length frequencyData))
                  / inject_Z (Z.of_nat barCount)) in
    map (bar frequencyData step) (seq 0 barCount)
  else waveformBars.

End Waveform.

(** ** Meter ballistics *)

Module Meter.
Import JS.
Local Open Scope Q_scope.

Record meterData := {
  vuLeft : Q; vuRight : Q;
  ppmLeft : Q; ppmRight : Q;
  vuPeakLeft : Q; vuPeakRight : Q;
  ppmPeakLeft : Q; ppmPeakRight : Q;
  loudness : Q;
  correlation : Q;
  phasePoints : list (Q * Q)
}.

(** The initial [useState] value. *)
Definition initial : meterData :=
  {| vuLeft := 0; vuRight := 0; ppmLeft := 0; ppmRight := 0;
     vuPeakLeft := 0; vuPeakRight := 0; ppmPeakLeft := 0; ppmPeakRight := 0;
     loudness := -23; correlation := 0; phasePoints := [] |}.

Definition calculateLUFS (leftRMS rightRMS : Q) : Q :=
  let avgRMS := (leftRMS + rightRMS) / 2 in
  Math_max (-60) (Math_min 0 (-50 + avgRMS * (3 # 10))).

Definition vuBallistics (rms prev : Q) : Q :=
  if gt rms prev then prev * (7 # 10) + rms * (3 # 10) else prev * (9 # 10).

Definition ppmBallistics (peak prev : Q) : Q :=
  if gt peak prev then prev * (8 # 10) + peak * (2 # 10) else prev * (95 # 100).

Definition vuPeakHold (rms prev : Q) : Q := Math_max rms (prev * (98 # 100)).
Definition ppmPeakHold (peak prev : Q) : Q := Math_max peak (prev * (99 # 100)).

(** The updater passed to [setMeterData] on a meter-update tick, as a
    function of the values it closes over. *)
Definition updateMeters (leftRMS rightRMS leftPeak rightPeak corr : Q)
    (points : list (Q * Q)) (prev : meterData) : meterData :=
  {| vuLeft := vuBallistics leftRMS (vuLeft prev);
     vuRight := vuBallistics rightRMS (vuRight prev);
     ppmLeft := ppmBallistics leftPeak (ppmLeft prev);
     ppmRight := ppmBallistics rightPeak (ppmRight prev);
     vuPeakLeft := vuPeakHold leftRMS (vuPeakLeft prev);
     vuPeakRight := vuPeakHold rightRMS (vuPeakRight prev);
     ppmPeakLeft := ppmPeakHold leftPeak (ppmPeakLeft prev);
     ppmPeakRight := ppmPeakHold rightPeak (ppmPeakRight prev);
     loudness := loudness prev * (95 # 100)
                 + calculateLUFS leftRMS rightRMS * (5 # 100);
     correlation := correlation prev * (9 # 10) + corr * (1 # 10);
     phasePoints := points |}.

(** *** The decay-only interval started when playback stops *)

Definition allLow (prev : meterData) : bool :=
  lt (vuLeft prev) 1 && lt (vuRight prev) 1
  && lt (ppmLeft prev) 1 && lt (ppmRight prev) 1.

(** One firing of the interval callback: the new meter state and whether
    [clearInterval] was called. *)
Definition decayTick (prev : meterData) : meterData * bool :=
  if allLow prev then (prev, true)
  else
    ({| vuLeft := vuLeft prev * (9 # 10);
        vuRight := vuRight prev * (9 # 10);
        ppmLeft := ppmLeft prev * (95 # 100);
        ppmRight := ppmRight prev * (95 # 100);
        vuPeakLeft := vuPeakLeft prev * (95 # 100);
        vuPeakRight := vuPeakRight prev * (95 # 100);
        ppmPeakLeft := ppmPeakLeft prev * (98 # 100);
        ppmPeakRight := ppmPeakRight prev * (98 # 100);
        loudness := loudness prev;
        correlation := correlation prev * (98 # 100);
        phasePoints := phasePoints prev |}, false).

(** The interval runs until a firing clears it; [n] bounds the number of
    firings looked at.  The result is the state reached and whether the
    interval has been cleared by then.  These are consecutive firings of
    one interval, with no meter update in between: playback stays
    stopped.  [Decay] below has the firings among meter updates. *)
Fixpoint decayLoop (n : nat) (s : meterData) : meterData * bool :=
  match n with
  | O => (s, false)
  | S n' =>
      let '(s', halted) := decayTick s in
      if halted then (s', true) else decayLoop n' s'
  end.

(** *** Vocabulary of the properties *)

(** The state after the first meter-update tick, both channels fed the
    instantaneous value [x] for RMS and for peak. *)
Definition afterStep (x : Q) : meterData :=
  updateMeters x x x x 0 [] initial.

(** The four pairs (instantaneous value, previous hold, new hold) of one
    meter-update tick with their decay factors. *)
Definition holds (leftRMS rightRMS leftPeak rightPeak : Q) (prev next : meterData)
    : list (Q * Q * Q * Q) :=
  [ (98 # 100, leftRMS, vuPeakLeft prev, vuPeakLeft next);
    (98 # 100, rightRMS, vuPeakRight prev, vuPeakRight next);
    (99 # 100, leftPeak, ppmPeakLeft prev, ppmPeakLeft next);
    (99 # 100, rightPeak, ppmPeakRight prev, ppmPeakRight next) ].

(** All the values the decay loop scales are under [threshold]. *)
Definition allValuesUnder (threshold : Q) (s : meterData) : Prop :=
  vuLeft s < threshold /\ vuRight s < threshold
  /\ ppmLeft s < threshold /\ ppmRight s < threshold
  /\ vuPeakLeft s < threshold /\ vuPeakRight s < threshold
  /\ ppmPeakLeft s < threshold /\ ppmPeakRight s < threshold
  /\ Qabs (correlation s) < threshold.

(** The four levels are under [threshold]. *)
Definition levelsUnder (threshold : Q) (s : meterData) : Prop :=
  vuLeft s < threshold /\ vuRight s < threshold
  /\ ppmLeft s < threshold /\ ppmRight s < threshold.

(** The meters after one tick at 50 on every input, when playback stops. *)
Definition stoppedAt50 : meterData := afterStep 50.

(** Meters with every value at 1. *)
Definition allAtOne : meterData :=
  {| vuLeft := 1; vuRight := 1; ppmLeft := 1; ppmRight := 1;
     vuPeakLeft := 1; vuPeakRight := 1; ppmPeakLeft := 1; ppmPeakRight := 1;
     loudness := -23; correlation := 1; phasePoints := [] |}.

(** [bound] after [n] firings at the slower of the two level rates, 0.95. *)
Fixpoint decayed (n : nat) (bound : Q) : Q :=
  match n with
  | O => bound
  | S n' => decayed n' (bound * (95 # 100))
  end.

(** The four levels are at most [bound]. *)
Definition levelsAtMost (bound : Q) (s : meterData) : Prop :=
  vuLeft s <= bound /\ vuRight s <= bound
  /\ ppmLeft s <= bound /\ ppmRight s <= bound.

End Meter.

(** ** Signal processors *)

Module Signal.
Import JS.

(** The samples the loop [for (i = 0; i < length; i += sampleRate)] reads:
    the first one, then every [sampleRate]-th.  [skip] counts the elements
    still to pass over.  [sampleRate] is at least 1 (with 0 the source loop
    would not advance); every call site uses the default, 4. *)
Fixpoint sampled (sampleRate skip : nat) (samples : list byte) : list byte :=
  match samples with
  | [] => []
  | x :: rest =>
      match skip with
      | O => x :: sampled sampleRate (sampleRate - 1) rest
      | S k => sampled sampleRate k rest
      end
  end.

Definition defaultSampleRate : nat := 4.

(** *** calculatePeak, on rationals *)

(** [(samples[i] - 128) / 128] *)
Definition normalize (b : byte) : Q := ((inject_Z (u8 b) - 128) / 128)%Q.

Definition peakStep (peak : Q) (b : byte) : Q :=
  let normalized := Math_abs (normalize b) in
  if gt normalized peak then normalized else peak.

Definition calculatePeak (samples : list byte) (sampleRate : nat) : Q :=
  let peak := fold_left peakStep (sampled sampleRate 0 samples) 0%Q in
  Math_min 100 (peak * 100)%Q.

(** *** calculateRMS, on reals extended with NaN and the infinities *)

Local Open Scope R_scope.

Inductive number := NaN | PosInf | NegInf | Num (r : R).

(** [a / b] for finite [a] and [b]; the zero divisors met here are [+0]. *)
Definition div (a b : R) : number :=
  if Req_dec_T b 0 then
    if Req_dec_T a 0 then NaN
    else if Rlt_dec 0 a then PosInf else NegInf
  else Num (a / b).

Definition Math_sqrt (x : number) : number :=
  match x with
  | NaN => NaN
  | PosInf => PosInf
  | NegInf => NaN
  | Num r => if Rlt_dec r 0 then NaN else Num (sqrt r)
  end.

(** [x * c] for a finite constant [c]. *)
Definition scale (x : number) (c : R) : number :=
  match x with
  | NaN => NaN
  | PosInf =>
      if Req_dec_T c 0 then NaN else if Rlt_dec 0 c then PosInf else NegInf
  | NegInf =>
      if Req_dec_T c 0 then NaN else if Rlt_dec 0 c then NegInf else PosInf
  | Num r => Num (r * c)
  end.

(** [Math.max(c, x)] and [Math.min(c, x)] for a finite constant [c]: NaN
    is absorbing. *)
Definition Math_max_c (c : R) (x : number) : number :=
  match x with
  | NaN => NaN
  | PosInf => PosInf
  | NegInf => Num c
  | Num r => Num (Rmax c r)
  end.

Definition Math_min_c (c : R) (x : number) : number :=
  match x with
  | NaN => NaN
  | PosInf => Num c
  | NegInf => NegInf
  | Num r => Num (Rmin c r)
  end.

Definition normalizeR (b : byte) : R := (IZR (u8 b) - 128) / 128.

Definition sumSquares (l : list byte) : R :=
  fold_left (fun sum b => sum + normalizeR b * normalizeR b) l 0.

Definition calculateRMS (samples : list byte) (sampleRate : nat) : number :=
  let sum := sumSquares (sampled sampleRate 0 samples) in
  let length := length samples in
  let rms := Math_sqrt (div sum (INR length / INR sampleRate)) in
  Math_min_c 100 (Math_max_c 0 (scale rms 150)).

(** The value lies in [[lo, hi]]; false of NaN and of the infinities. *)
Definition within (lo hi : R) (x : number) : Prop :=
  match x with
  | Num r => lo <= r <= hi
  | _ => False
  end.

(** *** The channel split of the meter block of [updateVisuals] *)

(** [Math.floor(audioData.length / 2)] *)
Definition halfLength (audioData : list byte) : nat :=
  Nat.div (length audioData) 2.

Definition leftSamples (audioData : list byte) : list byte :=
  subarray audioData 0 (halfLength audioData).

Definition rightSamples (audioData : list byte) : list byte :=
  subarray audioData (halfLength audioData) (length audioData).

(** The guard of the meter block: [audioData && audioData.length > 0]. *)
Definition meterGuard (audioData : list byte) : bool :=
  (0 <? length audioData)%nat.

(** *** Vocabulary of the properties *)

(** Every sample is at the centre value, 128. *)
Definition silent (samples : list byte) : Prop :=
  Forall (fun b => b = x80) samples.

End Signal.

(** ** The signal processors on IEEE-754 doubles

    The two processors once more, on the binary64 numbers the engine
    computes with, to run them bit for bit on concrete buffers. *)

Module Binary64.
Import JS Signal PrimFloat.
Local Open Scope float_scope.

(** The double of a non-negative integer below 2^63. *)
Definition ofZ (z : Z) : float := PrimFloat.of_uint63 (Uint63.of_Z z).

(** [Math.max] and [Math.min]: NaN if either argument is NaN; of [+0] and
    [-0] the maximum is [+0] and the minimum [-0]. *)
Definition Math_max (a b : float) : float :=
  if PrimFloat.is_nan a || PrimFloat.is_nan b then PrimFloat.nan
  else if a <? b then b
  else if b <? a then a
  else if PrimFloat.get_sign a then b else a.

Definition Math_min (a b : float) : float :=
  if PrimFloat.is_nan a || PrimFloat.is_nan b then PrimFloat.nan
  else if a <? b then a
  else if b <? a then b
  else if PrimFloat.get_sign a then a else b.

Definition normalize (b : byte) : float := (ofZ (u8 b) - 128) / 128.

Definition calculateRMS (samples : list byte) (sampleRate : nat) : float :=
  let sum :=
    fold_left (fun sum b => sum + normalize b * normalize b)
              (sampled sampleRate 0 samples) 0 in
  let length := ofZ (Z.of_nat (length samples)) in
  let rms := PrimFloat.sqrt (sum / (length / ofZ (Z.of_nat sampleRate))) in
  Math_min 100 (Math_max 0 (rms * 150)).

Definition calculatePeak (samples : list byte) (sampleRate : nat) : float :=
  let peak :=
    fold_left (fun peak b =>
                 let normalized := PrimFloat.abs (normalize b) in
                 if peak <? normalized then normalized else peak)
              (sampled sampleRate 0 samples) 0 in
  Math_min 100 (peak * 100).

End Binary64.

(** ** The audio provider's quality switch and the player's effect on it *)

Module Provider.
Import JS Quality.

Record audioState := {
  audioData : list byte;
  frequencyData : list byte;
  (** [analyserRef.current]: [None] until the audio context is
      initialised, then the analyser's [fftSize]. *)
  analyser : option nat
}.

(** The provider's initial state: two [new Uint8Array(64)], no analyser. *)
Definition initial : audioState :=
  {| audioData := new_Uint8Array 64;
     frequencyData := new_Uint8Array 64;
     analyser := None |}.

Definition updateQualitySettings (q : quality) (st : audioState) : audioState :=
  let fftSize := fftSizes q in
  let bufferSize := bufferSizes q in
  {| audioData := new_Uint8Array bufferSize;
     frequencyData := new_Uint8Array bufferSize;
     analyser :=
       match analyser st with
       | Some _ => Some fftSize
       | None => None
       end |}.

(** The player's effect that runs when [qualityLevel] changes: the
    provider's switch, then [setWaveformBars(new Array(barCount).fill(15))]. *)
Definition qualityEffect (q : quality) (st : audioState) (waveformBars : list Q)
    : audioState * list Q :=
  let st' := updateQualitySettings q st in
  let barCount := getWaveformBars q in
  (st', repeat 15%Q barCount).

(** *** Vocabulary of the properties *)

(** The provider after playback has started once: the analyser exists,
    with the [fftSize] that [initializeAudioContext] gives it. *)
Definition playing : audioState :=
  {| audioData := new_Uint8Array 64;
     frequencyData := new_Uint8Array 64;
     analyser := Some 128%nat |}.

End Provider.

(** ** Performance monitor *)

Module Perf.
Import JS Quality.
Local Open Scope Q_scope.

Inductive warningType := fps_low | fps_critical | memory_high | cpu_high.
Inductive severity := sev_warning | sev_critical.

(** A [PerformanceWarning] without its texts ([id], [message],
    [suggestion]), which no decision reads. *)
Record PerformanceWarning := {
  wtype : warningType;
  suggestedQuality : option quality;
  timestamp : Z;
  wseverity : severity
}.

(** The fields of [performanceRef.current] that the monitor reads and
    writes.  [fps] is the result of a [Math.round], the timestamps are
    [Date.now()] milliseconds. *)
Record performance := {
  fps : Z;
  avgFps : Q;
  fpsHistory : list Z;
  lowFpsCount : Z;
  criticalFpsCount : Z;
  lastWarningTime : Z;
  memoryUsage : Q;
  cpuUsage : Q
}.

Definition initial : performance :=
  {| fps := 0; avgFps := 0; fpsHistory := [];
     lowFpsCount := 0; criticalFpsCount := 0; lastWarningTime := 0;
     memoryUsage := 0; cpuUsage := 0 |}.

(** [PERFORMANCE_THRESHOLDS] *)
Definition fps_warning_threshold : Z := 45.
Definition fps_critical_threshold : Z := 25.
Definition memory_warning_threshold : Q := 80.
Definition memory_critical_threshold : Q := 120.
Definition cpu_warning_threshold : Q := 70.
Definition cpu_critical_threshold : Q := 85.

(** [fpsHistory.push(fps)], then [shift()] when more than 10 are held. *)
Definition pushHistory (history : list Z) (v : Z) : list Z :=
  let h := history ++ [v] in
  if (10 <? length h)%nat then tl h else h.

Definition average (history : list Z) : Q :=
  inject_Z (fold_left Z.add history 0%Z) / inject_Z (Z.of_nat (length history)).

Definition memoryEstimate (q : quality) (isPlaying : bool) : Q :=
  let baseMemory := 20 in
  let activityMultiplier := if isPlaying then 3 # 2 else 1 in
  baseMemory * qualityMultiplier q * activityMultiplier.

Definition cpuEstimate (q : quality) (isPlaying : bool) (avg : Q) : Q :=
  let fpsRatio := Math_min 1 (avg / targetFps q) in
  Math_max 10 (Math_min 95 ((1 - fpsRatio) * 100 + (if isPlaying then 20 else 5))).

Definition updatePerformanceMetrics (q : quality) (isPlaying : bool)
    (perf : performance) : performance :=
  let history := pushHistory (fpsHistory perf) (fps perf) in
  let avg := average history in
  {| fps := fps perf;
     avgFps := avg;
     fpsHistory := history;
     lowFpsCount :=
       if (fps perf <? fps_warning_threshold)%Z then (lowFpsCount perf + 1)%Z
       else Z.max 0 (lowFpsCount perf - 1);
     criticalFpsCount :=
       if (fps perf <? fps_critical_threshold)%Z then (criticalFpsCount perf + 1)%Z
       else Z.max 0 (criticalFpsCount perf - 1);
     lastWarningTime := lastWarningTime perf;
     memoryUsage := memoryEstimate q isPlaying;
     cpuUsage := cpuEstimate q isPlaying avg |}.

(** The tier suggested by a critical frame-rate warning. *)
Definition criticalSuggestion (q : quality) : quality :=
  match q with ultra => high | high => medium | medium => low | low => low end.

(** The tier suggested by a sustained-low frame-rate warning. *)
Definition lowSuggestion (q : quality) : quality :=
  match q with ultra => high | high => medium | _ => low end.

(** The tier suggested by a memory or CPU warning of severity "warning". *)
Definition resourceSuggestion (q : quality) : quality :=
  match q with ultra => high | _ => medium end.

Definition fpsWarnings (q : quality) (now : Z) (perf : performance)
    : list PerformanceWarning :=
  if (3 <=? criticalFpsCount perf)%Z then
    [ {| wtype := fps_critical; suggestedQuality := Some (criticalSuggestion q);
         timestamp := now; wseverity := sev_critical |} ]
  else if (5 <=? lowFpsCount perf)%Z && lt (avgFps perf) (inject_Z fps_warning_threshold) then
    [ {| wtype := fps_low; suggestedQuality := Some (lowSuggestion q);
         timestamp := now; wseverity := sev_warning |} ]
  else [].

Definition memoryWarnings (q : quality) (now : Z) (perf : performance)
    : list PerformanceWarning :=
  if gt (memoryUsage perf) memory_critical_threshold then
    [ {| wtype := memory_high; suggestedQuality := Some low;
         timestamp := now; wseverity := sev_critical |} ]
  else if gt (memoryUsage perf) memory_warning_threshold then
    [ {| wtype := memory_high; suggestedQuality := Some (resourceSuggestion q);
         timestamp := now; wseverity := sev_warning |} ]
  else [].

Definition cpuWarnings (q : quality) (now : Z) (perf : performance)
    : list PerformanceWarning :=
  if gt (cpuUsage perf) cpu_critical_threshold then
    [ {| wtype := cpu_high; suggestedQuality := Some low;
         timestamp := now; wseverity := sev_critical |} ]
  else if gt (cpuUsage perf) cpu_warning_threshold then
    [ {| wtype := cpu_high; suggestedQuality := Some (resourceSuggestion q);
         timestamp := now; wseverity := sev_warning |} ]
  else [].

Definition isCritical (w : PerformanceWarning) : bool :=
  match wseverity w with sev_critical => true | sev_warning => false end.

(** The tier of the downgrade that the check schedules with
    [setTimeout(_, 1000)], when it schedules one. *)
Definition autoAdjust (q : quality) (autoQualityEnabled : bool)
    (warnings : list PerformanceWarning) : option quality :=
  if autoQualityEnabled && existsb isCritical warnings then
    match find isCritical warnings with
    | Some criticalWarning =>
        match suggestedQuality criticalWarning with
        | Some s => if quality_eqb s q then None else Some s
        | None => None
        end
    | None => None
    end
  else None.

(** What one call of [checkPerformanceWarnings] does. *)
Record checkResult := {
  perfAfter : performance;
  (** the warnings appended to the warning list by this call *)
  emitted : list PerformanceWarning;
  (** the tier of the automatic downgrade scheduled with
      [setTimeout(_, 1000)], if any; its callback sets the tier and appends
      the "AUTO" notice ([autoNotice]) *)
  scheduled : option quality
}.

(** The warning that the callback of that [setTimeout] appends when it
    runs, at [dateNow]: the "AUTO" notice.  It has no [suggestedQuality];
    the callback tests no streak and no cooldown and leaves
    [lastWarningTime] as it is.  [Player] below runs the callback. *)
Definition autoNotice (dateNow : Z) : PerformanceWarning :=
  {| wtype := fps_low; suggestedQuality := None;
     timestamp := dateNow; wseverity := sev_warning |}.

Definition setLastWarningTime (now : Z) (perf : performance) : performance :=
  {| fps := fps perf; avgFps := avgFps perf; fpsHistory := fpsHistory perf;
     lowFpsCount := lowFpsCount perf; criticalFpsCount := criticalFpsCount perf;
     lastWarningTime := now;
     memoryUsage := memoryUsage perf; cpuUsage := cpuUsage perf |}.

Definition checkPerformanceWarnings (q : quality) (autoQualityEnabled : bool)
    (now : Z) (perf : performance) : checkResult :=
  if (now - lastWarningTime perf <? 5000)%Z then
    {| perfAfter := perf; emitted := []; scheduled := None |}
  else
    let warnings :=
      fpsWarnings q now perf ++ memoryWarnings q now perf ++ cpuWarnings q now perf in
    if (0 <? length warnings)%nat then
      {| perfAfter := setLastWarningTime now perf;
         emitted := warnings;
         scheduled := autoAdjust q autoQualityEnabled warnings |}
    else {| perfAfter := perf; emitted := []; scheduled := None |}.

(** *** The periodic block of [updateVisuals] *)

(** [Math.round((frameCount * 1000) / PERFORMANCE_CHECK_INTERVAL)] *)
Definition measureFps (q : quality) (frameCount : Z) : Z :=
  Math_round (inject_Z (frameCount * 1000)
              / inject_Z (Quality.performance (getUpdateIntervals q))).

Definition setFps (v : Z) (perf : performance) : performance :=
  {| fps := v; avgFps := avgFps perf; fpsHistory := fpsHistory perf;
     lowFpsCount := lowFpsCount perf; criticalFpsCount := criticalFpsCount perf;
     lastWarningTime := lastWarningTime perf;
     memoryUsage := memoryUsage perf; cpuUsage := cpuUsage perf |}.

(** The circumstances of one periodic check: the tier and the
    auto-adjust switch in force, the frames counted since the last check
    and the reading of [Date.now()]. *)
Record check := {
  c_quality : quality;
  c_auto : bool;
  c_frames : Z;
  c_now : Z
}.

(** One periodic check: the frame rate is measured, the metrics are
    updated and, while playing, the warnings are checked.  The reset of
    the frame counter, [lastUpdate] and the frame-skip count, none of
    which the warnings read, are left out. *)
Definition performanceCheck (isPlaying : bool) (c : check) (perf : performance)
    : checkResult :=
  let perf1 := setFps (measureFps (c_quality c) (c_frames c)) perf in
  let perf2 := updatePerformanceMetrics (c_quality c) isPlaying perf1 in
  if isPlaying then
    checkPerformanceWarnings (c_quality c) (c_auto c) (c_now c) perf2
  else {| perfAfter := perf2; emitted := []; scheduled := None |}.

(** A run of periodic checks during playback: the state reached, and for
    every check its time and the warnings it emitted. *)
Fixpoint monitor (perf : performance) (checks : list check)
    : performance * list (Z * list PerformanceWarning) :=
  match checks with
  | [] => (perf, [])
  | c :: rest =>
      let r := performanceCheck true c perf in
      let '(final, log) := monitor (perfAfter r) rest in
      (final, (c_now c, emitted r) :: log)
  end.

Definition isFpsCritical (w : PerformanceWarning) : bool :=
  match wtype w with fps_critical => true | _ => false end.

Definition isFpsLow (w : PerformanceWarning) : bool :=
  match wtype w with fps_low => true | _ => false end.

(** *** Vocabulary of the properties *)

(** The check measures 20 frames per second. *)
Definition holds20 (c : check) : Prop :=
  measureFps (c_quality c) (c_frames c) = 20%Z.

(** The critical frame-rate warning a check at time [now] on tier [q]
    emits. *)
Definition criticalWarning (q : quality) (now : Z) : PerformanceWarning :=
  {| wtype := fps_critical; suggestedQuality := Some (criticalSuggestion q);
     timestamp := now; wseverity := sev_critical |}.

(** A check on tier [q] that counted [frames] frames, at [now]. *)
Definition checkAt (q : quality) (frames now : Z) : check :=
  {| c_quality := q; c_auto := true; c_frames := frames; c_now := now |}.

(** Five checks on "medium", one second apart and then five seconds
    later, each counting 20 frames in its 1000 ms: 20 frames per second. *)
Definition mediumTrace : list check :=
  map (checkAt medium 20) [1000000; 1001000; 1002000; 1003000; 1007000]%Z.

End Perf.

(** ** Oscilloscope zoom and pan *)

Module Scope.
Import JS.
Local Open Scope Q_scope.

Record state := {
  zoomLevel : Q;
  panOffset : Q;
  amplitudeZoom : Q;
  isDragging : bool;
  lastMouseX : Q
}.

(** The initial [useState] values. *)
Definition initial : state :=
  {| zoomLevel := 1; panOffset := 0; amplitudeZoom := 8;
     isDragging := false; lastMouseX := 0 |}.

Definition levels : list Q :=
  [5 # 10000; 1 # 1000; 1 # 100; 1 # 10; 1 # 4; 1 # 2; 3 # 4; 1; 2; 4; 8; 16].

Definition amplitudeLevels : list Q := [1; 2; 4; 8].

(** [l.indexOf(x)]: the first position holding [x], or -1. *)
Fixpoint indexOfFrom (i : Z) (l : list Q) (x : Q) : Z :=
  match l with
  | [] => (-1)%Z
  | y :: rest => if Qeq_bool y x then i else indexOfFrom (i + 1) rest x
  end.

Definition indexOf (l : list Q) (x : Q) : Z := indexOfFrom 0 l x.

(** [l[i]], for the positions the callers compute; [prev] stands where
    the source would read [undefined], which no caller reaches. *)
Definition at_ (l : list Q) (i : Z) (prev : Q) : Q :=
  if (i <? 0)%Z then prev else nth (Z.to_nat i) l prev.

Definition setZoomPan (z p : Q) (s : state) : state :=
  {| zoomLevel := z; panOffset := p; amplitudeZoom := amplitudeZoom s;
     isDragging := isDragging s; lastMouseX := lastMouseX s |}.

Definition setAmplitudeZoom (a : Q) (s : state) : state :=
  {| zoomLevel := zoomLevel s; panOffset := panOffset s; amplitudeZoom := a;
     isDragging := isDragging s; lastMouseX := lastMouseX s |}.

Definition setDrag (d : bool) (x : Q) (s : state) : state :=
  {| zoomLevel := zoomLevel s; panOffset := panOffset s;
     amplitudeZoom := amplitudeZoom s; isDragging := d; lastMouseX := x |}.

Definition zoomIn (s : state) : state :=
  let prev := zoomLevel s in
  let currentIndex := indexOf levels prev in
  if (currentIndex <? Z.of_nat (length levels) - 1)%Z
  then setZoomPan (at_ levels (currentIndex + 1) prev) (panOffset s) s
  else s.

Definition zoomOut (s : state) : state :=
  let prev := zoomLevel s in
  let currentIndex := indexOf levels prev in
  if (0 <? currentIndex)%Z then
    let nextLevel := at_ levels (currentIndex - 1) prev in
    if le nextLevel 1 then setZoomPan nextLevel 0 s
    else setZoomPan nextLevel (panOffset s) s
  else s.

Definition amplitudeZoomIn (s : state) : state :=
  let prev := amplitudeZoom s in
  let currentIndex := indexOf amplitudeLevels prev in
  if (currentIndex <? Z.of_nat (length amplitudeLevels) - 1)%Z
  then setAmplitudeZoom (at_ amplitudeLevels (currentIndex + 1) prev) s
  else s.

Definition amplitudeZoomOut (s : state) : state :=
  let prev := amplitudeZoom s in
  let currentIndex := indexOf amplitudeLevels prev in
  if (0 <? currentIndex)%Z
  then setAmplitudeZoom (at_ amplitudeLevels (currentIndex - 1) prev) s
  else s.

Definition resetZoom (s : state) : state :=
  {| zoomLevel := 1; panOffset := 0; amplitudeZoom := 1;
     isDragging := isDragging s; lastMouseX := lastMouseX s |}.

Definition handleMouseDown (clientX : Q) (s : state) : state :=
  if gt (zoomLevel s) 1 then setDrag true clientX s else s.

(** The pan update shared by the two mouse-move handlers. *)
Definition dragPan (clientX : Q) (s : state) : state :=
  let deltaX := clientX - lastMouseX s in
  let sensitivity := 1 # 2 in
  let panDelta := (deltaX * sensitivity * zoomLevel s) / 2 in
  let newOffset := panOffset s - panDelta in
  {| zoomLevel := zoomLevel s;
     panOffset := Math_max 0 (Math_min 100 newOffset);
     amplitudeZoom := amplitudeZoom s;
     isDragging := isDragging s;
     lastMouseX := clientX |}.

(** The oscilloscope element's [onMouseMove]. *)
Definition handleMouseMove (clientX : Q) (s : state) : state :=
  if isDragging s && gt (zoomLevel s) 1 then dragPan clientX s else s.

(** The document's [mousemove] listener, which the effect installs only
    while [isDragging]. *)
Definition handleGlobalMouseMove (clientX : Q) (s : state) : state :=
  if isDragging s then dragPan clientX s else s.

Definition handleMouseUp (s : state) : state :=
  setDrag false (lastMouseX s) s.

(** The document's [mouseup] listener, installed like the one above. *)
Definition handleGlobalMouseUp (s : state) : state :=
  if isDragging s then setDrag false (lastMouseX s) s else s.

Definition handleWheel (shiftKey : bool) (deltaY : Q) (s : state) : state :=
  if shiftKey then
    if lt deltaY 0 then amplitudeZoomIn s else amplitudeZoomOut s
  else
    if lt deltaY 0 then zoomIn s else zoomOut s.

(** What the user can do to the oscilloscope. *)
Inductive event :=
| ClickZoomIn
| ClickZoomOut
| ClickReset
| MouseDown (clientX : Q)
| MouseMove (clientX : Q)
| GlobalMouseMove (clientX : Q)
| MouseUp
| GlobalMouseUp
| Wheel (shiftKey : bool) (deltaY : Q).

Definition step (s : state) (e : event) : state :=
  match e with
  | ClickZoomIn => zoomIn s
  | ClickZoomOut => zoomOut s
  | ClickReset => resetZoom s
  | MouseDown x => handleMouseDown x s
  | MouseMove x => handleMouseMove x s
  | GlobalMouseMove x => handleGlobalMouseMove x s
  | MouseUp => handleMouseUp s
  | GlobalMouseUp => handleGlobalMouseUp s
  | Wheel shift dy => handleWheel shift dy s
  end.

Definition run (s : state) (events : list event) : state :=
  fold_left step events s.

Definition reachable (s : state) : Prop :=
  exists events, s = run initial events.

(** *** Vocabulary of the properties *)

(** The pan offset is a percentage. *)
Definition panInRange (s : state) : Prop := 0 <= panOffset s <= 100.

(** Zoom in to 2x, press the button at x = 100, turn the wheel to zoom
    out while the button is held, then move the pointer to x = 90. *)
Definition dragAcrossZoomOut : list event :=
  [ClickZoomIn; MouseDown 100; Wheel false 1; GlobalMouseMove 90].

(** The event is not one for the document's mouse-move listener. *)
Definition noGlobalMove (e : event) : Prop :=
  match e with GlobalMouseMove _ => False | _ => True end.

(** The zoom level is one of the fixed levels, and at a zoom of at most
    1x the pan offset is 0. *)
Definition panRests (s : state) : Prop :=
  In (zoomLevel s) levels /\ (zoomLevel s <= 1 -> panOffset s == 0).

End Scope.

(** ** Spectrum column map *)

Module Spectrum.
Local Open Scope R_scope.

Definition VIZ_COLS : nat := 140.
Definition MIN_FREQ : R := 20.
Definition MAX_FREQ : R := 22000.
Definition SAMPLE_RATE : R := 44100.

Definition Math_log10 (x : R) : R := ln x / ln 10.
Definition Math_pow (b e : R) : R := Rpower b e.
(** [Math.round]: [floor (x + 1/2)]. *)
Definition Math_round (x : R) : Z := Int_part (x + / 2).

(** [frequencyLength] is [frequencyData?.length || 0]. *)
Definition availableBins (frequencyLength : nat) : Z :=
  Z.max 1 (Z.of_nat frequencyLength).

(** Entry [i] of [logIndexMap]. *)
Definition logIndex (frequencyLength : nat) (i : nat) : Z :=
  let maxIndex := (availableBins frequencyLength - 1)%Z in
  let logMin := Math_log10 MIN_FREQ in
  let logMax := Math_log10 MAX_FREQ in
  let logRange := logMax - logMin in
  let logFreq := logMin + (logRange * INR i) / INR (VIZ_COLS - 1) in
  let freq := Math_pow 10 logFreq in
  let index :=
    Math_round ((freq / (SAMPLE_RATE / 2)) * IZR (availableBins frequencyLength)) in
  Z.min maxIndex (Z.max 0 index).

Definition logIndexMap (frequencyLength : nat) : list Z :=
  map (logIndex frequencyLength) (seq 0 VIZ_COLS).

(** The bins [[startIndex, endIndex)] that column [i] sums. *)
Definition startIndex (frequencyLength : nat) (i : nat) : Z :=
  nth i (logIndexMap frequencyLength) 0%Z.

Definition endIndex (frequencyLength : nat) (i : nat) : Z :=
  if (i <? VIZ_COLS - 1)%nat then nth (i + 1) (logIndexMap frequencyLength) 0%Z
  else Z.min (startIndex frequencyLength i + 1) (Z.of_nat frequencyLength).

(** Bin [j] is one of those summed for column [i]. *)
Definition inWindow (frequencyLength : nat) (i : nat) (j : Z) : Prop :=
  (startIndex frequencyLength i <= j < endIndex frequencyLength i)%Z.

(** Every bin of the buffer is summed for exactly one column. *)
Definition coversOnce (frequencyLength : nat) : Prop :=
  forall j : Z, (0 <= j < Z.of_nat frequencyLength)%Z ->
    exists i : nat, (i < VIZ_COLS)%nat /\ inWindow frequencyLength i j
      /\ forall i' : nat, (i' < VIZ_COLS)%nat -> inWindow frequencyLength i' j -> i' = i.

(** No bin is summed for two columns. *)
Definition nonOverlapping (frequencyLength : nat) : Prop :=
  forall (i i' : nat) (j : Z), (i < VIZ_COLS)%nat -> (i' < VIZ_COLS)%nat ->
    inWindow frequencyLength i j -> inWindow frequencyLength i' j -> i = i'.

(** Consecutive windows meet and no window runs backwards. *)
Definition contiguous (frequencyLength : nat) : Prop :=
  forall i : nat, (i + 1 < VIZ_COLS)%nat ->
    endIndex frequencyLength i = startIndex frequencyLength (i + 1)
    /\ (startIndex frequencyLength i <= endIndex frequencyLength i)%Z.

(** *** Vocabulary of the properties *)

(** The frequency of column [i], as [logIndex] computes it. *)
Definition columnFrequency (i : nat) : R :=
  let logMin := Math_log10 MIN_FREQ in
  let logMax := Math_log10 MAX_FREQ in
  let logRange := logMax - logMin in
  Math_pow 10 (logMin + (logRange * INR i) / INR (VIZ_COLS - 1)).

End Spectrum.

(** ** Correlation and phase points (the meter block of [updateVisuals]) *)

Module MeterBlock.
Import JS Signal.
Local Open Scope Q_scope.

(** [(arr[idx] - 128) / 128]; [None] stands for the NaN that a read outside
    the array gives. *)
Definition sampleAt (arr : list byte) (idx : Z) : option Q :=
  match index arr idx with
  | Some b => Some (normalize b)
  | None => None
  end.

(** [Math.min(32, halfLength)] *)
Definition corrSamples (halfLength : Z) : Z := Z.min 32 halfLength.

(** One round of the correlation loop: [correlation += l * r]. *)
Definition correlationStep (left right : list byte) (halfLength : Z)
    (correlation : option Q) (i : nat) : option Q :=
  let idx :=
    Math_floor (inject_Z (Z.of_nat i * halfLength)
                / inject_Z (corrSamples halfLength)) in
  match correlation, sampleAt left idx, sampleAt right idx with
  | Some c, Some l, Some r => Some (c + l * r)
  | _, _, _ => None
  end.

(** The correlation of the two halves: the sum of the loop divided by
    [corrSamples], which is 0/0 when there is nothing to sum. *)
Definition correlationOf (audioData : list byte) : option Q :=
  let half := Z.of_nat (halfLength audioData) in
  let n := corrSamples half in
  let sum :=
    fold_left (correlationStep (leftSamples audioData) (rightSamples audioData) half)
              (seq 0 (Z.to_nat n)) (Some 0) in
  match sum with
  | Some c => if (n =? 0)%Z then None else Some (c / inject_Z n)
  | None => None
  end.

(** The eight phase-scope points: [Array.from({ length: 8 }, _)]. *)
Definition phasePointsOf (audioData : list byte) : list (option Q * option Q) :=
  let half := Z.of_nat (halfLength audioData) in
  map (fun i : nat =>
         let idx := Math_floor (inject_Z (Z.of_nat i * half) / 8) in
         (sampleAt (leftSamples audioData) idx,
          sampleAt (rightSamples audioData) idx))
      (seq 0 8).

(** A value that is a number within [[lo, hi]]. *)
Definition numberWithin (lo hi : Q) (v : option Q) : Prop :=
  match v with
  | Some q => lo <= q <= hi
  | None => False
  end.

End MeterBlock.

(** ** Oscilloscope display buffer ([updateOscilloscopeData]) *)

Module ScopeData.
Import JS.
Local Open Scope Q_scope.

Inductive oscilloscopeMode := time | freq.

(** [zoomLevel >= 1 ? zoomLevel : 1 / zoomLevel] *)
Definition effectiveZoom (zoomLevel : Q) : Q :=
  if le 1 zoomLevel then zoomLevel else 1 / zoomLevel.

(** [Math.max(-1, Math.min(1, x))] *)
Definition clampUnit (x : Q) : Q := Math_max (-1) (Math_min 1 x).

(** The number of display points. *)
Definition samples : nat := 128.

(** *** Time mode *)

Definition baseWindowSize (audioData : list byte) (timeScale : Q) : Z :=
  Math_floor (inject_Z (Z.of_nat (length audioData)) * (timeScale / 10)).

Definition zoomedWindowSize (audioData : list byte) (timeScale zoomLevel : Q) : Z :=
  Math_floor (inject_Z (baseWindowSize audioData timeScale) / effectiveZoom zoomLevel).

Definition timeStartIndex (audioData : list byte) (timeScale zoomLevel panOffset : Q)
    : Z :=
  let maxPanOffset :=
    (Z.of_nat (length audioData) - zoomedWindowSize audioData timeScale zoomLevel)%Z in
  let panSamples := Math_floor ((panOffset / 100) * inject_Z maxPanOffset) in
  Z.max 0 (Z.min maxPanOffset panSamples).

Definition timeEndIndex (audioData : list byte) (timeScale zoomLevel panOffset : Q)
    : Z :=
  Z.min (Z.of_nat (length audioData))
        (timeStartIndex audioData timeScale zoomLevel panOffset
         + zoomedWindowSize audioData timeScale zoomLevel).

(** The position in [audioData] that display point [i] shows. *)
Definition sampleIndex (audioData : list byte) (timeScale zoomLevel panOffset : Q)
    (i : nat) : Z :=
  let startIndex := timeStartIndex audioData timeScale zoomLevel panOffset in
  let endIndex := timeEndIndex audioData timeScale zoomLevel panOffset in
  let actualWindowSize := (endIndex - startIndex)%Z in
  let t := inject_Z (Z.of_nat i) / inject_Z (Z.of_nat samples - 1) in
  Z.min (endIndex - 1)
        (startIndex + Math_floor (t * inject_Z (actualWindowSize - 1))).

(** Display point [i]; [None] stands for the NaN of a read outside
    [audioData], which both clamps pass on. *)
Definition timePoint (audioData : list byte)
    (timeScale zoomLevel panOffset amplitudeZoom : Q) (i : nat) : option Q :=
  match index audioData (sampleIndex audioData timeScale zoomLevel panOffset i) with
  | Some rawValue =>
      let normalized := (inject_Z (u8 rawValue) - 128) / 128 in
      let scaledValue := normalized * (8 # 10) in
      Some (clampUnit (scaledValue * amplitudeZoom))
  | None => None
  end.

Definition timeData (audioData : list byte)
    (timeScale zoomLevel panOffset amplitudeZoom : Q) : list (option Q) :=
  map (timePoint audioData timeScale zoomLevel panOffset amplitudeZoom)
      (seq 0 samples).

(** *** Frequency mode *)

Definition zoomedBins (frequencyData : list byte) (zoomLevel : Q) : Z :=
  Math_floor (inject_Z (Z.of_nat (length frequencyData)) / effectiveZoom zoomLevel).

Definition startBin (frequencyData : list byte) (zoomLevel panOffset : Q) : Z :=
  let maxPanOffset :=
    (Z.of_nat (length frequencyData) - zoomedBins frequencyData zoomLevel)%Z in
  let panBins := Math_floor ((panOffset / 100) * inject_Z maxPanOffset) in
  Z.max 0 (Z.min maxPanOffset panBins).

Definition endBin (frequencyData : list byte) (zoomLevel panOffset : Q) : Z :=
  Z.min (Z.of_nat (length frequencyData))
        (startBin frequencyData zoomLevel panOffset
         + zoomedBins frequencyData zoomLevel).

Definition freqPoint (frequencyData : list byte)
    (zoomLevel panOffset amplitudeZoom : Q) (i : nat) : option Q :=
  let startBin := startBin frequencyData zoomLevel panOffset in
  let endBin := endBin frequencyData zoomLevel panOffset in
  let actualBins := (endBin - startBin)%Z in
  let step :=
    Z.max 1 (Math_floor (inject_Z actualBins / inject_Z (Z.of_nat samples))) in
  let freqIndex := (startBin + Z.of_nat i * step)%Z in
  if (freqIndex <? endBin)%Z && (freqIndex <? Z.of_nat (length frequencyData))%Z then
    match index frequencyData freqIndex with
    | Some rawValue =>
        let normalized := inject_Z (u8 rawValue) / 255 in
        let centered := (normalized - (1 # 2)) * 2 in
        let scaledValue := centered * (6 # 10) in
        Some (clampUnit (scaledValue * amplitudeZoom))
    | None => None
    end
  else Some 0.

Definition freqData (frequencyData : list byte)
    (zoomLevel panOffset amplitudeZoom : Q) : list (option Q) :=
  map (freqPoint frequencyData zoomLevel panOffset amplitudeZoom) (seq 0 samples).

(** *** The update *)

(** The two display buffers, [oscilloscopeData] and [frequencyDataScope]. *)
Record buffers := {
  oscilloscopeData : list (option Q);
  frequencyDataScope : list (option Q)
}.

(** [new Array(128).fill(0)] *)
Definition zeros : list (option Q) := repeat (Some 0) samples.

Definition updateOscilloscopeData (isPlaying : bool) (mode : oscilloscopeMode)
    (audioData frequencyData : list byte)
    (timeScale zoomLevel panOffset amplitudeZoom : Q) (prev : buffers) : buffers :=
  if negb isPlaying then
    {| oscilloscopeData := zeros; frequencyDataScope := zeros |}
  else
    match mode with
    | time =>
        if (0 <? length audioData)%nat then
          {| oscilloscopeData :=
               timeData audioData timeScale zoomLevel panOffset amplitudeZoom;
             frequencyDataScope := frequencyDataScope prev |}
        else prev
    | freq =>
        if (0 <? length frequencyData)%nat then
          let data := freqData frequencyData zoomLevel panOffset amplitudeZoom in
          {| oscilloscopeData := data; frequencyDataScope := data |}
        else prev
    end.

(** Every point of a buffer is a number within [[-1,1]]. *)
Definition displayable (data : list (option Q)) : Prop :=
  Forall (MeterBlock.numberWithin (-1) 1) data.

End ScopeData.

(** ** Ranges of the meter state *)

Module MeterRange.
Import Meter.
Local Open Scope Q_scope.

Definition percent (x : Q) : Prop := 0 <= x <= 100.

(** The levels and the peak-holds are percentages, the loudness is within
    [[-60,0]] and the correlation within [[-1,1]]. *)
Definition inRange (s : meterData) : Prop :=
  percent (vuLeft s) /\ percent (vuRight s)
  /\ percent (ppmLeft s) /\ percent (ppmRight s)
  /\ percent (vuPeakLeft s) /\ percent (vuPeakRight s)
  /\ percent (ppmPeakLeft s) /\ percent (ppmPeakRight s)
  /\ -60 <= loudness s <= 0
  /\ -1 <= correlation s <= 1.

End MeterRange.

(** ** The warning list *)

Module Warnings.
Import Perf.

(** The sweep that runs every second: warnings of 10 seconds or more are
    dropped. *)
Definition expire (now : Z) (warnings : list PerformanceWarning)
    : list PerformanceWarning :=
  filter (fun warning => (now - timestamp warning <? 10000)%Z) warnings.

End Warnings.

(** ** Vocabulary of the monitor's history *)

Module History.
Import Perf.

(** The last [n] elements of a list. *)
Definition lastn {A : Type} (n : nat) (l : list A) : list A :=
  skipn (length l - n) l.

(** The frame rate that a check measures. *)
Definition reading (c : check) : Z := measureFps (c_quality c) (c_frames c).

End History.

(** ** The render loop ([updateVisuals]) *)

Module Loop.
Import JS Quality Perf.
Local Open Scope Q_scope.

(** A frame-skip count: a number, or the [Infinity] that [60 / 0] gives. *)
Inductive frames := Frames (k : Z) | Infinity.

(** [performanceRef.current] with its frame bookkeeping, and the two
    throttle stamps. *)
Record loop := {
  perf : performance;
  lastUpdate : Q;
  frameCount : Z;
  skipFrames : frames;
  lastMeterUpdateRef : Q;
  lastWaveformUpdateRef : Q
}.

Definition initial : loop :=
  {| perf := Perf.initial; lastUpdate := 0; frameCount := 0;
     skipFrames := Frames 0;
     lastMeterUpdateRef := 0; lastWaveformUpdateRef := 0 |}.

(** [fps < 30 ? Math.max(1, Math.floor(60 / fps)) : 0] *)
Definition framesToSkip (fps : Z) : frames :=
  if (fps <? 30)%Z then
    if (fps =? 0)%Z then Infinity
    else Frames (Z.max 1 (Math_floor (60 / inject_Z fps)))
  else Frames 0.

(** [skipFrames > 0 && frameCount % skipFrames !== 0] *)
Definition skipsFrame (skip : frames) (count : Z) : bool :=
  match skip with
  | Frames k => (0 <? k)%Z && negb (Z.rem count k =? 0)%Z
  | Infinity => negb (count =? 0)%Z
  end.

(** What one animation frame sees: the tier, the playback flag and the
    auto-adjust switch in force, [performance.now()] and [Date.now()]. *)
Record frame := {
  f_quality : quality;
  f_isPlaying : bool;
  f_auto : bool;
  f_now : Q;
  f_dateNow : Z
}.

(** What one call of [updateVisuals] decides. *)
Record frameResult := {
  after : loop;
  (** the periodic check, when this frame ran it *)
  checked : option checkResult;
  skipped : bool;
  shouldUpdateMeters : bool;
  shouldUpdateWaveform : bool
}.

(** The frame counter and the periodic block. *)
Definition countFrame (f : frame) (st : loop) : loop * option checkResult :=
  let count := (frameCount st + 1)%Z in
  let interval := Quality.performance (getUpdateIntervals (f_quality f)) in
  if gt (f_now f - lastUpdate st) (inject_Z interval) then
    let r :=
      performanceCheck (f_isPlaying f)
        {| c_quality := f_quality f; c_auto := f_auto f;
           c_frames := count; c_now := f_dateNow f |}
        (perf st) in
    ({| perf := perfAfter r; lastUpdate := f_now f; frameCount := 0;
        skipFrames := framesToSkip (fps (perfAfter r));
        lastMeterUpdateRef := lastMeterUpdateRef st;
        lastWaveformUpdateRef := lastWaveformUpdateRef st |}, Some r)
  else
    ({| perf := perf st; lastUpdate := lastUpdate st; frameCount := count;
        skipFrames := skipFrames st;
        lastMeterUpdateRef := lastMeterUpdateRef st;
        lastWaveformUpdateRef := lastWaveformUpdateRef st |}, None).

Definition updateVisuals (f : frame) (st : loop) : frameResult :=
  let '(st1, r) := countFrame f st in
  if skipsFrame (skipFrames st1) (frameCount st1) then
    {| after := st1; checked := r; skipped := true;
       shouldUpdateMeters := false; shouldUpdateWaveform := false |}
  else
    let intervals := getUpdateIntervals (f_quality f) in
    let meters :=
      gt (f_now f - lastMeterUpdateRef st1) (inject_Z (Quality.meter intervals)) in
    let bars :=
      gt (f_now f - lastWaveformUpdateRef st1)
         (inject_Z (Quality.waveform intervals)) in
    {| after :=
         {| perf := perf st1; lastUpdate := lastUpdate st1;
            frameCount := frameCount st1; skipFrames := skipFrames st1;
            lastMeterUpdateRef := if meters then f_now f else lastMeterUpdateRef st1;
            lastWaveformUpdateRef :=
              if bars then f_now f else lastWaveformUpdateRef st1 |};
       checked := r; skipped := false;
       shouldUpdateMeters := meters; shouldUpdateWaveform := bars |}.

(** A run of animation frames: the state reached and what each frame
    decided. *)
Fixpoint run (st : loop) (fs : list frame) : loop * list (frame * frameResult) :=
  match fs with
  | [] => (st, [])
  | f :: rest =>
      let r := updateVisuals f st in
      let '(final, log) := run (after r) rest in
      (final, (f, r) :: log)
  end.

(** A frame at [t] milliseconds while playing on tier [q], with the
    automatic adjustment off. *)
Definition playingAt (q : quality) (t : Q) : frame :=
  {| f_quality := q; f_isPlaying := true; f_auto := false;
     f_now := t; f_dateNow := 1000000 |}.

(** The frame-skip count is 0 or a number from 2 to 60, and the frame
    counter is not negative. *)
Definition steady (st : loop) : Prop :=
  (0 <= frameCount st)%Z
  /\ exists k : Z, skipFrames st = Frames k /\ (k = 0 \/ 2 <= k <= 60)%Z.

End Loop.

(** ** Track and release navigation *)

Module Tracks.
Import JS.
Local Open Scope Z_scope.

(** A [Track] by its [id], the one field the navigation reads. *)
Record Track := { id : Z }.

(** [tracks.findIndex(t => t.id === wanted)]: the first position, or -1. *)
Fixpoint findIndexFrom (i : Z) (tracks : list Track) (wanted : Z) : Z :=
  match tracks with
  | [] => -1
  | t :: rest => if id t =? wanted then i else findIndexFrom (i + 1) rest wanted
  end.

Definition findIndex (tracks : list Track) (wanted : Z) : Z :=
  findIndexFrom 0 tracks wanted.

(** [tracks[i]], [undefined] outside the list. *)
Definition at_ (tracks : list Track) (i : Z) : option Track :=
  if i <? 0 then None else nth_error tracks (Z.to_nat i).

(** [tracks[i % tracks.length]]; with no track the remainder is NaN and
    the read [undefined]. *)
Definition atModulo (tracks : list Track) (i : Z) : option Track :=
  let n := Z.of_nat (length tracks) in
  if n =? 0 then None else at_ tracks (Z.rem i n).

(** The tracks a shuffle chooses from. *)
Definition otherTracks (allTracks : list Track) (current : Track) : list Track :=
  filter (fun t => negb (id t =? id current)) allTracks.

(** [otherTracks[Math.floor(Math.random() * otherTracks.length)]], with
    [random] the value of [Math.random()]. *)
Definition shuffled (allTracks : list Track) (current : Track) (random : Q)
    : option Track :=
  let others := otherTracks allTracks current in
  at_ others (Math_floor (random * inject_Z (Z.of_nat (length others)))%Q).

Definition getNextTrack (currentTrack : option Track) (allTracks : list Track)
    (shuffleMode : bool) (random : Q) : option Track :=
  match currentTrack with
  | None => at_ allTracks 0
  | Some current =>
      if shuffleMode then shuffled allTracks current random
      else
        let currentIndex := findIndex allTracks (id current) in
        atModulo allTracks (currentIndex + 1)
  end.

Definition getPreviousTrack (currentTrack : option Track) (allTracks : list Track)
    (shuffleMode : bool) (random : Q) : option Track :=
  match currentTrack with
  | None => at_ allTracks 0
  | Some current =>
      if shuffleMode then shuffled allTracks current random
      else
        let currentIndex := findIndex allTracks (id current) in
        atModulo allTracks (currentIndex - 1 + Z.of_nat (length allTracks))
  end.

(** The provider's [playNextTrack]: the track whose [play] it schedules,
    none when it returns without scheduling. *)
Definition playNextTrack (currentTrack : option Track) (allTracksData : list Track)
    : option Track :=
  match currentTrack with
  | None => None
  | Some current =>
      let currentIndex := findIndex allTracksData (id current) in
      atModulo allTracksData (currentIndex + 1)
  end.

(** The release spotlight's index steps over [releases] releases; with no
    release the remainder is NaN, here [None]. *)
Definition nextRelease (releases : nat) (prev : Z) : option Z :=
  let n := Z.of_nat releases in
  if n =? 0 then None else Some (Z.rem (prev + 1) n).

Definition prevRelease (releases : nat) (prev : Z) : option Z :=
  let n := Z.of_nat releases in
  if n =? 0 then None else Some (Z.rem (prev - 1 + n) n).

(** The position after [k] in a list of [n], wrapping to the start, and
    the one before, wrapping to the end. *)
Definition after_ (n k : nat) : nat := if (S k =? n)%nat then 0%nat else S k.
Definition before_ (n k : nat) : nat :=
  if (k =? 0)%nat then (n - 1)%nat else (k - 1)%nat.

End Tracks.

(** ** Spectrum columns ([AsciiSpectrumAnalyzer]) *)

Module Columns.
Import JS Spectrum.
Local Open Scope Q_scope.

(** [frequencyData[j] || 0] *)
Definition binValue (frequencyData : list byte) (j : Z) : Z :=
  match index frequencyData j with
  | Some b => u8 b
  | None => 0%Z
  end.

(** The sum of the bins [[startIndex, endIndex)]. *)
Definition sumBins (frequencyData : list byte) (startIndex endIndex : Z) : Z :=
  fold_left (fun sum k => (sum + binValue frequencyData (startIndex + Z.of_nat k))%Z)
            (seq 0 (Z.to_nat (endIndex - startIndex))) 0%Z.

(** The value of a column that sums the bins [[startIndex, endIndex)]. *)
Definition columnValue (frequencyData : list byte) (intensity : Q)
    (startIndex endIndex : Z) : Q :=
  let sum := sumBins frequencyData startIndex endIndex in
  let binCount := Z.max 1 (endIndex - startIndex) in
  let avg := inject_Z sum / inject_Z binCount in
  Math_min 100 ((avg / 255) * 100 * (intensity / 50)).

(** The columns computed while the analyser is active and playing. *)
Definition newFreqs (frequencyData : list byte) (intensity : Q) : list Q :=
  map (fun i =>
         columnValue frequencyData intensity
           (startIndex (length frequencyData) i)
           (endIndex (length frequencyData) i))
      (seq 0 VIZ_COLS).

(** One firing of the fade that runs while the analyser is inactive: the
    new columns and whether the interval was cleared. *)
Definition decayColumns (prev : list Q) : list Q * bool :=
  let newFreqs := map (fun f => Math_max 0 (f * (95 # 100) - 1)) prev in
  (newFreqs, forallb (fun f => Qeq_bool f 0) newFreqs).

(** The fade until a firing clears it, looking at [n] firings at most. *)
Fixpoint fade (n : nat) (columns : list Q) : list Q * bool :=
  match n with
  | O => (columns, false)
  | S n' =>
      let '(columns', cleared) := decayColumns columns in
      if cleared then (columns', true) else fade n' columns'
  end.

(** A column's value after [k] firings of the fade. *)
Fixpoint columnAfter (k : nat) (f : Q) : Q :=
  match k with
  | O => f
  | S k' => Math_max 0 (columnAfter k' f * (95 # 100) - 1)
  end.

(** [getAsciiChar]: the character for a value, out of [chars]. *)
Definition getAsciiChar {A : Type} (value : Q) (chars : list A) : option A :=
  let last := (Z.of_nat (length chars) - 1)%Z in
  let index := Math_floor ((value / 100) * inject_Z last) in
  nth_error chars (Z.to_nat (Z.max 0 (Z.min last index))).

(** [getFreqLabelPosition]: where the label of a frequency stands, in
    percent of the width. *)
Definition getFreqLabelPosition (freq : R) : R :=
  let logMin := Math_log10 MIN_FREQ in
  let logMax := Math_log10 MAX_FREQ in
  let logRange := (logMax - logMin)%R in
  let logFreq := Math_log10 freq in
  ((logFreq - logMin) / logRange * 100)%R.

Definition freqLabels : list R :=
  [20; 50; 100; 200; 500; 1000; 2000; 5000; 10000; 20000]%R.

End Columns.

(** ** Meter segments ([renderSimpleMeter]) *)

Module Display.
Import JS Quality.
Local Open Scope Q_scope.

Definition getSegmentCount (q : quality) : Z :=
  match q with ultra => 20 | high => 15 | medium => 10 | low => 5 end.

Definition segmentHeight (q : quality) : Q := 100 / inject_Z (getSegmentCount q).

(** The level at which segment [i], counted from the top, lights. *)
Definition segmentLevel (q : quality) (i : Z) : Q :=
  inject_Z (getSegmentCount q - i) * segmentHeight q.

(** [level >= segmentLevel] *)
Definition isActive (q : quality) (level : Q) (i : Z) : bool :=
  Qle_bool (segmentLevel q i) level.

End Display.

(** ** The zoom ladder *)

Module Zoom.
Import Scope.

(** The zoom is on its ladder and the amplitude zoom on its own. *)
Definition onLadder (s : state) : Prop :=
  In (zoomLevel s) levels /\ In (amplitudeZoom s) amplitudeLevels.

End Zoom.

(** ** The buffers the provider delivers ([AudioProvider]) *)

Module Delivery.
Import JS Quality Provider.

(** [analyser.frequencyBinCount]: half the [fftSize]. *)
Definition frequencyBinCount (fftSize : nat) : nat := fftSize / 2.

(** [updateAudioData], every 100 ms while playing: two fresh arrays of
    [frequencyBinCount] bytes, filled by the analyser, whose time-domain
    and frequency bytes are [timeDomain] and [frequency]. *)
Definition updateAudioData (isPlaying : bool) (timeDomain frequency : nat -> byte)
    (st : audioState) : audioState :=
  match analyser st with
  | Some fftSize =>
      if isPlaying then
        let bufferLength := frequencyBinCount fftSize in
        {| audioData := map timeDomain (seq 0 bufferLength);
           frequencyData := map frequency (seq 0 bufferLength);
           analyser := analyser st |}
      else st
  | None => st
  end.

(** [initializeAudioContext(fftSize = 128)]: nothing when the context
    exists; [created] tells whether the browser created one. *)
Definition initializeAudioContext (created : bool) (fftSize : nat) (st : audioState)
    : audioState :=
  match analyser st with
  | Some _ => st
  | None =>
      if created then
        {| audioData := audioData st; frequencyData := frequencyData st;
           analyser := Some fftSize |}
      else st
  end.

(** What happens to the provider's buffers: [play] initialises the audio
    context with the default size, the player switches the tier, the
    100 ms interval fires. *)
Inductive event :=
| Play (created : bool)
| SetQuality (q : quality)
| Interval (isPlaying : bool) (timeDomain frequency : nat -> byte).

Definition step (st : audioState) (e : event) : audioState :=
  match e with
  | Play created => initializeAudioContext created 128 st
  | SetQuality q => updateQualitySettings q st
  | Interval isPlaying timeDomain frequency =>
      updateAudioData isPlaying timeDomain frequency st
  end.

Definition run (events : list event) : audioState :=
  fold_left step events Provider.initial.

(** The two buffers have one length, one of the four configured ones,
    and an analyser that exists is set to deliver one of the four. *)
Definition sized (st : audioState) : Prop :=
  length (audioData st) = length (frequencyData st)
  /\ In (length (frequencyData st)) [32; 64; 128; 256]%nat
  /\ match analyser st with
     | Some fftSize => In (frequencyBinCount fftSize) [32; 64; 128; 256]%nat
     | None => True
     end.

End Delivery.

(** ** The warning list over time *)

Module Player.
Import Quality Perf Warnings.
Local Open Scope Z_scope.

(** A pending [setTimeout(_, 1000)] of the automatic adjustment: it runs
    no earlier than [due] and then sets the tier [tier]. *)
Record timer := { due : Z; tier : quality }.

(** The player's state that the warnings depend on. *)
Record player := {
  qualityLevel : quality;
  autoQualityEnabled : bool;
  performanceRef : performance;
  performanceWarnings : list PerformanceWarning;
  timers : list timer
}.

(** The initial [useState] and [useRef] values. *)
Definition initial : player :=
  {| qualityLevel := medium; autoQualityEnabled := true;
     performanceRef := Perf.initial; performanceWarnings := []; timers := [] |}.

(** Two warnings have the same [id]: the kind that starts the [id]
    (read off the type, the severity and, for the "AUTO" notice, the
    missing suggestion) and the timestamp that ends it. *)
Definition sameId (a b : PerformanceWarning) : bool :=
  match wtype a, wtype b with
  | fps_low, fps_low | fps_critical, fps_critical
  | memory_high, memory_high | cpu_high, cpu_high => true
  | _, _ => false
  end
  && match wseverity a, wseverity b with
     | sev_warning, sev_warning | sev_critical, sev_critical => true
     | _, _ => false
     end
  && match suggestedQuality a, suggestedQuality b with
     | Some _, Some _ | None, None => true
     | _, _ => false
     end
  && (timestamp a =? timestamp b).

(** What happens to the warning list. *)
Inductive event :=
(** the periodic block of a frame, which runs while playing, having
    counted [frames] frames, at [Date.now() = now] *)
| Check (frames now : Z)
(** the callback of the oldest pending timer is run, at
    [Date.now() = dateNow] *)
| Timeout (dateNow : Z)
(** the auto-dismiss interval fires *)
| Sweep (now : Z)
(** the quality selector and the auto-adjust checkbox *)
| SetQuality (q : quality)
| SetAuto (enabled : bool)
(** [dismissWarning], [applyQualitySuggestion], [clearAllWarnings] *)
| Dismiss (warning : PerformanceWarning)
| Apply (warning : PerformanceWarning)
| ClearAll.

(** The check that a frame's periodic block runs in state [p]. *)
Definition checked (p : player) (frames now : Z) : checkResult :=
  performanceCheck true
    {| c_quality := qualityLevel p; c_auto := autoQualityEnabled p;
       c_frames := frames; c_now := now |}
    (performanceRef p).

(** The warnings that an event appends to the list. *)
Definition appended (p : player) (e : event) : list PerformanceWarning :=
  match e with
  | Check frames now => emitted (checked p frames now)
  | Timeout dateNow =>
      match timers p with
      | t :: _ => if due t <=? dateNow then [autoNotice dateNow] else []
      | [] => []
      end
  | _ => []
  end.

Definition step (p : player) (e : event) : player :=
  match e with
  | Check frames now =>
      let r := checked p frames now in
      {| qualityLevel := qualityLevel p;
         autoQualityEnabled := autoQualityEnabled p;
         performanceRef := perfAfter r;
         performanceWarnings := performanceWarnings p ++ emitted r;
         timers :=
           timers p
           ++ match scheduled r with
              | Some s => [ {| due := now + 1000; tier := s |} ]
              | None => []
              end |}
  | Timeout dateNow =>
      match timers p with
      | t :: rest =>
          if due t <=? dateNow then
            {| qualityLevel := tier t;
               autoQualityEnabled := autoQualityEnabled p;
               performanceRef := performanceRef p;
               performanceWarnings := performanceWarnings p ++ [autoNotice dateNow];
               timers := rest |}
          else p
      | [] => p
      end
  | Sweep now =>
      {| qualityLevel := qualityLevel p;
         autoQualityEnabled := autoQualityEnabled p;
         performanceRef := performanceRef p;
         performanceWarnings := expire now (performanceWarnings p);
         timers := timers p |}
  | SetQuality q =>
      {| qualityLevel := q;
         autoQualityEnabled := autoQualityEnabled p;
         performanceRef := performanceRef p;
         performanceWarnings := performanceWarnings p;
         timers := timers p |}
  | SetAuto enabled =>
      {| qualityLevel := qualityLevel p;
         autoQualityEnabled := enabled;
         performanceRef := performanceRef p;
         performanceWarnings := performanceWarnings p;
         timers := timers p |}
  | Dismiss warning =>
      {| qualityLevel := qualityLevel p;
         autoQualityEnabled := autoQualityEnabled p;
         performanceRef := performanceRef p;
         performanceWarnings :=
           filter (fun w => negb (sameId w warning)) (performanceWarnings p);
         timers := timers p |}
  | Apply warning =>
      match suggestedQuality warning with
      | Some s =>
          {| qualityLevel := s;
             autoQualityEnabled := autoQualityEnabled p;
             performanceRef := performanceRef p;
             performanceWarnings :=
               filter (fun w => negb (sameId w warning)) (performanceWarnings p);
             timers := timers p |}
      | None => p
      end
  | ClearAll =>
      {| qualityLevel := qualityLevel p;
         autoQualityEnabled := autoQualityEnabled p;
         performanceRef := performanceRef p;
         performanceWarnings := [];
         timers := timers p |}
  end.

Definition run (p : player) (events : list event) : player :=
  fold_left step events p.

(** *** Vocabulary of the properties *)

(** The reading of the clock that an event carries. *)
Definition eventTime (e : event) : Z :=
  match e with
  | Check _ now | Timeout now | Sweep now => now
  | _ => 0
  end.

(** The event carries no reading of the clock later than [now]. *)
Definition notAfter (now : Z) (e : event) : Prop :=
  match e with
  | Check _ t | Timeout t | Sweep t => t <= now
  | _ => True
  end.

(** The monitor's state whose counters a warning of the event is tested
    on: for a check, the state with its frame rate measured and its
    metrics updated. *)
Definition tested (p : player) (e : event) : performance :=
  match e with
  | Check frames _ =>
      updatePerformanceMetrics (qualityLevel p) true
        (setFps (measureFps (qualityLevel p) frames) (performanceRef p))
  | _ => performanceRef p
  end.

(** The rule as the specification words it, for a warning [w] appended
    by event [e] in state [p]: the streak of its kind is reached, and
    5000 ms have passed since the last emitted warning. *)
Definition streakAndCooldown (p : player) (e : event) (w : PerformanceWarning)
    : Prop :=
  (wtype w = fps_critical -> 3 <= criticalFpsCount (tested p e))
  /\ (wtype w = fps_low -> 5 <= lowFpsCount (tested p e))
  /\ 5000 <= eventTime e - lastWarningTime (performanceRef p).

(** Three checks at 20 frames per second on the initial tier, "medium",
    one second apart. *)
Definition threeSlowChecks : list event :=
  [Check 20 1000000; Check 20 1001000; Check 20 1002000].

End Player.

(** ** The decay intervals among the meter updates *)

Module Decay.
Import Meter.
Local Open Scope Q_scope.

(** The meter state and the decay intervals created so far, in the order
    of their creation: [true] while an interval has not been cleared.
    Nothing but an interval's own callback clears it: the effect's cleanup
    cancels the animation frame only. *)
Record meters := { data : meterData; intervals : list bool }.

Inductive event :=
(** the effect runs with [isPlaying] false: [setInterval(_, 500)] *)
| Stops
(** the meter block of a frame, during playback *)
| Tick (leftRMS rightRMS leftPeak rightPeak correlation : Q)
       (points : list (Q * Q))
(** the callback of interval [i] runs *)
| Fires (i : nat).

(** [clearInterval] of interval [i]. *)
Definition cleared (i : nat) (l : list bool) : list bool :=
  firstn i l ++ false :: skipn (S i) l.

Definition step (m : meters) (e : event) : meters :=
  match e with
  | Stops => {| data := data m; intervals := intervals m ++ [true] |}
  | Tick leftRMS rightRMS leftPeak rightPeak correlation points =>
      {| data :=
           updateMeters leftRMS rightRMS leftPeak rightPeak correlation points
                        (data m);
         intervals := intervals m |}
  | Fires i =>
      match nth_error (intervals m) i with
      | Some true =>
          let '(d, halted) := decayTick (data m) in
          {| data := d;
             intervals := if halted then cleared i (intervals m) else intervals m |}
      | _ => m
      end
  end.

Definition run (m : meters) (events : list event) : meters :=
  fold_left step events m.

(** *** Vocabulary of the properties *)

(** Not a meter update: playback is stopped. *)
Definition noTick (e : event) : Prop :=
  match e with Tick _ _ _ _ _ _ => False | _ => True end.

Definition firesOf (i : nat) (e : event) : bool :=
  match e with Fires j => (j =? i)%nat | _ => false end.

(** How often interval [i] fires in [events]. *)
Definition firings (i : nat) (events : list event) : nat :=
  length (filter (firesOf i) events).

(** Playback resumed at full level: [n] times a meter update at 100 and
    a firing of interval [i]. *)
Definition resumed (i n : nat) : list event :=
  concat (repeat [Tick 100 100 100 100 0 []; Fires i] n).

End Decay.

(** * Properties *)

(** ** Clamps on rationals *)

Section Clamps.
Local Open Scope Q_scope.

Lemma Math_max_cases (a b : Q) :
  (a < b /\ JS.Math_max a b == b) \/ (b <= a /\ JS.Math_max a b == a).
Proof. exact (Q.max_spec a b). Qed.

Lemma Math_min_cases (a b : Q) :
  (a < b /\ JS.Math_min a b == a) \/ (b <= a /\ JS.Math_min a b == b).
Proof. exact (Q.min_spec a b). Qed.

Lemma gt_true (a b : Q) : JS.gt a b = true <-> b < a.
Proof.
  unfold JS.gt. rewrite negb_true_iff, <- not_true_iff_false, Qle_bool_iff.
  split; [apply Qnot_le_lt | apply Qlt_not_le].
Qed.

Lemma gt_false (a b : Q) : JS.gt a b = false <-> a <= b.
Proof.
  unfold JS.gt. rewrite negb_false_iff, Qle_bool_iff. reflexivity.
Qed.

Lemma lt_true (a b : Q) : JS.lt a b = true <-> a < b.
Proof. exact (gt_true b a). Qed.

Lemma lt_false (a b : Q) : JS.lt a b = false <-> b <= a.
Proof. exact (gt_false b a). Qed.

Lemma le_true (a b : Q) : JS.le a b = true <-> a <= b.
Proof. unfold JS.le. apply Qle_bool_iff. Qed.

End Clamps.

(** Linear arithmetic on rationals, with the divisions by a literal turned
    into multiplications first. *)
Ltac qnorm :=
  unfold Qdiv in *;
  repeat match goal with
  | |- context [Qinv (?n # ?d)] =>
      let v := eval compute in (Qinv (n # d)) in
      change (Qinv (n # d)) with v
  | H : context [Qinv (?n # ?d)] |- _ =>
      let v := eval compute in (Qinv (n # d)) in
      change (Qinv (n # d)) with v in H
  end.

Ltac qlra := qnorm; Lqa.lra.

(** Names every [Math.max] and [Math.min] of the goal and keeps only what
    its case analysis says, for linear arithmetic to finish. *)
Ltac clamp_cases :=
  repeat match goal with
  | |- context [JS.Math_max ?a ?b] =>
      let m := fresh "m" in
      let H := fresh "Hm" in
      pose proof (Math_max_cases a b) as H;
      set (m := JS.Math_max a b) in *; clearbody m
  | |- context [JS.Math_min ?a ?b] =>
      let m := fresh "m" in
      let H := fresh "Hm" in
      pose proof (Math_min_cases a b) as H;
      set (m := JS.Math_min a b) in *; clearbody m
  | _ : context [JS.Math_max ?a ?b] |- _ =>
      let m := fresh "m" in
      let H := fresh "Hm" in
      pose proof (Math_max_cases a b) as H;
      set (m := JS.Math_max a b) in *; clearbody m
  | _ : context [JS.Math_min ?a ?b] |- _ =>
      let m := fresh "m" in
      let H := fresh "Hm" in
      pose proof (Math_min_cases a b) as H;
      set (m := JS.Math_min a b) in *; clearbody m
  end.

(** ** Waveform bars *)

Section WaveformProps.
Import JS Quality Waveform.
Local Open Scope Q_scope.

Lemma u8_range (b : byte) : (0 <= u8 b <= 255)%Z.
Proof.
  unfold u8. pose proof (Byte.to_N_bounded b). lia.
Qed.

Lemma bar_range (frequencyData : list byte) (step : Z) (i : nat) :
  5 <= bar frequencyData step i <= 80.
Proof.
  unfold bar.
  set (frequency := match index frequencyData (Z.of_nat i * step) with
                    | Some b => u8 b
                    | None => 0%Z
                    end).
  assert (Hf : (0 <= frequency <= 255)%Z).
  { subst frequency. destruct (index _ _); [apply u8_range | lia]. }
  assert (H0 : 0 <= inject_Z frequency).
  { change 0 with (inject_Z 0). rewrite <- Zle_Qle. lia. }
  assert (H1 : inject_Z frequency <= 255).
  { change 255 with (inject_Z 255). rewrite <- Zle_Qle. lia. }
  clearbody frequency.
  set (x := inject_Z frequency) in *. clearbody x.
  clamp_cases. qlra.
Qed.

(** C10. A waveform update on a non-empty frequency buffer produces only
    bars between 5 and 80: the floor of 5 keeps every bar off zero, and the
    scaling of a byte by 80/255 keeps it at or under 80, below the clamp
    at 100. *)
Theorem C10_waveform_bars_between_5_and_80 :
  forall (frequencyData : list byte) (q : quality) (waveformBars : list Q),
    frequencyData <> [] ->
    Forall (fun b => 5 <= b <= 80)
           (updateWaveform frequencyData q waveformBars)
    /\ length (updateWaveform frequencyData q waveformBars) = getWaveformBars q.
Proof.
  intros fd q bars Hne. unfold updateWaveform.
  destruct fd as [|x fd]; [congruence|]. cbn [length Nat.ltb Nat.leb].
  split.
  - apply Forall_forall. intros b Hb. apply in_map_iff in Hb.
    destruct Hb as [i [<- _]]. apply bar_range.
  - now rewrite length_map, length_seq.
Qed.

Lemma C10_waveform_bars_witness :
  Forall (fun b => 5 <= b <= 80) (updateWaveform [x00; xff] low [])
  /\ length (updateWaveform [x00; xff] low []) = getWaveformBars low.
Proof.
  apply (C10_waveform_bars_between_5_and_80 [x00; xff] low []). discriminate.
Defined.

End WaveformProps.

(** ** Meter ballistics *)

Section MeterProps.
Import JS Meter.
Local Open Scope Q_scope.

(** C2, as stated, fails: from level 0 and a step to 100 fed to both
    meters, the PPM level after one tick is not at or above the VU level. *)
Lemma C2_ppm_not_above_vu_after_step :
  ~ (vuLeft (afterStep 100) <= ppmLeft (afterStep 100)).
Proof. vm_compute. intros H. apply H. reflexivity. Qed.

(** C2, amended.  From level 0 and a step to 100 fed to both meters, one
    tick takes the VU level to 30 (blend 0.3) and the PPM level to 20
    (blend 0.2), on both channels: the VU level after the tick is at or
    above the PPM level. *)
Theorem C2_vu_above_ppm_after_step :
  vuLeft (afterStep 100) == 30 /\ vuRight (afterStep 100) == 30
  /\ ppmLeft (afterStep 100) == 20 /\ ppmRight (afterStep 100) == 20
  /\ ppmLeft (afterStep 100) <= vuLeft (afterStep 100)
  /\ ppmRight (afterStep 100) <= vuRight (afterStep 100).
Proof. vm_compute. repeat split; discriminate. Qed.

(** The same for a step to any positive value. *)
Lemma step_attack (x : Q) :
  0 < x ->
  vuLeft (afterStep x) == x * (3 # 10) /\ ppmLeft (afterStep x) == x * (2 # 10).
Proof.
  intros Hx. unfold afterStep, updateMeters, vuBallistics, ppmBallistics.
  cbn [vuLeft ppmLeft initial].
  assert (G : gt x 0 = true) by (apply gt_true; exact Hx).
  rewrite G. split; ring.
Qed.

(** *** Peak-holds *)

Lemma hold_above_instantaneous (d inst prev : Q) :
  inst <= Math_max inst (prev * d).
Proof. clamp_cases. qlra. Qed.

Lemma hold_decays_at_most (d inst prev : Q) :
  prev * d <= Math_max inst (prev * d).
Proof. clamp_cases. qlra. Qed.

Lemma hold_non_increasing (d inst prev : Q) :
  0 <= d <= 1 -> 0 <= prev -> inst <= prev ->
  Math_max inst (prev * d) <= prev.
Proof.
  intros Hd Hp Hi.
  assert (prev * d <= prev) by Lqa.nra.
  clamp_cases. qlra.
Qed.

(** C7. On a meter-update tick every peak-hold becomes the maximum of its
    instantaneous value and the previous hold times its decay factor (0.98
    for VU, 0.99 for PPM).  So the new hold is never below the
    instantaneous value, never below the decayed previous hold, and, while
    the instantaneous value stays at or under the (non-negative) previous
    hold, never above the previous hold. *)
Theorem C7_peak_hold :
  forall (leftRMS rightRMS leftPeak rightPeak corr : Q) (points : list (Q * Q))
         (prev : meterData),
    let next := updateMeters leftRMS rightRMS leftPeak rightPeak corr points prev in
    Forall (fun '(d, inst, hold, hold') =>
              hold' = Math_max inst (hold * d)
              /\ inst <= hold'
              /\ hold * d <= hold'
              /\ (0 <= hold -> inst <= hold -> hold' <= hold))
           (holds leftRMS rightRMS leftPeak rightPeak prev next).
Proof.
  intros. subst next. unfold holds, updateMeters, vuPeakHold, ppmPeakHold.
  cbn [vuPeakLeft vuPeakRight ppmPeakLeft ppmPeakRight].
  repeat constructor;
    try apply hold_above_instantaneous; try apply hold_decays_at_most;
    intros; apply hold_non_increasing; try assumption; split; discriminate.
Qed.

(** Holds that start non-negative stay non-negative when the instantaneous
    values are non-negative, as the outputs of the signal processors are. *)
Lemma holds_stay_non_negative
    (leftRMS rightRMS leftPeak rightPeak corr : Q) (points : list (Q * Q))
    (prev : meterData) :
  0 <= leftRMS -> 0 <= rightRMS -> 0 <= leftPeak -> 0 <= rightPeak ->
  let next := updateMeters leftRMS rightRMS leftPeak rightPeak corr points prev in
  0 <= vuPeakLeft next /\ 0 <= vuPeakRight next
  /\ 0 <= ppmPeakLeft next /\ 0 <= ppmPeakRight next.
Proof.
  intros H1 H2 H3 H4 next. subst next.
  unfold updateMeters, vuPeakHold, ppmPeakHold.
  cbn [vuPeakLeft vuPeakRight ppmPeakLeft ppmPeakRight].
  repeat split.
  - pose proof (hold_above_instantaneous (98 # 100) leftRMS (vuPeakLeft prev)). qlra.
  - pose proof (hold_above_instantaneous (98 # 100) rightRMS (vuPeakRight prev)). qlra.
  - pose proof (hold_above_instantaneous (99 # 100) leftPeak (ppmPeakLeft prev)). qlra.
  - pose proof (hold_above_instantaneous (99 # 100) rightPeak (ppmPeakRight prev)). qlra.
Qed.

End MeterProps.

(** ** The decay loop *)

Section DecayProps.
Import JS Meter.
Local Open Scope Q_scope.

Lemma decay_from_50 :
  let r := decayLoop 60 stoppedAt50 in
  snd r = true
  /\ snd (decayTick (fst r)) = true
  /\ 4 < vuPeakLeft (fst r) /\ 20 < ppmPeakLeft (fst r).
Proof. vm_compute. repeat split. Qed.

(** C3, as stated, fails, whatever the threshold: with a threshold of at
    most 1 the loop halts in a state whose peak-holds are still above it,
    and with a larger one the loop runs on in a state whose values are all
    under it. *)
Lemma C3_halts_with_holds_above_threshold :
  ~ (exists threshold : Q,
       forall s : meterData,
         snd (decayTick s) = true <-> allValuesUnder threshold s).
Proof.
  intros [t H]. destruct (Qlt_le_dec 1 t) as [Hbig | Hsmall].
  - assert (Hrun : snd (decayTick allAtOne) = true).
    { apply H. unfold allValuesUnder. cbn. repeat split; exact Hbig. }
    discriminate Hrun.
  - destruct decay_from_50 as (_ & Hhalt & Hvu & _).
    apply H in Hhalt. destruct Hhalt as (_ & _ & _ & _ & Hlow & _).
    revert Hvu Hlow. generalize (vuPeakLeft (fst (decayLoop 60 stoppedAt50))).
    intros q. Lqa.lra.
Qed.

Lemma allLow_levels (s : meterData) : allLow s = true <-> levelsUnder 1 s.
Proof.
  unfold allLow, levelsUnder. rewrite !andb_true_iff, !lt_true. tauto.
Qed.

(** C3, amended.  A firing of the decay loop halts it exactly when the four
    levels (VU and PPM, left and right) are under 1; the peak-holds and the
    correlation are not consulted.  A firing that halts leaves the meters
    as they are; any other firing scales the VU levels by 0.9, the PPM
    levels and the VU peak-holds by 0.95, and the PPM peak-holds and the
    correlation by 0.98. *)
Theorem C3_halts_exactly_when_levels_low :
  forall s : meterData,
    (snd (decayTick s) = true <-> levelsUnder 1 s)
    /\ (snd (decayTick s) = true -> fst (decayTick s) = s)
    /\ (snd (decayTick s) = false ->
        let s' := fst (decayTick s) in
        vuLeft s' = vuLeft s * (9 # 10) /\ vuRight s' = vuRight s * (9 # 10)
        /\ ppmLeft s' = ppmLeft s * (95 # 100) /\ ppmRight s' = ppmRight s * (95 # 100)
        /\ vuPeakLeft s' = vuPeakLeft s * (95 # 100)
        /\ vuPeakRight s' = vuPeakRight s * (95 # 100)
        /\ ppmPeakLeft s' = ppmPeakLeft s * (98 # 100)
        /\ ppmPeakRight s' = ppmPeakRight s * (98 # 100)
        /\ correlation s' = correlation s * (98 # 100)).
Proof.
  intros s. rewrite <- allLow_levels. unfold decayTick.
  destruct (allLow s); cbn [fst snd]; repeat split; try congruence.
Qed.

(** The loop does halt: with the four levels at most [bound], it is
    cleared by the firing after those that bring [bound] under 1. *)
Lemma decayLoop_halts (n : nat) :
  forall (bound : Q) (s : meterData),
    0 <= bound -> levelsAtMost bound s -> decayed n bound < 1 ->
    snd (decayLoop (S n) s) = true.
Proof.
  induction n as [|n IH]; intros bound s Hb Hs Hn.
  - cbn [decayed] in Hn. cbn [decayLoop].
    assert (Hlow : allLow s = true).
    { apply allLow_levels. unfold levelsUnder, levelsAtMost in *. Lqa.lra. }
    unfold decayTick. now rewrite Hlow.
  - cbn [decayed] in Hn.
    change (decayLoop (S (S n)) s)
      with (let '(s', halted) := decayTick s in
            if halted then (s', true) else decayLoop (S n) s').
    unfold decayTick. destruct (allLow s) eqn:Hlow; [reflexivity|].
    apply (IH (bound * (95 # 100))); [Lqa.lra | | exact Hn].
    unfold levelsAtMost in *. cbn [vuLeft vuRight ppmLeft ppmRight].
    Lqa.lra.
Qed.

(** From meters within their range [[0,100]] the loop is cleared within 91
    firings. *)
Lemma decayLoop_halts_from_range (s : meterData) :
  levelsAtMost 100 s -> snd (decayLoop 91 s) = true.
Proof.
  intros Hs. apply (decayLoop_halts 90 100 s); [discriminate | exact Hs |].
  vm_compute. reflexivity.
Qed.

End DecayProps.

(** ** The CPU estimate *)

Section CpuProps.
Import JS Quality Perf.
Local Open Scope Q_scope.

Lemma targetFps_positive (q : quality) : 0 < targetFps q.
Proof. destruct q; reflexivity. Qed.

(** C9. With the tier and the playback flag fixed, the CPU estimate does
    not increase with the average frame rate. *)
Theorem C9_cpu_estimate_antitone :
  forall (q : quality) (isPlaying : bool) (a b : Q),
    a <= b -> cpuEstimate q isPlaying b <= cpuEstimate q isPlaying a.
Proof.
  intros q isPlaying a b Hab. unfold cpuEstimate.
  set (c := if isPlaying then 20 else 5).
  assert (Hdiv : a / targetFps q <= b / targetFps q).
  { unfold Qdiv. apply Qmult_le_compat_r; [exact Hab|].
    apply Qlt_le_weak, Qinv_lt_0_compat, targetFps_positive. }
  set (x := a / targetFps q) in *. set (y := b / targetFps q) in *.
  clearbody x y c.
  clamp_cases. Lqa.lra.
Qed.

Lemma C9_cpu_estimate_witness :
  cpuEstimate medium true 30 <= cpuEstimate medium true 20.
Proof.
  apply (C9_cpu_estimate_antitone medium true 20 30). discriminate.
Defined.

(** The estimate is the one the monitor stores. *)
Lemma cpuUsage_is_estimate (q : quality) (isPlaying : bool) (perf : performance) :
  let perf' := updatePerformanceMetrics q isPlaying perf in
  cpuUsage perf' = cpuEstimate q isPlaying (avgFps perf').
Proof. reflexivity. Qed.

End CpuProps.

(** ** The quality switch *)

Section QualityProps.
Import JS Quality Provider.
Local Open Scope Q_scope.




(** On a switch from "high" to "low" during playback the bars go from 32
    to 12 and the buffers from 128 to 32. *)
Lemma switch_high_to_low :
  let before := qualityEffect high playing (repeat 15 24%nat) in
  let after := qualityEffect low (fst before) (snd before) in
  length (snd before) = 32%nat /\ length (snd after) = 12%nat
  /\ length (frequencyData (fst before)) = 128%nat
  /\ length (frequencyData (fst after)) = 32%nat
  /\ analyser (fst after) = Some 64%nat.
Proof. vm_compute. repeat split. Qed.

End QualityProps.

(** ** Signal processors *)

Section SignalProps.
Import JS Signal.

(** *** calculatePeak *)

Local Open Scope Q_scope.

Lemma normalize_range (b : byte) : -1 <= normalize b <= 127 # 128.
Proof.
  unfold normalize. pose proof (u8_range b) as Hb.
  assert (H0 : 0 <= inject_Z (u8 b)).
  { change 0 with (inject_Z 0). rewrite <- Zle_Qle. lia. }
  assert (H1 : inject_Z (u8 b) <= 255).
  { change 255 with (inject_Z 255). rewrite <- Zle_Qle. lia. }
  set (x := inject_Z (u8 b)) in *. clearbody x. qlra.
Qed.

Lemma abs_normalize_range (b : byte) : 0 <= Math_abs (normalize b) <= 1.
Proof.
  unfold Math_abs. split; [apply Qabs_nonneg|].
  apply Qabs_Qle_condition. pose proof (normalize_range b). Lqa.lra.
Qed.

Lemma peakStep_range (peak : Q) (b : byte) :
  0 <= peak <= 1 -> 0 <= peakStep peak b <= 1.
Proof.
  intros Hp. unfold peakStep. pose proof (abs_normalize_range b).
  destruct (gt _ _); assumption.
Qed.

Lemma peak_fold_range (l : list byte) :
  forall peak, 0 <= peak <= 1 -> 0 <= fold_left peakStep l peak <= 1.
Proof.
  induction l as [|b l IH]; intros peak Hp; cbn [fold_left]; [exact Hp|].
  apply IH, peakStep_range, Hp.
Qed.

(** calculatePeak is within [[0,100]] on every buffer, the empty one
    included. *)
Lemma calculatePeak_range (samples : list byte) (sampleRate : nat) :
  0 <= calculatePeak samples sampleRate <= 100.
Proof.
  unfold calculatePeak.
  assert (H : 0 <= fold_left peakStep (sampled sampleRate 0 samples) 0 <= 1).
  { apply peak_fold_range. split; discriminate. }
  set (p := fold_left _ _ _) in *. clearbody p.
  clamp_cases. Lqa.lra.
Qed.

Lemma calculatePeak_empty (sampleRate : nat) : calculatePeak [] sampleRate == 0.
Proof. reflexivity. Qed.

Lemma sampled_Forall (P : byte -> Prop) (sampleRate : nat) (samples : list byte) :
  Forall P samples -> forall skip, Forall P (sampled sampleRate skip samples).
Proof.
  induction 1 as [|x l Hx Hl IH]; intros skip; cbn [sampled]; [constructor|].
  destruct skip; [constructor; [exact Hx | apply IH] | apply IH].
Qed.

Lemma peak_fold_silent (l : list byte) :
  silent l -> fold_left peakStep l 0 = 0.
Proof.
  induction 1 as [|x l Hx Hl IH]; [reflexivity|].
  subst x. cbn [fold_left]. exact IH.
Qed.

Lemma calculatePeak_silent (samples : list byte) (sampleRate : nat) :
  silent samples -> calculatePeak samples sampleRate == 0.
Proof.
  intros Hs. unfold calculatePeak.
  rewrite peak_fold_silent; [reflexivity|].
  apply sampled_Forall, Hs.
Qed.

End SignalProps.

(** *** calculateRMS *)

Section RmsProps.
Import JS Signal.
Local Open Scope R_scope.

Lemma sumSquares_from (l : list byte) :
  forall acc : R, 0 <= acc ->
    0 <= fold_left (fun sum b => sum + normalizeR b * normalizeR b) l acc.
Proof.
  induction l as [|b l IH]; intros acc Hacc; cbn [fold_left]; [exact Hacc|].
  apply IH. pose proof (Rle_0_sqr (normalizeR b)) as Hsq.
  unfold Rsqr in Hsq. Lra.lra.
Qed.

Lemma sumSquares_non_negative (l : list byte) : 0 <= sumSquares l.
Proof. apply sumSquares_from. Lra.lra. Qed.

Lemma sumSquares_silent (l : list byte) : silent l -> sumSquares l = 0.
Proof.
  unfold sumSquares. induction 1 as [|x l Hx Hl IH]; [reflexivity|].
  subst x. cbn [fold_left].
  replace (0 + normalizeR x80 * normalizeR x80) with 0; [exact IH|].
  unfold normalizeR, u8. cbn. Lra.lra.
Qed.

Lemma clamp_within (r : R) : 0 <= r -> 0 <= Rmin 100 (Rmax 0 r) <= 100.
Proof.
  intros Hr. unfold Rmin, Rmax.
  repeat destruct (Rle_dec _ _); Lra.lra.
Qed.

(** The divisor [length / sampleRate] of a non-empty buffer is positive. *)
Lemma divisor_positive (samples : list byte) (sampleRate : nat) :
  samples <> [] -> (0 < sampleRate)%nat ->
  0 < INR (length samples) / INR sampleRate.
Proof.
  intros Hne Hrate.
  assert (0 < INR (length samples)).
  { apply lt_0_INR. destruct samples; [congruence | cbn; lia]. }
  assert (0 < INR sampleRate) by (apply lt_0_INR; exact Hrate).
  apply Rdiv_lt_0_compat; assumption.
Qed.

(** On a non-empty buffer calculateRMS is a number within [[0,100]]. *)
Lemma calculateRMS_range_non_empty (samples : list byte) (sampleRate : nat) :
  samples <> [] -> (0 < sampleRate)%nat ->
  within 0 100 (calculateRMS samples sampleRate).
Proof.
  intros Hne Hrate. unfold calculateRMS.
  pose proof (divisor_positive samples sampleRate Hne Hrate) as Hd.
  pose proof (sumSquares_non_negative (sampled sampleRate 0 samples)) as Hs.
  set (d := INR (length samples) / INR sampleRate) in *.
  set (sum := sumSquares _) in *. clearbody d sum.
  unfold div. destruct (Req_dec_T d 0) as [E|_]; [Lra.lra|].
  assert (Hq : 0 <= sum / d).
  { apply Rmult_le_pos; [exact Hs | apply Rlt_le, Rinv_0_lt_compat, Hd]. }
  cbn [Math_sqrt]. destruct (Rlt_dec (sum / d) 0) as [Hneg|_]; [Lra.lra|].
  cbn [scale Math_max_c Math_min_c within].
  apply clamp_within.
  pose proof (sqrt_pos (sum / d)). Lra.lra.
Qed.

(** On a non-empty silent buffer calculateRMS is exactly 0. *)
Lemma calculateRMS_silent (samples : list byte) (sampleRate : nat) :
  samples <> [] -> (0 < sampleRate)%nat -> silent samples ->
  calculateRMS samples sampleRate = Num 0.
Proof.
  intros Hne Hrate Hs. unfold calculateRMS.
  pose proof (divisor_positive samples sampleRate Hne Hrate) as Hd.
  rewrite sumSquares_silent by (apply sampled_Forall, Hs).
  set (d := INR (length samples) / INR sampleRate) in *. clearbody d.
  unfold div. destruct (Req_dec_T d 0) as [E|_]; [Lra.lra|].
  replace (0 / d) with 0 by (unfold Rdiv; ring).
  cbn [Math_sqrt]. destruct (Rlt_dec 0 0) as [Hneg|_]; [Lra.lra|].
  rewrite sqrt_0. cbn [scale Math_max_c Math_min_c]. f_equal.
  replace (0 * 150) with 0 by ring.
  unfold Rmin, Rmax. repeat destruct (Rle_dec _ _); Lra.lra.
Qed.

(** The empty buffer: the sum is 0 and so is [length / sampleRate], and
    0/0 is NaN, which [Math.sqrt], the product and both clamps pass on. *)
Lemma calculateRMS_empty (sampleRate : nat) : calculateRMS [] sampleRate = NaN.
Proof.
  unfold calculateRMS. cbn [sampled length sumSquares fold_left INR].
  replace (0 / INR sampleRate) with 0 by (unfold Rdiv; ring).
  unfold div.
  destruct (Req_dec_T 0 0) as [_|Hne]; [reflexivity | now elim Hne].
Qed.

(** C1, as stated, fails at the buffer of length 0: calculateRMS does not
    short-circuit, it divides 0 by 0, and its result is NaN, neither 0 nor
    any value within [[0,100]]; so it is on doubles. *)
Lemma C1_rms_of_empty_buffer_is_NaN :
  ~ within 0 100 (calculateRMS [] defaultSampleRate)
  /\ calculateRMS [] defaultSampleRate <> Num 0
  /\ calculateRMS [] defaultSampleRate = NaN
  /\ PrimFloat.is_nan (Binary64.calculateRMS [] defaultSampleRate) = true.
Proof.
  rewrite calculateRMS_empty. cbn [within].
  repeat split; try reflexivity; [tauto | discriminate].
Qed.

(** On doubles too the processors give 0 on 64 samples of silence, and
    values within [[0,100]] on a square wave of full swing and on a single
    sample. *)
Lemma processors_on_doubles :
  let square := concat (repeat [x00; x00; x00; x00; xff; xff; xff; xff] 8) in
  Binary64.calculateRMS (repeat x80 64) defaultSampleRate = Binary64.ofZ 0
  /\ Binary64.calculatePeak (repeat x80 64) defaultSampleRate = Binary64.ofZ 0
  /\ Binary64.calculatePeak [] defaultSampleRate = Binary64.ofZ 0
  /\ Binary64.calculateRMS square defaultSampleRate = Binary64.ofZ 100
  /\ Binary64.calculatePeak square defaultSampleRate = Binary64.ofZ 100
  /\ Binary64.calculateRMS [xc0] defaultSampleRate = Binary64.ofZ 100
  /\ Binary64.calculatePeak [xc0] defaultSampleRate = Binary64.ofZ 50.
Proof. vm_compute. repeat split. Qed.

(** On any non-empty buffer both processors are within [[0,100]], and on
    a silent one both are 0. *)
Lemma processors_on_non_empty_buffers (samples : list byte) :
  samples <> [] ->
  within 0 100 (calculateRMS samples defaultSampleRate)
  /\ (0 <= calculatePeak samples defaultSampleRate <= 100)%Q
  /\ (silent samples ->
      calculateRMS samples defaultSampleRate = Num 0
      /\ (calculatePeak samples defaultSampleRate == 0)%Q).
Proof.
  intros Hne.
  assert (Hrate : (0 < defaultSampleRate)%nat) by (unfold defaultSampleRate; lia).
  split; [apply calculateRMS_range_non_empty; assumption|].
  split; [apply calculatePeak_range|].
  intros Hs. split; [apply calculateRMS_silent; assumption|].
  apply calculatePeak_silent, Hs.
Qed.

End RmsProps.

(** ** Oscilloscope zoom and pan *)

Section ScopeProps.
Import JS Scope.
Local Open Scope Q_scope.

Lemma dragPan_in_range (x : Q) (s : state) : panInRange (dragPan x s).
Proof.
  unfold panInRange, dragPan. cbn [panOffset]. clamp_cases. Lqa.lra.
Qed.

Lemma zoomIn_pan (s : state) : panOffset (zoomIn s) = panOffset s.
Proof. unfold zoomIn. destruct (_ <? _)%Z; reflexivity. Qed.

Lemma zoomOut_pan (s : state) :
  panOffset (zoomOut s) = panOffset s \/ panOffset (zoomOut s) = 0.
Proof.
  unfold zoomOut. destruct (_ <? _)%Z; [|now left].
  destruct (le _ _); [now right | now left].
Qed.

Lemma amplitudeZoomIn_pan (s : state) : panOffset (amplitudeZoomIn s) = panOffset s.
Proof. unfold amplitudeZoomIn. destruct (_ <? _)%Z; reflexivity. Qed.

Lemma amplitudeZoomOut_pan (s : state) : panOffset (amplitudeZoomOut s) = panOffset s.
Proof. unfold amplitudeZoomOut. destruct (_ <? _)%Z; reflexivity. Qed.

Lemma step_pan_in_range (s : state) (e : event) :
  panInRange s -> panInRange (step s e).
Proof.
  intros Hs. destruct e as [| | |x|x|x| | |shift dy]; cbn [step].
  - unfold panInRange. now rewrite zoomIn_pan.
  - unfold panInRange. destruct (zoomOut_pan s) as [-> | ->];
      [exact Hs | split; discriminate].
  - unfold panInRange. cbn. split; discriminate.
  - unfold handleMouseDown. destruct (gt _ _); exact Hs.
  - unfold handleMouseMove. destruct (_ && _); [apply dragPan_in_range | exact Hs].
  - unfold handleGlobalMouseMove.
    destruct (isDragging s); [apply dragPan_in_range | exact Hs].
  - exact Hs.
  - unfold handleGlobalMouseUp. destruct (isDragging s); exact Hs.
  - unfold handleWheel, panInRange.
    destruct shift, (lt dy 0);
      rewrite ?amplitudeZoomIn_pan, ?amplitudeZoomOut_pan, ?zoomIn_pan;
      try exact Hs.
    destruct (zoomOut_pan s) as [-> | ->]; [exact Hs | split; discriminate].
Qed.

Lemma run_pan_in_range (events : list event) :
  forall s, panInRange s -> panInRange (run s events).
Proof.
  unfold run. induction events as [|e events IH]; intros s Hs; cbn [fold_left];
    [exact Hs | apply IH, step_pan_in_range, Hs].
Qed.

(** The pan offset of every reachable state is within [[0,100]]. *)
Lemma reachable_pan_in_range (s : state) : reachable s -> panInRange s.
Proof.
  intros [events ->]. apply run_pan_in_range. split; discriminate.
Qed.

(** C6, at the input where the code departs from it: a drag that is still
    in progress when the zoom steps back to 1x goes on panning through the
    document's mouse-move listener, which does not test the zoom level as
    the element's own handler does.  The state reached has zoom 1x and pan
    2.5: within [[0,100]], but not 0. *)
Theorem C6_pan_moves_at_unit_zoom :
  let s := run initial dragAcrossZoomOut in
  reachable s
  /\ zoomLevel s == 1 /\ isDragging s = true /\ panOffset s == 5 # 2
  /\ ~ (zoomLevel s <= 1 -> panOffset s == 0)
  /\ panOffset (run initial [ClickZoomIn; MouseDown 100; Wheel false 1;
                             MouseMove 90]) == 0.
Proof.
  cbv zeta. split; [now exists dragAcrossZoomOut|].
  vm_compute. repeat split; try discriminate.
  intros H. specialize (H ltac:(discriminate)). discriminate H.
Qed.

Ltac each_level H :=
  cbn [In levels] in H;
  repeat (destruct H as [H | H]; [symmetry in H|]); [..|contradiction].

Lemma zoomIn_rests (s : state) : panRests s -> panRests (zoomIn s).
Proof.
  destruct s as [z p a d x]. unfold panRests. cbn [zoomLevel panOffset].
  intros [Hin Hp]. each_level Hin; subst z; vm_compute zoomIn;
    cbn [zoomLevel panOffset];
    (split; [cbn; tauto | intros Hz; try (apply Hp; Lqa.lra); Lqa.lra]).
Qed.

Lemma zoomOut_rests (s : state) : panRests s -> panRests (zoomOut s).
Proof.
  destruct s as [z p a d x]. unfold panRests. cbn [zoomLevel panOffset].
  intros [Hin Hp]. each_level Hin; subst z; vm_compute zoomOut;
    cbn [zoomLevel panOffset];
    (split; [cbn; tauto | intros Hz; try reflexivity; try (apply Hp; Lqa.lra); Lqa.lra]).
Qed.

Lemma amplitudeZoomIn_zoom (s : state) :
  zoomLevel (amplitudeZoomIn s) = zoomLevel s.
Proof. unfold amplitudeZoomIn. destruct (_ <? _)%Z; reflexivity. Qed.

Lemma amplitudeZoomOut_zoom (s : state) :
  zoomLevel (amplitudeZoomOut s) = zoomLevel s.
Proof. unfold amplitudeZoomOut. destruct (_ <? _)%Z; reflexivity. Qed.

Lemma step_rests (s : state) (e : event) :
  noGlobalMove e -> panRests s -> panRests (step s e).
Proof.
  intros He Hs. destruct e as [| | |x|x|x| | |shift dy]; cbn [step].
  - apply zoomIn_rests, Hs.
  - apply zoomOut_rests, Hs.
  - unfold panRests. cbn. split; [tauto | reflexivity].
  - unfold handleMouseDown. destruct (gt _ _); exact Hs.
  - unfold handleMouseMove.
    destruct (isDragging s); cbn [andb]; [|exact Hs].
    destruct (gt (zoomLevel s) 1) eqn:Hz; [|exact Hs].
    apply gt_true in Hz. destruct Hs as [Hin _].
    unfold panRests, dragPan. cbn [zoomLevel panOffset].
    split; [exact Hin | intros Hle; exfalso; Lqa.lra].
  - destruct He.
  - exact Hs.
  - unfold handleGlobalMouseUp. destruct (isDragging s); exact Hs.
  - unfold handleWheel. destruct shift, (lt dy 0).
    + unfold panRests. now rewrite amplitudeZoomIn_zoom, amplitudeZoomIn_pan.
    + unfold panRests. now rewrite amplitudeZoomOut_zoom, amplitudeZoomOut_pan.
    + apply zoomIn_rests, Hs.
    + apply zoomOut_rests, Hs.
Qed.

(** Without the document's mouse-move listener the pan offset is 0
    whenever the zoom is at most 1x. *)
Lemma pan_rests_without_document_listener (events : list event) :
  Forall noGlobalMove events ->
  let s := run initial events in
  zoomLevel s <= 1 -> panOffset s == 0.
Proof.
  intros Hev. cbv zeta.
  assert (H : forall s, panRests s -> panRests (run s events)).
  { unfold run. induction Hev as [|e events He _ IH]; intros s Hs; cbn [fold_left];
      [exact Hs | apply IH, step_rests; assumption]. }
  apply H. unfold panRests. cbn. split; [tauto | reflexivity].
Qed.

End ScopeProps.

(** ** Performance warnings *)

Section PerfProps.
Import JS Quality Perf.
Local Open Scope Z_scope.

Lemma monitor_cons (perf : performance) (c : check) (rest : list check) :
  monitor perf (c :: rest)
  = (fst (monitor (perfAfter (performanceCheck true c perf)) rest),
     (c_now c, emitted (performanceCheck true c perf))
       :: snd (monitor (perfAfter (performanceCheck true c perf)) rest)).
Proof.
  cbn [monitor]. destruct (monitor _ rest). reflexivity.
Qed.

(** *** What a single call of checkPerformanceWarnings can emit *)

Lemma fpsWarnings_only_when (q : quality) (now : Z) (perf : performance)
    (w : PerformanceWarning) :
  In w (fpsWarnings q now perf) ->
  (wtype w = fps_critical /\ 3 <= criticalFpsCount perf
   /\ w = criticalWarning q now)
  \/ (wtype w = fps_low /\ criticalFpsCount perf < 3 /\ 5 <= lowFpsCount perf
      /\ (avgFps perf < 45)%Q).
Proof.
  unfold fpsWarnings.
  destruct (3 <=? criticalFpsCount perf) eqn:Hc.
  - intros [<- | []]. left. apply Z.leb_le in Hc. repeat split. exact Hc.
  - apply Z.leb_gt in Hc.
    destruct (5 <=? lowFpsCount perf) eqn:Hl; cbn [andb]; [|intros []].
    destruct (lt (avgFps perf) (inject_Z fps_warning_threshold)) eqn:Ha; [|intros []].
    intros [<- | []]. right. apply Z.leb_le in Hl. apply lt_true in Ha.
    repeat split; assumption.
Qed.

Lemma memoryWarnings_type (q : quality) (now : Z) (perf : performance)
    (w : PerformanceWarning) :
  In w (memoryWarnings q now perf) -> wtype w = memory_high.
Proof.
  unfold memoryWarnings. repeat destruct (gt _ _); cbn [In]; intros H;
    try (destruct H as [<- | []]; reflexivity); destruct H.
Qed.

Lemma cpuWarnings_type (q : quality) (now : Z) (perf : performance)
    (w : PerformanceWarning) :
  In w (cpuWarnings q now perf) -> wtype w = cpu_high.
Proof.
  unfold cpuWarnings. repeat destruct (gt _ _); cbn [In]; intros H;
    try (destruct H as [<- | []]; reflexivity); destruct H.
Qed.

Lemma emitted_cases (q : quality) (auto : bool) (now : Z) (perf : performance) :
  let r := checkPerformanceWarnings q auto now perf in
  (emitted r = [] /\ perfAfter r = perf)
  \/ (5000 <= now - lastWarningTime perf
      /\ emitted r <> []
      /\ emitted r = fpsWarnings q now perf ++ memoryWarnings q now perf
                     ++ cpuWarnings q now perf
      /\ perfAfter r = setLastWarningTime now perf).
Proof.
  cbv zeta. unfold checkPerformanceWarnings.
  destruct (now - lastWarningTime perf <? 5000) eqn:Hcool; [now left|].
  apply Z.ltb_ge in Hcool.
  destruct (fpsWarnings q now perf ++ memoryWarnings q now perf
            ++ cpuWarnings q now perf) as [|w ws] eqn:Hw; [now left|].
  cbn [length Nat.ltb Nat.leb emitted perfAfter]. right.
  repeat split; [exact Hcool | discriminate].
Qed.

Lemma frame_rate_warning_only_when
    (q : quality) (auto : bool) (now : Z) (perf : performance)
    (w : PerformanceWarning) :
  In w (emitted (checkPerformanceWarnings q auto now perf)) ->
  (wtype w = fps_critical ->
   3 <= criticalFpsCount perf /\ 5000 <= now - lastWarningTime perf)
  /\ (wtype w = fps_low ->
      5 <= lowFpsCount perf /\ (avgFps perf < 45)%Q
      /\ 5000 <= now - lastWarningTime perf).
Proof.
  intros Hin.
  destruct (emitted_cases q auto now perf) as [[E _] | (Hcool & _ & E & _)];
    rewrite E in Hin; [destruct Hin|].
  apply in_app_or in Hin. destruct Hin as [Hin | Hin].
  - apply fpsWarnings_only_when in Hin.
    destruct Hin as [(Ht & Hc & _) | (Ht & _ & Hl & Ha)]; rewrite Ht;
      split; intros Hty; try discriminate Hty; repeat split; assumption.
  - apply in_app_or in Hin. destruct Hin as [Hin | Hin];
      [apply memoryWarnings_type in Hin | apply cpuWarnings_type in Hin];
      rewrite Hin; split; discriminate.
Qed.

(** A downgrade is scheduled only by a check that emits a critical
    warning, and to the tier that warning suggests, which differs from the
    tier in force. *)
Lemma autoAdjust_only_after_critical
    (q : quality) (auto : bool) (now : Z) (perf : performance) (s : quality) :
  scheduled (checkPerformanceWarnings q auto now perf) = Some s ->
  auto = true /\ s <> q
  /\ exists w : PerformanceWarning,
       In w (emitted (checkPerformanceWarnings q auto now perf))
       /\ wseverity w = sev_critical /\ suggestedQuality w = Some s.
Proof.
  unfold checkPerformanceWarnings.
  destruct (now - lastWarningTime perf <? 5000); [discriminate|].
  set (warnings := fpsWarnings q now perf ++ _).
  destruct (0 <? length warnings)%nat; [|discriminate].
  cbn [scheduled emitted]. unfold autoAdjust.
  destruct auto; cbn [andb]; [|discriminate].
  destruct (existsb isCritical warnings); [|discriminate].
  destruct (find isCritical warnings) as [w|] eqn:Hfind; [|discriminate].
  apply find_some in Hfind. destruct Hfind as [Hin Hcrit].
  destruct (suggestedQuality w) as [s'|] eqn:Hs; [|discriminate].
  destruct (quality_eqb s' q) eqn:Heq; [discriminate|].
  intros E. injection E as <-.
  split; [reflexivity|]. split.
  - intros ->. destruct q; discriminate Heq.
  - exists w. repeat split; [exact Hin | | exact Hs].
    unfold isCritical in Hcrit. destruct (wseverity w); [discriminate | reflexivity].
Qed.

(** *** A trace that holds 20 frames per second *)

Lemma counts_at_20 (isPlaying : bool) (c : check) (perf : performance) :
  holds20 c ->
  let perf' := perfAfter (performanceCheck isPlaying c perf) in
  criticalFpsCount perf' = criticalFpsCount perf + 1
  /\ lowFpsCount perf' = lowFpsCount perf + 1.
Proof.
  intros H20. cbv zeta. unfold performanceCheck. unfold holds20 in H20.
  rewrite H20.
  set (perf2 := updatePerformanceMetrics _ _ _).
  assert (H2 : criticalFpsCount perf2 = criticalFpsCount perf + 1
               /\ lowFpsCount perf2 = lowFpsCount perf + 1) by (split; reflexivity).
  destruct isPlaying; [|exact H2].
  destruct (emitted_cases (c_quality c) (c_auto c) (c_now c) perf2)
    as [[_ ->] | (_ & _ & _ & ->)]; exact H2.
Qed.

Lemma critical_count_after (checks : list check) :
  forall perf : performance,
    Forall holds20 checks ->
    criticalFpsCount (fst (monitor perf checks))
    = criticalFpsCount perf + Z.of_nat (length checks).
Proof.
  induction checks as [|c rest IH]; intros perf Hall.
  - cbn. lia.
  - inversion Hall as [|c' rest' Hc Hrest]; subst.
    rewrite monitor_cons. cbn [fst]. rewrite IH by exact Hrest.
    destruct (counts_at_20 true c perf Hc) as [-> _].
    cbn [length]. lia.
Qed.

Lemma filter_fps_critical (q : quality) (now : Z) (perf : performance) :
  3 <= criticalFpsCount perf ->
  filter isFpsCritical (fpsWarnings q now perf ++ memoryWarnings q now perf
                        ++ cpuWarnings q now perf)
  = [criticalWarning q now]
  /\ filter isFpsLow (fpsWarnings q now perf ++ memoryWarnings q now perf
                      ++ cpuWarnings q now perf) = [].
Proof.
  intros Hc. apply Z.leb_le in Hc. unfold fpsWarnings. rewrite Hc.
  unfold memoryWarnings, cpuWarnings.
  repeat destruct (gt _ _); split; reflexivity.
Qed.

Lemma criticalSuggestion_lower (q : quality) :
  (rank (criticalSuggestion q) < rank q)%nat
  \/ (q = low /\ criticalSuggestion q = low).
Proof. destruct q; cbn; auto. Qed.

(** From the third check of a trace that holds 20 frames per second, a
    check within 5000 ms of the last emitted warning emits nothing, and any
    other check emits exactly one critical frame-rate warning.  The trace
    may start in any state of the monitor: its counters are never
    negative. *)
Lemma check_in_20fps_trace (start : performance) (before : list check) (c : check) :
  0 <= criticalFpsCount start ->
  Forall holds20 (before ++ [c]) -> (2 <= length before)%nat ->
  let perf := fst (monitor start before) in
  let r := performanceCheck true c perf in
  (c_now c - lastWarningTime perf < 5000 ->
   emitted r = [] /\ lastWarningTime (perfAfter r) = lastWarningTime perf)
  /\ (5000 <= c_now c - lastWarningTime perf ->
      filter isFpsCritical (emitted r) = [criticalWarning (c_quality c) (c_now c)]
      /\ filter isFpsLow (emitted r) = []
      /\ lastWarningTime (perfAfter r) = c_now c).
Proof.
  intros Hstart Hall Hlen. cbv zeta.
  apply Forall_app in Hall. destruct Hall as [Hbefore Hc].
  inversion Hc as [|c' l' H20 _]; subst.
  pose proof (critical_count_after before start Hbefore) as Hcount.
  set (perf := fst (monitor start before)) in *.
  unfold performanceCheck. unfold holds20 in H20. rewrite H20.
  set (perf2 := updatePerformanceMetrics _ _ _).
  assert (Hcrit : 3 <= criticalFpsCount perf2).
  { change (criticalFpsCount perf2) with (criticalFpsCount perf + 1). lia. }
  assert (Hlast : lastWarningTime perf2 = lastWarningTime perf) by reflexivity.
  clearbody perf2.
  destruct (filter_fps_critical (c_quality c) (c_now c) perf2 Hcrit) as [Fc Fl].
  unfold checkPerformanceWarnings. rewrite Hlast.
  destruct (c_now c - lastWarningTime perf <? 5000) eqn:Hcool.
  - apply Z.ltb_lt in Hcool. cbn [emitted perfAfter].
    split; [intros _; split; [reflexivity | exact Hlast] | intros; lia].
  - apply Z.ltb_ge in Hcool.
    destruct (fpsWarnings (c_quality c) (c_now c) perf2
              ++ memoryWarnings (c_quality c) (c_now c) perf2
              ++ cpuWarnings (c_quality c) (c_now c) perf2) as [|w ws] eqn:Hw;
      [discriminate Fc|].
    cbn [length Nat.ltb Nat.leb emitted perfAfter].
    split; [intros; lia | intros _; repeat split; assumption].
Qed.

(** *** The cooldown between emissions *)

Lemma last_warning_time (c : check) (perf : performance) :
  let r := performanceCheck true c perf in
  (emitted r = [] /\ lastWarningTime (perfAfter r) = lastWarningTime perf)
  \/ (emitted r <> [] /\ lastWarningTime (perfAfter r) = c_now c
      /\ 5000 <= c_now c - lastWarningTime perf).
Proof.
  cbv zeta. unfold performanceCheck.
  set (perf2 := updatePerformanceMetrics _ _ _).
  assert (Hlast : lastWarningTime perf2 = lastWarningTime perf) by reflexivity.
  destruct (emitted_cases (c_quality c) (c_auto c) (c_now c) perf2)
    as [[E ->] | (Hcool & Hne & _ & ->)].
  - left. split; [exact E | exact Hlast].
  - right. rewrite <- Hlast. repeat split; assumption.
Qed.

Lemma emissions_after_cooldown (checks : list check) :
  forall (perf : performance) (t : Z) (ws : list PerformanceWarning),
    In (t, ws) (snd (monitor perf checks)) -> ws <> [] ->
    5000 <= t - lastWarningTime perf.
Proof.
  induction checks as [|c rest IH]; intros perf t ws Hin Hne; [destruct Hin|].
  rewrite monitor_cons in Hin. cbn [snd In] in Hin.
  destruct (last_warning_time c perf) as [[E Hl] | (Hem & Hl & Hcool)].
  - destruct Hin as [Heq | Hin].
    + inversion Heq; subst. congruence.
    + rewrite <- Hl. apply (IH _ _ _ Hin Hne).
  - destruct Hin as [Heq | Hin].
    + inversion Heq; subst. exact Hcool.
    + specialize (IH _ _ _ Hin Hne). rewrite Hl in IH. lia.
Qed.

Lemma emissions_spaced (checks : list check) :
  forall (perf : performance) (log1 log2 : list (Z * list PerformanceWarning))
         (t1 t2 : Z) (ws1 ws2 : list PerformanceWarning),
    snd (monitor perf checks) = log1 ++ (t1, ws1) :: log2 ->
    In (t2, ws2) log2 -> ws1 <> [] -> ws2 <> [] ->
    5000 <= t2 - t1.
Proof.
  induction checks as [|c rest IH]; intros perf log1 log2 t1 t2 ws1 ws2 Hlog Hin H1 H2.
  - destruct log1; discriminate Hlog.
  - rewrite monitor_cons in Hlog. cbn [snd] in Hlog.
    pose proof (last_warning_time c perf) as Hlast. cbv zeta in Hlast.
    set (r := performanceCheck true c perf) in *. clearbody r.
    destruct log1 as [|e log1]; cbn [app] in Hlog.
    + injection Hlog as Ht Hw Hrest. subst log2.
      pose proof (emissions_after_cooldown rest _ _ _ Hin H2) as Hcool.
      destruct Hlast as [[E _] | (_ & Hl & _)].
      * exfalso. apply H1. rewrite <- Hw. exact E.
      * rewrite Hl in Hcool. lia.
    + injection Hlog as He Hrest.
      apply (IH _ _ _ _ _ _ _ Hrest Hin H1 H2).
Qed.

End PerfProps.

Section PerfExamples.
Import Quality Perf.
Local Open Scope Z_scope.

Lemma mediumTrace_holds20 : Forall holds20 mediumTrace.
Proof. repeat constructor. Qed.

(** The third check emits the critical warning, suggesting "low"; the
    fourth, one second later, is silent; the fifth, five seconds after the
    third, emits again. *)
Lemma mediumTrace_log :
  snd (monitor initial mediumTrace)
  = [ (1000000, []); (1001000, []);
      (1002000, [criticalWarning medium 1002000]);
      (1003000, []);
      (1007000, [criticalWarning medium 1007000]) ].
Proof. vm_compute. reflexivity. Qed.

(** On "ultra" the first check at 20 frames per second already emits CPU
    and memory warnings, so that the critical frame-rate warning waits for
    the cooldown they start: it comes with the check at 5000 ms. *)
Lemma ultraTrace_log :
  map (fun e => (fst e, map wtype (snd e)))
      (snd (monitor initial
              (map (checkAt ultra 10)
                   [1000000; 1000500; 1001000; 1001500; 1005000])))
  = [ (1000000, [memory_high; cpu_high]); (1000500, []); (1001000, []);
      (1001500, []); (1005000, [fps_critical; memory_high; cpu_high]) ].
Proof. vm_compute. reflexivity. Qed.

(** At 40 frames per second on "high" no check is critical; the fifth
    check emits the sustained-low warning, suggesting "medium". *)
Lemma highTrace_log :
  map (fun e => (fst e, map (fun w => (wtype w, suggestedQuality w)) (snd e)))
      (snd (monitor initial
              (map (checkAt high 40)
                   [1000000; 1001000; 1002000; 1003000; 1004000; 1005000])))
  = [ (1000000, []); (1001000, []); (1002000, []); (1003000, []);
      (1004000, [(fps_low, Some medium)]); (1005000, []) ].
Proof. vm_compute. reflexivity. Qed.

End PerfExamples.

(** ** The spectrum column map *)

Section SpectrumProps.
Import Spectrum.
Local Open Scope R_scope.

(** *** Rounding and the frequency scale *)

Lemma Int_part_monotone (x y : R) : x <= y -> (Int_part x <= Int_part y)%Z.
Proof.
  intros Hxy.
  destruct (base_Int_part x) as [Hx _]. destruct (base_Int_part y) as [_ Hy].
  assert (H : IZR (Int_part x) < IZR (Int_part y + 1)).
  { rewrite plus_IZR. Lra.lra. }
  apply lt_IZR in H. lia.
Qed.

Lemma Math_round_monotone (x y : R) : x <= y -> (Math_round x <= Math_round y)%Z.
Proof. intros H. apply Int_part_monotone. Lra.lra. Qed.

Lemma Math_round_between (x : R) (z : Z) :
  IZR z - / 2 <= x < IZR z + / 2 -> Math_round x = z.
Proof.
  intros [Hlo Hhi]. unfold Math_round. symmetry. apply Int_part_spec. Lra.lra.
Qed.

Lemma Math_round_at_least (x : R) (z : Z) :
  IZR z - / 2 <= x -> (z <= Math_round x)%Z.
Proof.
  intros H.
  assert (E : z = Int_part (IZR z)) by (apply Int_part_spec; Lra.lra).
  rewrite E at 1. unfold Math_round. apply Int_part_monotone. Lra.lra.
Qed.

Lemma ln_10_positive : 0 < ln 10.
Proof. rewrite <- ln_1. apply ln_increasing; Lra.lra. Qed.

Lemma pow_log10 (x : R) : 0 < x -> Math_pow 10 (Math_log10 x) = x.
Proof.
  intros Hx. unfold Math_pow, Math_log10, Rpower.
  replace (ln x / ln 10 * ln 10) with (ln x).
  - apply exp_ln, Hx.
  - field. pose proof ln_10_positive. Lra.lra.
Qed.

Lemma log10_monotone (x y : R) : 0 < x -> x <= y -> Math_log10 x <= Math_log10 y.
Proof.
  intros Hx Hxy. unfold Math_log10.
  assert (ln x <= ln y).
  { destruct Hxy as [Hlt | ->]; [left; apply ln_increasing; assumption | right; reflexivity]. }
  apply Rmult_le_compat_r; [|assumption].
  left. apply Rinv_0_lt_compat, ln_10_positive.
Qed.

Lemma logIndex_unfold (n i : nat) :
  logIndex n i
  = Z.min (availableBins n - 1)
      (Z.max 0 (Math_round ((columnFrequency i / (SAMPLE_RATE / 2))
                            * IZR (availableBins n)))).
Proof. reflexivity. Qed.

Lemma INR_139 : INR (VIZ_COLS - 1) = 139.
Proof.
  change (VIZ_COLS - 1)%nat with 139%nat. rewrite INR_IZR_INZ. reflexivity.
Qed.

Lemma columnFrequency_first : columnFrequency 0 = 20.
Proof.
  unfold columnFrequency. cbv zeta. rewrite INR_139. cbn [INR].
  replace (Math_log10 MIN_FREQ + _ * 0 / 139) with (Math_log10 MIN_FREQ)
    by (unfold Rdiv; ring).
  unfold MIN_FREQ. apply pow_log10. Lra.lra.
Qed.

Lemma columnFrequency_last : columnFrequency 139 = 22000.
Proof.
  unfold columnFrequency. cbv zeta. rewrite INR_139.
  replace (INR 139) with 139 by (rewrite INR_IZR_INZ; reflexivity).
  replace (Math_log10 MIN_FREQ + (Math_log10 MAX_FREQ - Math_log10 MIN_FREQ) * 139 / 139)
    with (Math_log10 MAX_FREQ) by (field).
  unfold MAX_FREQ. apply pow_log10. Lra.lra.
Qed.

Lemma columnFrequency_monotone (i j : nat) :
  (i <= j)%nat -> columnFrequency i <= columnFrequency j.
Proof.
  intros Hij. unfold columnFrequency, Math_pow. cbv zeta. rewrite INR_139.
  apply Rle_Rpower; [Lra.lra|].
  assert (Hr : 0 <= Math_log10 MAX_FREQ - Math_log10 MIN_FREQ).
  { pose proof (log10_monotone MIN_FREQ MAX_FREQ) as H.
    unfold MIN_FREQ, MAX_FREQ in *. Lra.lra. }
  assert (Hi : INR i <= INR j) by (apply le_INR, Hij).
  set (r := Math_log10 MAX_FREQ - Math_log10 MIN_FREQ) in *. clearbody r.
  assert (r * INR i <= r * INR j) by (apply Rmult_le_compat_l; assumption).
  unfold Rdiv. Lra.lra.
Qed.

Lemma columnFrequency_positive (i : nat) : 0 < columnFrequency i.
Proof. unfold columnFrequency, Math_pow, Rpower. apply exp_pos. Qed.

Lemma availableBins_positive (n : nat) : (1 <= availableBins n)%Z.
Proof. unfold availableBins. lia. Qed.

(** *** The map is non-decreasing and stays inside the buffer *)

Lemma logIndex_monotone (n i j : nat) :
  (i <= j)%nat -> (logIndex n i <= logIndex n j)%Z.
Proof.
  intros Hij. rewrite !logIndex_unfold.
  pose proof (availableBins_positive n) as Hb.
  assert (Hbr : 0 < IZR (availableBins n)) by (apply IZR_lt; lia).
  pose proof (columnFrequency_monotone i j Hij) as Hf.
  assert (Hm : (Math_round (columnFrequency i / (SAMPLE_RATE / 2) * IZR (availableBins n))
                <= Math_round (columnFrequency j / (SAMPLE_RATE / 2) * IZR (availableBins n)))%Z).
  { apply Math_round_monotone. apply Rmult_le_compat_r; [Lra.lra|].
    unfold SAMPLE_RATE, Rdiv. Lra.lra. }
  lia.
Qed.

Lemma logIndex_range (n i : nat) :
  (0 <= logIndex n i <= availableBins n - 1)%Z.
Proof.
  rewrite logIndex_unfold. pose proof (availableBins_positive n). lia.
Qed.

Lemma startIndex_logIndex (n i : nat) :
  (i < VIZ_COLS)%nat -> startIndex n i = logIndex n i.
Proof.
  intros Hi. unfold startIndex, logIndexMap.
  rewrite (nth_indep _ 0%Z (logIndex n 0)) by (now rewrite length_map, length_seq).
  rewrite map_nth, seq_nth by exact Hi. reflexivity.
Qed.

Lemma endIndex_inner (n i : nat) :
  (i + 1 < VIZ_COLS)%nat -> endIndex n i = logIndex n (i + 1).
Proof.
  intros Hi. unfold endIndex.
  assert (E : (i <? VIZ_COLS - 1)%nat = true) by (apply Nat.ltb_lt; lia).
  rewrite E. apply (startIndex_logIndex n (i + 1)). exact Hi.
Qed.

Lemma endIndex_last (n : nat) :
  endIndex n 139 = Z.min (logIndex n 139 + 1) (Z.of_nat n).
Proof.
  unfold endIndex. change (139 <? VIZ_COLS - 1)%nat with false.
  cbv iota. rewrite startIndex_logIndex; [reflexivity | unfold VIZ_COLS; lia].
Qed.

End SpectrumProps.

Section SpectrumCover.
Import Spectrum.
Local Open Scope Z_scope.

(** *** The ends of the map *)

Lemma availableBins_of_non_empty (n : nat) :
  (1 <= n)%nat -> availableBins n = Z.of_nat n.
Proof. unfold availableBins. lia. Qed.

Lemma logIndex_first (n : nat) :
  (1 <= n <= 551)%nat -> logIndex n 0 = 0.
Proof.
  intros Hn. rewrite logIndex_unfold, columnFrequency_first.
  rewrite availableBins_of_non_empty by lia.
  assert (H1 : (1 <= IZR (Z.of_nat n))%R) by (apply IZR_le; lia).
  assert (H2 : (IZR (Z.of_nat n) <= 551)%R) by (apply IZR_le; lia).
  rewrite (Math_round_between _ 0); [lia|].
  unfold SAMPLE_RATE. set (N := IZR (Z.of_nat n)) in *. clearbody N.
  split; Lra.lra.
Qed.

Lemma logIndex_last (n : nat) :
  (1 <= n <= 661)%nat -> logIndex n 139 = Z.of_nat n - 1.
Proof.
  intros Hn. rewrite logIndex_unfold, columnFrequency_last.
  rewrite availableBins_of_non_empty by lia.
  assert (H1 : (1 <= IZR (Z.of_nat n))%R) by (apply IZR_le; lia).
  assert (H2 : (IZR (Z.of_nat n) <= 661)%R) by (apply IZR_le; lia).
  assert (H : Z.of_nat n - 1
              <= Math_round (22000 / (SAMPLE_RATE / 2) * IZR (Z.of_nat n))).
  { apply Math_round_at_least. rewrite minus_IZR.
    unfold SAMPLE_RATE. set (N := IZR (Z.of_nat n)) in *. clearbody N.
    Lra.lra. }
  lia.
Qed.

(** With 1024 bins the first column starts at bin 1 and the last one at
    bin 1022. *)
Lemma logIndex_first_1024 : logIndex 1024 0 = 1.
Proof.
  rewrite logIndex_unfold, columnFrequency_first.
  change (availableBins 1024) with 1024.
  rewrite (Math_round_between _ 1); [reflexivity|].
  unfold SAMPLE_RATE. split; Lra.lra.
Qed.

Lemma logIndex_last_1024 : logIndex 1024 139 = 1022.
Proof.
  rewrite logIndex_unfold, columnFrequency_last.
  change (availableBins 1024) with 1024.
  rewrite (Math_round_between _ 1022); [reflexivity|].
  unfold SAMPLE_RATE. split; Lra.lra.
Qed.

(** *** Windows of a non-decreasing map *)

Lemma crossing (f : nat -> Z) (j : Z) (k : nat) :
  f 0%nat <= j < f k ->
  exists i : nat, (i < k)%nat /\ f i <= j < f (i + 1)%nat.
Proof.
  induction k as [|k IH]; intros [Hlo Hhi]; [lia|].
  destruct (Z_lt_le_dec j (f k)) as [Hlt | Hge].
  - destruct (IH (conj Hlo Hlt)) as [i [Hi Hw]]. exists i. split; [lia | exact Hw].
  - exists k. replace (k + 1)%nat with (S k) by lia. split; [lia | lia].
Qed.

Lemma windows_contiguous (n : nat) : contiguous n.
Proof.
  intros i Hi. rewrite endIndex_inner by exact Hi.
  rewrite !startIndex_logIndex by lia.
  split; [reflexivity | apply logIndex_monotone; lia].
Qed.

Lemma window_inner (n i : nat) (j : Z) :
  (i + 1 < VIZ_COLS)%nat ->
  inWindow n i j <-> logIndex n i <= j < logIndex n (i + 1).
Proof.
  intros Hi. unfold inWindow.
  rewrite endIndex_inner by exact Hi. rewrite startIndex_logIndex by lia.
  reflexivity.
Qed.

Lemma window_last (n : nat) (j : Z) :
  inWindow n 139 j
  <-> logIndex n 139 <= j < Z.min (logIndex n 139 + 1) (Z.of_nat n).
Proof.
  unfold inWindow. rewrite endIndex_last.
  rewrite startIndex_logIndex by (unfold VIZ_COLS; lia).
  reflexivity.
Qed.

Lemma earlier_window_ends_before (n i i' : nat) (j : Z) :
  (i < i')%nat -> (i' < VIZ_COLS)%nat ->
  inWindow n i j -> inWindow n i' j -> False.
Proof.
  intros Hlt Hi' Hw Hw'.
  apply window_inner in Hw; [|unfold VIZ_COLS in *; lia].
  assert (Hs : logIndex n i' <= j).
  { unfold inWindow in Hw'. rewrite startIndex_logIndex in Hw' by exact Hi'. lia. }
  pose proof (logIndex_monotone n (i + 1) i' ltac:(lia)). lia.
Qed.

Lemma windows_non_overlapping (n : nat) : nonOverlapping n.
Proof.
  intros i i' j Hi Hi' Hw Hw'.
  destruct (Nat.lt_trichotomy i i') as [Hlt | [Heq | Hgt]]; [|exact Heq|].
  - destruct (earlier_window_ends_before n i i' j Hlt Hi' Hw Hw').
  - destruct (earlier_window_ends_before n i' i j Hgt Hi Hw' Hw).
Qed.

Lemma windows_cover (n : nat) : (1 <= n <= 551)%nat -> coversOnce n.
Proof.
  intros Hn j Hj.
  pose proof (logIndex_first n Hn) as Hfirst.
  pose proof (logIndex_last n ltac:(lia)) as Hlast.
  assert (Hex : exists i : nat, (i < VIZ_COLS)%nat /\ inWindow n i j).
  { destruct (Z_lt_le_dec j (Z.of_nat n - 1)) as [Hlt | Hge].
    - destruct (crossing (logIndex n) j 139) as [i [Hi Hw]]; [lia|].
      exists i. split; [unfold VIZ_COLS; lia|].
      apply window_inner; [unfold VIZ_COLS; lia | exact Hw].
    - exists 139%nat. split; [unfold VIZ_COLS; lia|].
      apply window_last. lia. }
  destruct Hex as [i [Hi Hw]]. exists i. split; [exact Hi|]. split; [exact Hw|].
  intros i' Hi' Hw'. apply (windows_non_overlapping n i' i j); assumption.
Qed.

(** C8, as stated, fails: with 1024 bins, bin 0 is summed for no column
    (the first column starts at bin 1). *)
Lemma C8_bin_0_of_1024_uncovered :
  ~ (forall n : nat, (1 <= n)%nat -> contiguous n /\ coversOnce n).
Proof.
  intros H. destruct (H 1024%nat ltac:(lia)) as [_ Hc].
  destruct (Hc 0 ltac:(lia)) as [i [Hi [[Hs _] _]]].
  rewrite startIndex_logIndex in Hs by exact Hi.
  pose proof (logIndex_monotone 1024 0 i ltac:(lia)) as Hm.
  rewrite logIndex_first_1024 in Hm. lia.
Qed.

(** C8, amended.  For every frequency-buffer length of at least 1 the
    column windows are contiguous (each ends where the next starts, and
    none runs backwards) and non-overlapping; for every length from 1 to
    551, which includes every buffer size the player configures, they
    cover the whole bin range exactly once. *)
Theorem C8_windows_tile_the_bins :
  forall n : nat, (1 <= n)%nat ->
    contiguous n /\ nonOverlapping n /\ ((n <= 551)%nat -> coversOnce n).
Proof.
  intros n Hn. split; [apply windows_contiguous|].
  split; [apply windows_non_overlapping|].
  intros Hle. apply windows_cover. lia.
Qed.

(** The buffer sizes the player configures: the first column starts at
    bin 0 and the last one at the last bin. *)
Lemma player_sizes_covered :
  Forall (fun n => logIndex n 0 = 0 /\ logIndex n 139 = Z.of_nat n - 1
                   /\ coversOnce n)
         [32; 64; 128; 256]%nat.
Proof.
  repeat constructor;
    first [ apply logIndex_first; lia | apply logIndex_last; lia
          | apply windows_cover; lia ].
Qed.

Lemma C8_windows_witness :
  contiguous 64 /\ nonOverlapping 64 /\ coversOnce 64.
Proof.
  destruct (C8_windows_tile_the_bins 64 ltac:(lia)) as (Hc & Hn & Hcov).
  split; [exact Hc|]. split; [exact Hn|]. apply Hcov. lia.
Defined.

End SpectrumCover.

(** ** The definitions on small inputs *)

Section Examples.
Import JS Quality.
Local Open Scope Q_scope.

(** The sampling loop reads positions 0, 4 and 8 of a ten-sample buffer. *)
Example sampled_every_fourth :
  Signal.sampled 4 0 [x00; x01; x02; x03; x04; x05; x06; x07; x08; x09]
  = [x00; x04; x08].
Proof. reflexivity. Qed.

(** The peak of samples 128, 192 and 0 read at stride 1 is 100 (the full
    negative swing), and at stride 4 only the first is read. *)
Example calculatePeak_values :
  Signal.calculatePeak [x80; xc0; x00] 1 == 100
  /\ Signal.calculatePeak [x80; xc0; x00] 4 == 0
  /\ Signal.calculatePeak [xc0] 4 == 50.
Proof. vm_compute. repeat split. Qed.

(** The two halves of a four-sample buffer. *)
Example channel_split :
  Signal.leftSamples [x01; x02; x03; x04] = [x01; x02]
  /\ Signal.rightSamples [x01; x02; x03; x04] = [x03; x04].
Proof. split; reflexivity. Qed.

(** Bars of a 32-bin buffer on "low": 12 bars read every second bin; a
    silent bin gives 5, a full one 80, and 128 gives 2048/51. *)
Example waveform_bars :
  let frequencyData := [xff; x00; x00; x00; x80] ++ repeat x00 27 in
  Forall2 Qeq (Waveform.updateWaveform frequencyData low [])
              ([80; 5; 2048 # 51] ++ repeat 5 9).
Proof. vm_compute. repeat constructor. Qed.

(** Two ticks of the meters: a step to 100, then silence. *)
Example meter_ticks :
  let s1 := Meter.afterStep 100 in
  let s2 := Meter.updateMeters 0 0 0 0 0 [] s1 in
  Meter.vuLeft s2 == 27 /\ Meter.ppmLeft s2 == 19
  /\ Meter.vuPeakLeft s1 == 100 /\ Meter.vuPeakLeft s2 == 98
  /\ Meter.ppmPeakLeft s2 == 99.
Proof. vm_compute. repeat split. Qed.

(** The measured frame rate and the estimates on "medium" while playing
    at 20 frames per second. *)
Example monitor_estimates :
  Perf.measureFps medium 20 = 20%Z
  /\ Perf.measureFps ultra 10 = 20%Z
  /\ Perf.measureFps low 40 = 20%Z
  /\ Perf.memoryEstimate medium true == 45
  /\ Perf.cpuEstimate medium true 20 == 160 # 3
  /\ Perf.cpuEstimate ultra true 20 == 260 # 3.
Proof. vm_compute. repeat split. Qed.

(** Stepping the zoom: up from 1x to 2x, down from 1x to 0.75x, and no
    further than 16x or 0.0005x. *)
Example zoom_steps :
  Scope.zoomLevel (Scope.zoomIn Scope.initial) = 2
  /\ Scope.zoomLevel (Scope.zoomOut Scope.initial) = 3 # 4
  /\ Scope.zoomLevel (Scope.run Scope.initial (repeat Scope.ClickZoomIn 9)) = 16
  /\ Scope.zoomLevel (Scope.run Scope.initial (repeat Scope.ClickZoomOut 9))
     = 5 # 10000.
Proof. vm_compute. repeat split. Qed.

(** A drag at 4x: 10 pixels to the left pan by 10, and a long drag stops
    at 100. *)
Example drag_pans :
  let held := Scope.run Scope.initial
                [Scope.ClickZoomIn; Scope.ClickZoomIn; Scope.MouseDown 200] in
  Scope.panOffset (Scope.step held (Scope.MouseMove 190)) == 10
  /\ Scope.panOffset (Scope.step held (Scope.MouseMove 0)) == 100
  /\ Scope.panOffset (Scope.step held (Scope.MouseMove 300)) == 0.
Proof. vm_compute. repeat split. Qed.

End Examples.

(** * Further properties of the analysis code *)

(** ** Reads of sample buffers *)

Section BufferReads.
Import JS Signal MeterBlock.
Local Open Scope Q_scope.

Lemma index_defined (arr : list byte) (i : Z) :
  (0 <= i < Z.of_nat (length arr))%Z -> exists b, index arr i = Some b.
Proof.
  intros Hi. unfold index.
  destruct (i <? 0)%Z eqn:Hneg; [apply Z.ltb_lt in Hneg; lia|].
  destruct (nth_error arr (Z.to_nat i)) as [b|] eqn:Hnth; [now exists b|].
  apply nth_error_None in Hnth. lia.
Qed.

Lemma index_undefined (arr : list byte) (i : Z) :
  (i < 0)%Z -> index arr i = None.
Proof.
  intros Hi. unfold index. apply Z.ltb_lt in Hi. now rewrite Hi.
Qed.

Lemma sampleAt_defined (arr : list byte) (idx : Z) :
  (0 <= idx < Z.of_nat (length arr))%Z ->
  exists q, sampleAt arr idx = Some q /\ -1 <= q <= 1.
Proof.
  intros Hi. unfold sampleAt. destruct (index_defined arr idx Hi) as [b ->].
  exists (normalize b). split; [reflexivity|].
  pose proof (normalize_range b). Lqa.lra.
Qed.

Lemma floor_of_quotient (a b : Z) :
  Math_floor (inject_Z a / inject_Z b) = (a / b)%Z.
Proof. unfold Math_floor. symmetry. apply Zdiv_Qdiv. Qed.

Lemma leftSamples_length (audioData : list byte) :
  length (leftSamples audioData) = halfLength audioData.
Proof.
  unfold leftSamples, subarray, halfLength. cbn [skipn].
  rewrite Nat.sub_0_r, length_firstn.
  assert (length audioData / 2 <= length audioData)%nat
    by (apply Nat.Div0.div_le_upper_bound; lia).
  lia.
Qed.

Lemma rightSamples_length (audioData : list byte) :
  length (rightSamples audioData)
  = (length audioData - halfLength audioData)%nat.
Proof.
  unfold rightSamples, subarray, halfLength.
  rewrite length_firstn, length_skipn. lia.
Qed.

Lemma halfLength_bounds (audioData : list byte) :
  (2 * halfLength audioData <= length audioData)%nat
  /\ (2 <= length audioData -> 1 <= halfLength audioData)%nat.
Proof.
  unfold halfLength.
  pose proof (Nat.div_mod_eq (length audioData) 2) as H.
  pose proof (Nat.mod_upper_bound (length audioData) 2 ltac:(lia)).
  split; [lia|]. intros. lia.
Qed.

End BufferReads.

(** ** Correlation and phase points *)

Section CorrelationProps.
Import JS Signal MeterBlock.
Local Open Scope Q_scope.

Lemma product_within_unit (l r : Q) :
  -1 <= l <= 1 -> -1 <= r <= 1 -> -1 <= l * r <= 1.
Proof. intros Hl Hr. split; Lqa.nra. Qed.

Lemma scaled_index_in_half (i half n : Z) :
  (1 <= n)%Z -> (0 <= i < n)%Z -> (1 <= half)%Z ->
  (0 <= i * half / n < half)%Z.
Proof.
  intros Hn Hi Hh. split.
  - apply Z.div_pos; nia.
  - apply Z.div_lt_upper_bound; nia.
Qed.

Lemma correlation_loop (left right : list byte) (half : Z) (l : list nat) :
  (1 <= half)%Z ->
  (half <= Z.of_nat (length left))%Z -> (half <= Z.of_nat (length right))%Z ->
  Forall (fun i => (Z.of_nat i < corrSamples half)%Z) l ->
  forall c : Q, exists c' : Q,
    fold_left (correlationStep left right half) l (Some c) = Some c'
    /\ c - inject_Z (Z.of_nat (length l)) <= c'
       <= c + inject_Z (Z.of_nat (length l)).
Proof.
  intros Hh Hl Hr. induction 1 as [|i l Hi _ IH]; intros c.
  - exists c. split; [reflexivity|]. cbn [length].
    change (inject_Z (Z.of_nat 0)) with 0. Lqa.lra.
  - cbn [fold_left]. unfold correlationStep at 2.
    rewrite floor_of_quotient.
    assert (Hn : (1 <= corrSamples half)%Z) by (unfold corrSamples; lia).
    pose proof (scaled_index_in_half (Z.of_nat i) half (corrSamples half)
                  Hn ltac:(lia) Hh) as Hidx.
    destruct (sampleAt_defined left (Z.of_nat i * half / corrSamples half)%Z)
      as [x [-> Hx]]; [lia|].
    destruct (sampleAt_defined right (Z.of_nat i * half / corrSamples half)%Z)
      as [y [-> Hy]]; [lia|].
    destruct (IH (c + x * y)) as [c' [-> Hc']].
    exists c'. split; [reflexivity|].
    pose proof (product_within_unit x y Hx Hy) as Hxy.
    cbn [length]. rewrite Nat2Z.inj_succ. unfold Z.succ. rewrite inject_Z_plus.
    change (inject_Z 1) with 1. Lqa.lra.
Qed.

(** X1. From two samples on, the meter block reads inside both halves: the
    correlation is a number within [[-1,1]] and so are the coordinates of
    the eight phase points. *)
Theorem correlation_and_phase_points_within_unit :
  forall audioData : list byte,
    (2 <= length audioData)%nat ->
    numberWithin (-1) 1 (correlationOf audioData)
    /\ length (phasePointsOf audioData) = 8%nat
    /\ Forall (fun p => numberWithin (-1) 1 (fst p) /\ numberWithin (-1) 1 (snd p))
              (phasePointsOf audioData).
Proof.
  intros audioData Hlen.
  destruct (halfLength_bounds audioData) as [Hhalf2 Hhalf1].
  specialize (Hhalf1 Hlen).
  pose proof (leftSamples_length audioData) as HL.
  pose proof (rightSamples_length audioData) as HR.
  set (half := Z.of_nat (halfLength audioData)).
  assert (Hh : (1 <= half)%Z) by (subst half; lia).
  assert (HhL : (half <= Z.of_nat (length (leftSamples audioData)))%Z)
    by (subst half; lia).
  assert (HhR : (half <= Z.of_nat (length (rightSamples audioData)))%Z)
    by (subst half; lia).
  split; [|split].
  - unfold correlationOf. fold half.
    assert (Hn : (1 <= corrSamples half)%Z) by (unfold corrSamples; lia).
    destruct (correlation_loop (leftSamples audioData) (rightSamples audioData)
                half (seq 0 (Z.to_nat (corrSamples half))) Hh HhL HhR) with (c := 0)
      as [c [-> Hc]].
    { apply Forall_forall. intros i Hi. apply in_seq in Hi. lia. }
    rewrite length_seq, Z2Nat.id in Hc by lia.
    destruct (corrSamples half =? 0)%Z eqn:E; [apply Z.eqb_eq in E; lia|].
    cbn [numberWithin].
    assert (Hpos : 0 < inject_Z (corrSamples half)).
    { change 0 with (inject_Z 0). rewrite <- Zlt_Qlt. lia. }
    split.
    + apply Qle_shift_div_l; [exact Hpos | Lqa.lra].
    + apply Qle_shift_div_r; [exact Hpos | Lqa.lra].
  - unfold phasePointsOf. now rewrite length_map, length_seq.
  - unfold phasePointsOf. fold half. apply Forall_forall. intros p Hp.
    apply in_map_iff in Hp. destruct Hp as [i [<- Hi]]. apply in_seq in Hi.
    cbn [fst snd]. change 8 with (inject_Z 8). rewrite floor_of_quotient.
    pose proof (scaled_index_in_half (Z.of_nat i) half 8
                  ltac:(lia) ltac:(lia) Hh) as Hidx.
    destruct (sampleAt_defined (leftSamples audioData) (Z.of_nat i * half / 8)%Z)
      as [x [-> Hx]]; [lia|].
    destruct (sampleAt_defined (rightSamples audioData) (Z.of_nat i * half / 8)%Z)
      as [y [-> Hy]]; [lia|].
    cbn [numberWithin]. split; assumption.
Qed.

Lemma correlation_and_phase_points_witness :
  numberWithin (-1) 1 (correlationOf [x00; xff; xff; x00])
  /\ length (phasePointsOf [x00; xff; xff; x00]) = 8%nat
  /\ Forall (fun p => numberWithin (-1) 1 (fst p) /\ numberWithin (-1) 1 (snd p))
            (phasePointsOf [x00; xff; xff; x00]).
Proof.
  apply (correlation_and_phase_points_within_unit [x00; xff; xff; x00]).
  cbn. lia.
Defined.

(** Two channels in opposite phase correlate negatively, identical ones
    positively; a single sample leaves the left half of the block without
    a sample to read. *)
Example correlation_values :
  numberWithin (-(127 # 128)) (-(127 # 128)) (correlationOf [x00; xff; xff; x00])
  /\ numberWithin (32513 # 32768) (32513 # 32768)
                  (correlationOf [x00; xff; x00; xff])
  /\ correlationOf [x80] = None
  /\ fst (hd (None, None) (phasePointsOf [x80])) = None.
Proof. vm_compute. repeat split; discriminate. Qed.

End CorrelationProps.

(** ** The oscilloscope display buffer *)

Section ScopeDataProps.
Import JS MeterBlock ScopeData.
Local Open Scope Q_scope.

Lemma clampUnit_range (x : Q) : -1 <= clampUnit x <= 1.
Proof. unfold clampUnit. clamp_cases. Lqa.lra. Qed.

Lemma effectiveZoom_at_least_1 (zoomLevel : Q) :
  0 < zoomLevel -> 1 <= effectiveZoom zoomLevel.
Proof.
  intros Hz. unfold effectiveZoom.
  destruct (le 1 zoomLevel) eqn:Hle.
  - apply le_true. exact Hle.
  - assert (Hlt : zoomLevel < 1).
    { apply Qnot_le_lt. intros H. apply le_true in H. congruence. }
    apply Qle_shift_div_l; [exact Hz | Lqa.lra].
Qed.

Lemma floor_non_negative (x : Q) : 0 <= x -> (0 <= Math_floor x)%Z.
Proof.
  intros Hx. unfold Math_floor.
  change 0%Z with (Qfloor 0). apply Qfloor_resp_le, Hx.
Qed.

Lemma floor_at_most (x : Q) (n : Z) : x <= inject_Z n -> (Math_floor x <= n)%Z.
Proof.
  intros Hx. unfold Math_floor.
  rewrite <- (Qfloor_Z n). apply Qfloor_resp_le, Hx.
Qed.

Lemma floor_at_least (x : Q) (n : Z) : inject_Z n <= x -> (n <= Math_floor x)%Z.
Proof.
  intros Hx. unfold Math_floor.
  rewrite <- (Qfloor_Z n) at 1. apply Qfloor_resp_le, Hx.
Qed.

Lemma floor_monotone (x y : Q) : x <= y -> (Math_floor x <= Math_floor y)%Z.
Proof. apply Qfloor_resp_le. Qed.

Lemma floor_below (x : Q) : inject_Z (Math_floor x) <= x.
Proof. apply Qfloor_le. Qed.

Lemma inject_Z_non_negative (n : Z) : (0 <= n)%Z -> 0 <= inject_Z n.
Proof. intros H. change 0 with (inject_Z 0). now rewrite <- Zle_Qle. Qed.

(** *** Frequency mode *)

Lemma freqPoint_displayable (frequencyData : list byte)
    (zoomLevel panOffset amplitudeZoom : Q) (i : nat) :
  numberWithin (-1) 1 (freqPoint frequencyData zoomLevel panOffset amplitudeZoom i).
Proof.
  unfold freqPoint.
  set (start := startBin frequencyData zoomLevel panOffset).
  set (stop := endBin frequencyData zoomLevel panOffset).
  set (step := Z.max 1 _).
  assert (Hstart : (0 <= start)%Z) by (subst start; unfold startBin; lia).
  assert (Hstep : (1 <= step)%Z) by (subst step; lia).
  destruct ((start + Z.of_nat i * step <? stop)%Z
            && (start + Z.of_nat i * step <? Z.of_nat (length frequencyData))%Z)
    eqn:Hin.
  - apply andb_true_iff in Hin. destruct Hin as [_ Hlen]. apply Z.ltb_lt in Hlen.
    destruct (index_defined frequencyData (start + Z.of_nat i * step)%Z) as [b ->];
      [nia|].
    cbn [numberWithin]. apply clampUnit_range.
  - cbn [numberWithin]. split; discriminate.
Qed.

(** X2. In frequency mode, and whenever playback is off, an update leaves 128
    points in the oscilloscope buffer, each a number within [[-1,1]],
    whatever the zoom, pan and amplitude settings. *)
Theorem oscilloscope_buffer_displayable :
  forall (isPlaying : bool) (mode : oscilloscopeMode)
         (audioData frequencyData : list byte)
         (timeScale zoomLevel panOffset amplitudeZoom : Q) (prev : buffers),
    isPlaying = false \/ (mode = freq /\ frequencyData <> []) ->
    let next :=
      updateOscilloscopeData isPlaying mode audioData frequencyData
        timeScale zoomLevel panOffset amplitudeZoom prev in
    displayable (oscilloscopeData next)
    /\ length (oscilloscopeData next) = 128%nat
    /\ (isPlaying = false ->
        oscilloscopeData next = zeros /\ frequencyDataScope next = zeros).
Proof.
  intros isPlaying mode audioData frequencyData timeScale zoomLevel panOffset
         amplitudeZoom prev Hcase. cbv zeta. unfold updateOscilloscopeData.
  destruct isPlaying; cbn [negb].
  - destruct Hcase as [Hoff | [-> Hne]]; [discriminate|].
    destruct frequencyData as [|b fd]; [congruence|].
    cbn [length Nat.ltb Nat.leb oscilloscopeData].
    split; [|split; [|discriminate]].
    + unfold displayable, freqData. apply Forall_forall. intros v Hv.
      apply in_map_iff in Hv. destruct Hv as [i [<- _]].
      apply freqPoint_displayable.
    + unfold freqData. now rewrite length_map, length_seq.
  - cbn [oscilloscopeData frequencyDataScope].
    split; [|split; [reflexivity | auto]].
    unfold displayable, zeros. apply Forall_forall. intros v Hv.
    apply repeat_spec in Hv. subst v. cbn. split; discriminate.
Qed.

Lemma oscilloscope_buffer_witness :
  let next :=
    updateOscilloscopeData true freq [] [x00; xff; x80; x10] 10 2 50 8
      {| oscilloscopeData := []; frequencyDataScope := [] |} in
  displayable (oscilloscopeData next)
  /\ length (oscilloscopeData next) = 128%nat
  /\ (true = false ->
      oscilloscopeData next = zeros /\ frequencyDataScope next = zeros).
Proof.
  apply (oscilloscope_buffer_displayable true freq [] [x00; xff; x80; x10]
           10 2 50 8 {| oscilloscopeData := []; frequencyDataScope := [] |}).
  right. split; [reflexivity | discriminate].
Defined.

(** *** Time mode *)

(** The window of [audioData] on display. *)
Lemma time_window (audioData : list byte) (timeScale zoomLevel panOffset : Q) :
  0 < zoomLevel -> timeScale <= 10 ->
  (1 <= zoomedWindowSize audioData timeScale zoomLevel)%Z ->
  (0 <= timeStartIndex audioData timeScale zoomLevel panOffset)%Z
  /\ timeEndIndex audioData timeScale zoomLevel panOffset
     = (timeStartIndex audioData timeScale zoomLevel panOffset
        + zoomedWindowSize audioData timeScale zoomLevel)%Z
  /\ (timeEndIndex audioData timeScale zoomLevel panOffset
      <= Z.of_nat (length audioData))%Z.
Proof.
  intros Hz Hts Hw.
  pose proof (effectiveZoom_at_least_1 zoomLevel Hz) as Heff.
  assert (Hbase : (baseWindowSize audioData timeScale
                   <= Z.of_nat (length audioData))%Z).
  { unfold baseWindowSize. apply floor_at_most.
    pose proof (inject_Z_non_negative (Z.of_nat (length audioData)) ltac:(lia)).
    set (len := inject_Z (Z.of_nat (length audioData))) in *. clearbody len.
    assert (timeScale / 10 <= 1) by qlra.
    set (s := timeScale / 10) in *. clearbody s. Lqa.nra. }
  assert (Hwb : (zoomedWindowSize audioData timeScale zoomLevel
                 <= baseWindowSize audioData timeScale)%Z).
  { pose proof (floor_below (inject_Z (baseWindowSize audioData timeScale)
                             / effectiveZoom zoomLevel)) as Hfl.
    fold (zoomedWindowSize audioData timeScale zoomLevel) in Hfl.
    assert (H1 : 1 <= inject_Z (zoomedWindowSize audioData timeScale zoomLevel)).
    { change 1 with (inject_Z 1). rewrite <- Zle_Qle. exact Hw. }
    set (base := inject_Z (baseWindowSize audioData timeScale)) in *.
    set (eff := effectiveZoom zoomLevel) in *.
    assert (Hq : 1 <= base / eff) by Lqa.lra.
    assert (Hbe : eff <= base).
    { apply (Qmult_le_r _ _ eff) in Hq; [|Lqa.lra].
      rewrite Qmult_1_l in Hq.
      assert (E : base / eff * eff == base) by (field; Lqa.lra).
      rewrite E in Hq. exact Hq. }
    unfold zoomedWindowSize. apply floor_at_most. fold base eff.
    apply Qle_shift_div_r; [Lqa.lra | Lqa.nra]. }
  unfold timeEndIndex, timeStartIndex.
  set (W := zoomedWindowSize audioData timeScale zoomLevel) in *.
  set (ps := Math_floor _). clearbody ps. lia.
Qed.

Lemma sampleIndex_in_window (audioData : list byte)
    (timeScale zoomLevel panOffset : Q) (i : nat) :
  0 < zoomLevel -> timeScale <= 10 ->
  (1 <= zoomedWindowSize audioData timeScale zoomLevel)%Z ->
  (timeStartIndex audioData timeScale zoomLevel panOffset
   <= sampleIndex audioData timeScale zoomLevel panOffset i
   < timeEndIndex audioData timeScale zoomLevel panOffset)%Z.
Proof.
  intros Hz Hts Hw.
  destruct (time_window audioData timeScale zoomLevel panOffset Hz Hts Hw)
    as (Hs & He & Hl).
  unfold sampleIndex.
  set (start := timeStartIndex audioData timeScale zoomLevel panOffset) in *.
  set (stop := timeEndIndex audioData timeScale zoomLevel panOffset) in *.
  assert (Hfl : (0 <= Math_floor
                        (inject_Z (Z.of_nat i) / inject_Z (Z.of_nat samples - 1)
                         * inject_Z (stop - start - 1)))%Z).
  { apply floor_non_negative. apply Qmult_le_0_compat.
    - apply Qle_shift_div_l; [reflexivity|].
      rewrite Qmult_0_l. apply inject_Z_non_negative. lia.
    - apply inject_Z_non_negative. lia. }
  lia.
Qed.

(** X3. In time mode with a window of at least one sample, every display point
    shows a sample of the window: the first point its first sample, the
    last point its last, the points between in order; and every point is a
    number within [[-1,1]]. *)
Theorem time_mode_resamples_the_window :
  forall (audioData : list byte) (timeScale zoomLevel panOffset amplitudeZoom : Q),
    0 < zoomLevel -> timeScale <= 10 ->
    (1 <= zoomedWindowSize audioData timeScale zoomLevel)%Z ->
    let startIndex := timeStartIndex audioData timeScale zoomLevel panOffset in
    let endIndex := timeEndIndex audioData timeScale zoomLevel panOffset in
    let at_ := sampleIndex audioData timeScale zoomLevel panOffset in
    (0 <= startIndex /\ endIndex <= Z.of_nat (length audioData))%Z
    /\ at_ 0%nat = startIndex
    /\ at_ 127%nat = (endIndex - 1)%Z
    /\ (forall i j : nat, (i <= j)%nat ->
        (startIndex <= at_ i)%Z /\ (at_ i <= at_ j)%Z /\ (at_ j < endIndex)%Z)
    /\ displayable (timeData audioData timeScale zoomLevel panOffset amplitudeZoom)
    /\ length (timeData audioData timeScale zoomLevel panOffset amplitudeZoom)
       = 128%nat.
Proof.
  intros audioData timeScale zoomLevel panOffset amplitudeZoom Hz Hts Hw.
  cbv zeta.
  destruct (time_window audioData timeScale zoomLevel panOffset Hz Hts Hw)
    as (Hs & He & Hl).
  split; [split; assumption|].
  split; [|split; [|split; [|split]]].
  - unfold sampleIndex.
    assert (E : Math_floor
                  (inject_Z (Z.of_nat 0) / inject_Z (Z.of_nat samples - 1)
                   * inject_Z (timeEndIndex audioData timeScale zoomLevel panOffset
                               - timeStartIndex audioData timeScale zoomLevel panOffset
                               - 1)) = 0%Z).
    { unfold Math_floor. rewrite <- (Qfloor_Z 0).
      apply Qfloor_comp. cbn [Z.of_nat]. change (inject_Z 0) with 0.
      unfold Qdiv. ring. }
    rewrite E. lia.
  - unfold sampleIndex.
    set (n := (timeEndIndex audioData timeScale zoomLevel panOffset
               - timeStartIndex audioData timeScale zoomLevel panOffset - 1)%Z).
    assert (E : Math_floor
                  (inject_Z (Z.of_nat 127) / inject_Z (Z.of_nat samples - 1)
                   * inject_Z n) = n).
    { unfold Math_floor. rewrite <- (Qfloor_Z n) at 2.
      apply Qfloor_comp. change (inject_Z (Z.of_nat 127)) with 127.
      change (inject_Z (Z.of_nat samples - 1)) with 127. field. }
    rewrite E. subst n. lia.
  - intros i j Hij.
    pose proof (sampleIndex_in_window audioData timeScale zoomLevel panOffset i
                  Hz Hts Hw) as Hi.
    pose proof (sampleIndex_in_window audioData timeScale zoomLevel panOffset j
                  Hz Hts Hw) as Hj.
    split; [lia|]. split; [|lia].
    unfold sampleIndex.
    set (n := (timeEndIndex audioData timeScale zoomLevel panOffset
               - timeStartIndex audioData timeScale zoomLevel panOffset - 1)%Z).
    assert (Hn : 0 <= inject_Z n) by (apply inject_Z_non_negative; subst n; lia).
    assert (Hm : (Math_floor (inject_Z (Z.of_nat i) / inject_Z (Z.of_nat samples - 1)
                              * inject_Z n)
                  <= Math_floor (inject_Z (Z.of_nat j) / inject_Z (Z.of_nat samples - 1)
                                 * inject_Z n))%Z).
    { apply floor_monotone. apply Qmult_le_compat_r; [|exact Hn].
      change (inject_Z (Z.of_nat samples - 1)) with 127.
      assert (inject_Z (Z.of_nat i) <= inject_Z (Z.of_nat j))
        by (rewrite <- Zle_Qle; lia).
      qlra. }
    lia.
  - unfold displayable, timeData. apply Forall_forall. intros v Hv.
    apply in_map_iff in Hv. destruct Hv as [i [<- _]].
    pose proof (sampleIndex_in_window audioData timeScale zoomLevel panOffset i
                  Hz Hts Hw) as Hi.
    unfold timePoint.
    destruct (index_defined audioData
                (sampleIndex audioData timeScale zoomLevel panOffset i))
      as [b ->]; [lia|].
    cbn [numberWithin]. apply clampUnit_range.
  - unfold timeData. now rewrite length_map, length_seq.
Qed.

End ScopeDataProps.

Section ScopeDataEdge.
Import JS MeterBlock ScopeData.
Local Open Scope Q_scope.

Lemma time_mode_witness :
  let audioData := [x00; x10; x20; x30; x40; x50; x60; x70] in
  displayable (timeData audioData 10 2 50 8)
  /\ sampleIndex audioData 10 2 50 0 = timeStartIndex audioData 10 2 50
  /\ sampleIndex audioData 10 2 50 127 = (timeEndIndex audioData 10 2 50 - 1)%Z.
Proof.
  cbv zeta.
  destruct (time_mode_resamples_the_window
              [x00; x10; x20; x30; x40; x50; x60; x70] 10 2 50 8)
    as (_ & H0 & H127 & _ & Hd & _).
  - reflexivity.
  - discriminate.
  - vm_compute. discriminate.
  - repeat split; assumption.
Defined.

(** X4. With the pan at 0, a zoom that shrinks the window to no sample at all
    makes every display point a read of position -1: all 128 points are
    NaN. *)
Theorem time_mode_empty_window_is_NaN :
  forall (audioData : list byte) (timeScale zoomLevel panOffset amplitudeZoom : Q),
    zoomedWindowSize audioData timeScale zoomLevel = 0%Z ->
    panOffset == 0 ->
    Forall (fun v => v = None)
           (timeData audioData timeScale zoomLevel panOffset amplitudeZoom)
    /\ length (timeData audioData timeScale zoomLevel panOffset amplitudeZoom)
       = 128%nat.
Proof.
  intros audioData timeScale zoomLevel panOffset amplitudeZoom Hw Hp.
  split; [|unfold timeData; now rewrite length_map, length_seq].
  assert (Hstart : timeStartIndex audioData timeScale zoomLevel panOffset = 0%Z).
  { unfold timeStartIndex. rewrite Hw.
    assert (E : Math_floor
                  (panOffset / 100 * inject_Z (Z.of_nat (length audioData) - 0)) = 0%Z).
    { unfold Math_floor. rewrite <- (Qfloor_Z 0). apply Qfloor_comp.
      rewrite Hp. unfold Qdiv. ring. }
    rewrite E. lia. }
  assert (Hend : timeEndIndex audioData timeScale zoomLevel panOffset = 0%Z).
  { unfold timeEndIndex. rewrite Hstart, Hw. lia. }
  unfold timeData. apply Forall_forall. intros v Hv.
  apply in_map_iff in Hv. destruct Hv as [i [<- _]].
  unfold timePoint. rewrite index_undefined; [reflexivity|].
  unfold sampleIndex. rewrite Hend. lia.
Qed.

(** The default 64-sample buffer at the 0.01x zoom step: the window is
    [floor (64 / 100)] samples. *)
Lemma time_mode_empty_window_witness :
  Forall (fun v => v = None) (timeData (repeat x80 64) 10 (1 # 100) 0 8)
  /\ length (timeData (repeat x80 64) 10 (1 # 100) 0 8) = 128%nat.
Proof.
  apply (time_mode_empty_window_is_NaN (repeat x80 64) 10 (1 # 100) 0 8);
    reflexivity.
Defined.

(** With the pan off 0 the same empty window shows one sample, the one
    before the start index, on all points. *)
Example time_mode_empty_window_panned :
  timeData [x00; x10; x20; x30; x40; x50; x60; x70] 1 8 50 1
  = repeat (Some (clampUnit ((inject_Z 48 - 128) / 128 * (8 # 10) * 1))) 128.
Proof. vm_compute. reflexivity. Qed.

End ScopeDataEdge.

(** ** Ranges of the meter state *)

Section MeterRangeProps.
Import JS Meter MeterRange.
Local Open Scope Q_scope.

Lemma vuBallistics_percent (rms prev : Q) :
  percent rms -> percent prev -> percent (vuBallistics rms prev).
Proof.
  unfold percent, vuBallistics. intros Hr Hp. destruct (gt rms prev); Lqa.lra.
Qed.

Lemma ppmBallistics_percent (peak prev : Q) :
  percent peak -> percent prev -> percent (ppmBallistics peak prev).
Proof.
  unfold percent, ppmBallistics. intros Hr Hp. destruct (gt peak prev); Lqa.lra.
Qed.

Lemma vuPeakHold_percent (rms prev : Q) :
  percent rms -> percent prev -> percent (vuPeakHold rms prev).
Proof.
  unfold percent, vuPeakHold. intros Hr Hp. clamp_cases. Lqa.lra.
Qed.

Lemma ppmPeakHold_percent (peak prev : Q) :
  percent peak -> percent prev -> percent (ppmPeakHold peak prev).
Proof.
  unfold percent, ppmPeakHold. intros Hr Hp. clamp_cases. Lqa.lra.
Qed.

Lemma calculateLUFS_range (leftRMS rightRMS : Q) :
  -60 <= calculateLUFS leftRMS rightRMS <= 0.
Proof. unfold calculateLUFS. clamp_cases. Lqa.lra. Qed.

(** On percentages the loudness proxy is [-50 + 0.3 * average], between
    -50 and -20: neither clamp is reached. *)
Lemma calculateLUFS_on_percentages (leftRMS rightRMS : Q) :
  percent leftRMS -> percent rightRMS ->
  calculateLUFS leftRMS rightRMS == -50 + (leftRMS + rightRMS) / 2 * (3 # 10)
  /\ -50 <= calculateLUFS leftRMS rightRMS <= -20.
Proof.
  unfold percent, calculateLUFS. intros Hl Hr.
  set (avg := (leftRMS + rightRMS) / 2).
  assert (Ha : 0 <= avg <= 100) by (subst avg; qlra).
  clearbody avg. clamp_cases. Lqa.lra.
Qed.

(** X5. The meter state keeps its ranges: a meter-update tick fed percentages
    and a correlation within [[-1,1]], and a firing of the decay loop, both
    leave levels and peak-holds within [[0,100]], the loudness within
    [[-60,0]] and the correlation within [[-1,1]]. *)
Theorem meter_state_stays_in_range :
  forall (leftRMS rightRMS leftPeak rightPeak corr : Q) (points : list (Q * Q))
         (prev : meterData),
    percent leftRMS -> percent rightRMS -> percent leftPeak -> percent rightPeak ->
    -1 <= corr <= 1 ->
    inRange prev ->
    inRange (updateMeters leftRMS rightRMS leftPeak rightPeak corr points prev)
    /\ inRange (fst (decayTick prev)).
Proof.
  intros leftRMS rightRMS leftPeak rightPeak corr points prev
         H1 H2 H3 H4 Hc Hprev.
  pose proof Hprev as (P1 & P2 & P3 & P4 & P5 & P6 & P7 & P8 & PL & PC).
  split.
  - unfold inRange, updateMeters.
    cbn [vuLeft vuRight ppmLeft ppmRight vuPeakLeft vuPeakRight ppmPeakLeft
         ppmPeakRight loudness correlation].
    pose proof (calculateLUFS_range leftRMS rightRMS) as HL.
    repeat split;
      try (apply vuBallistics_percent; assumption);
      try (apply ppmBallistics_percent; assumption);
      try (apply vuPeakHold_percent; assumption);
      try (apply ppmPeakHold_percent; assumption);
      Lqa.lra.
  - unfold decayTick. destruct (allLow prev); cbn [fst].
    + exact Hprev.
    + clear Hprev. unfold inRange, percent in *.
      cbn [vuLeft vuRight ppmLeft ppmRight vuPeakLeft vuPeakRight ppmPeakLeft
           ppmPeakRight loudness correlation].
      repeat split; Lqa.lra.
Qed.

Lemma initial_in_range : inRange initial.
Proof. unfold inRange, percent. cbn. repeat split; discriminate. Qed.

Lemma meter_state_witness :
  inRange (updateMeters 40 60 80 100 (1 # 2) [] initial)
  /\ inRange (fst (decayTick initial)).
Proof.
  apply (meter_state_stays_in_range 40 60 80 100 (1 # 2) [] initial);
    try (split; discriminate).
  exact initial_in_range.
Defined.

(** *** The decay loop on meters in range *)

Lemma decayTick_in_range (s : meterData) : inRange s -> inRange (fst (decayTick s)).
Proof.
  intros Hs. unfold decayTick. destruct (allLow s); cbn [fst]; [exact Hs|].
  unfold inRange, percent in *.
  cbn [vuLeft vuRight ppmLeft ppmRight vuPeakLeft vuPeakRight ppmPeakLeft
       ppmPeakRight loudness correlation].
  repeat split; Lqa.lra.
Qed.

End MeterRangeProps.

(** ** The performance monitor *)

Section MonitorProps.
Import JS Quality Perf Warnings History.
Local Open Scope Z_scope.

Lemma monitor_app (a b : list check) :
  forall perf : performance,
    monitor perf (a ++ b)
    = (fst (monitor (fst (monitor perf a)) b),
       snd (monitor perf a) ++ snd (monitor (fst (monitor perf a)) b)).
Proof.
  induction a as [|c a IH]; intros perf.
  - cbn [app monitor fst snd]. now destruct (monitor perf b).
  - cbn [app]. rewrite !monitor_cons, IH. reflexivity.
Qed.

(** A check changes the monitor state as [updatePerformanceMetrics] does,
    but for [lastWarningTime]. *)
Lemma check_keeps_metrics (isPlaying : bool) (c : check) (perf : performance) :
  let perf2 :=
    updatePerformanceMetrics (c_quality c) isPlaying
      (setFps (measureFps (c_quality c) (c_frames c)) perf) in
  let perf' := perfAfter (performanceCheck isPlaying c perf) in
  fps perf' = fps perf2 /\ avgFps perf' = avgFps perf2
  /\ fpsHistory perf' = fpsHistory perf2
  /\ lowFpsCount perf' = lowFpsCount perf2
  /\ criticalFpsCount perf' = criticalFpsCount perf2
  /\ memoryUsage perf' = memoryUsage perf2 /\ cpuUsage perf' = cpuUsage perf2.
Proof.
  cbv zeta. unfold performanceCheck.
  set (perf2 := updatePerformanceMetrics _ _ _).
  destruct isPlaying; [|repeat split].
  destruct (emitted_cases (c_quality c) (c_auto c) (c_now c) perf2)
    as [[_ ->] | (_ & _ & _ & ->)]; repeat split.
Qed.

(** *** The two streak counters *)

(** X8. Neither streak counter is ever negative, and the critical streak is
    never longer than the low one: every periodic check keeps that, so it
    holds after any run of checks. *)
Theorem streaks_ordered :
  (forall (isPlaying : bool) (c : check) (perf : performance),
      0 <= criticalFpsCount perf <= lowFpsCount perf ->
      let perf' := perfAfter (performanceCheck isPlaying c perf) in
      0 <= criticalFpsCount perf' <= lowFpsCount perf')
  /\ (forall checks : list check,
         let perf := fst (monitor initial checks) in
         0 <= criticalFpsCount perf <= lowFpsCount perf).
Proof.
  assert (Hstep : forall (isPlaying : bool) (c : check) (perf : performance),
             0 <= criticalFpsCount perf <= lowFpsCount perf ->
             let perf' := perfAfter (performanceCheck isPlaying c perf) in
             0 <= criticalFpsCount perf' <= lowFpsCount perf').
  { intros isPlaying c perf H. cbv zeta.
    destruct (check_keeps_metrics isPlaying c perf) as (_ & _ & _ & -> & -> & _).
    cbn [updatePerformanceMetrics lowFpsCount criticalFpsCount setFps fps].
    unfold fps_warning_threshold, fps_critical_threshold.
    destruct (measureFps (c_quality c) (c_frames c) <? 45) eqn:H45;
      destruct (measureFps (c_quality c) (c_frames c) <? 25) eqn:H25;
      try apply Z.ltb_lt in H45; try apply Z.ltb_ge in H45;
      try apply Z.ltb_lt in H25; try apply Z.ltb_ge in H25; lia. }
  split; [exact Hstep|].
  intros checks. cbv zeta.
  assert (G : forall perf, 0 <= criticalFpsCount perf <= lowFpsCount perf ->
              0 <= criticalFpsCount (fst (monitor perf checks))
              <= lowFpsCount (fst (monitor perf checks))).
  { induction checks as [|c rest IH]; intros perf H; [exact H|].
    rewrite monitor_cons. cbn [fst]. apply IH, (Hstep true c perf H). }
  apply G. cbn. lia.
Qed.

Lemma streaks_ordered_witness :
  0 <= criticalFpsCount (perfAfter (performanceCheck true (checkAt medium 20 5000)
                                      initial))
    <= lowFpsCount (perfAfter (performanceCheck true (checkAt medium 20 5000)
                                 initial)).
Proof.
  destruct streaks_ordered as [H _].
  apply (H true (checkAt medium 20 5000) initial). cbn. lia.
Defined.

(** *** The rolling history *)

Lemma tl_skipn {A : Type} (n : nat) (l : list A) : tl (skipn n l) = skipn (S n) l.
Proof.
  revert l. induction n as [|n IH]; intros [|x l]; try reflexivity.
  cbn [skipn]. rewrite IH. destruct l; reflexivity.
Qed.

Lemma pushHistory_lastn (all : list Z) (v : Z) :
  pushHistory (lastn 10 all) v = lastn 10 (all ++ [v]).
Proof.
  unfold pushHistory, lastn. rewrite length_app, length_app, length_skipn.
  cbn [length].
  destruct (Nat.le_gt_cases (length all) 9) as [Hshort | Hlong].
  - replace (length all - 10)%nat with 0%nat by lia.
    replace (length all + 1 - 10)%nat with 0%nat by lia.
    cbn [skipn].
    assert (E : (10 <? length all - 0 + 1)%nat = false) by (apply Nat.ltb_ge; lia).
    rewrite E. reflexivity.
  - assert (E : (10 <? length all - (length all - 10) + 1)%nat = true)
      by (apply Nat.ltb_lt; lia).
    rewrite E.
    rewrite skipn_app.
    replace (length all + 1 - 10 - length all)%nat with 0%nat by lia.
    cbn [skipn].
    replace (length all + 1 - 10)%nat with (S (length all - 10)) by lia.
    rewrite <- tl_skipn.
    destruct (skipn (length all - 10) all) as [|x l] eqn:Hs; [|reflexivity].
    apply (f_equal (@length Z)) in Hs. rewrite length_skipn in Hs.
    cbn [length] in Hs. lia.
Qed.

Lemma history_after (checks : list check) :
  fpsHistory (fst (monitor initial checks)) = lastn 10 (map reading checks).
Proof.
  induction checks as [|c checks IH] using rev_ind; [reflexivity|].
  rewrite monitor_app. cbn [fst]. rewrite monitor_cons. cbn [monitor fst].
  destruct (check_keeps_metrics true c (fst (monitor initial checks)))
    as (_ & _ & -> & _).
  cbn [updatePerformanceMetrics fpsHistory setFps fps].
  rewrite IH, map_app. cbn [map]. apply pushHistory_lastn.
Qed.

Lemma sum_from (l : list Z) :
  forall acc : Z, fold_left Z.add l acc = acc + fold_left Z.add l 0.
Proof.
  induction l as [|x l IH]; intros acc; cbn [fold_left]; [lia|].
  rewrite IH, (IH (0 + x)). lia.
Qed.

Lemma average_between (history : list Z) (lo hi : Z) :
  history <> [] -> Forall (fun v => lo <= v <= hi) history ->
  (inject_Z lo <= average history <= inject_Z hi)%Q.
Proof.
  intros Hne Hall. unfold average.
  assert (Hsum : Z.of_nat (length history) * lo <= fold_left Z.add history 0
                 <= Z.of_nat (length history) * hi).
  { clear Hne. induction Hall as [|x l Hx _ IH]; [cbn; lia|].
    cbn [fold_left length]. rewrite sum_from. lia. }
  assert (Hn : 0 < Z.of_nat (length history))
    by (destruct history; [congruence | cbn [length]; lia]).
  assert (Hq : (0 < inject_Z (Z.of_nat (length history)))%Q).
  { change 0%Q with (inject_Z 0). now rewrite <- Zlt_Qlt. }
  split.
  - apply Qle_shift_div_l; [exact Hq|].
    rewrite <- inject_Z_mult, <- Zle_Qle. lia.
  - apply Qle_shift_div_r; [exact Hq|].
    rewrite <- inject_Z_mult, <- Zle_Qle. lia.
Qed.

(** X9. After any run of checks the history holds the last ten measured frame
    rates, oldest first, and after at least one check the average is the
    mean of those, so it lies between any two bounds of the last ten
    readings. *)
Theorem history_is_the_last_ten_readings :
  forall checks : list check,
    let perf := fst (monitor initial checks) in
    fpsHistory perf = lastn 10 (map reading checks)
    /\ (length (fpsHistory perf) <= 10)%nat
    /\ (checks <> [] ->
        avgFps perf = average (fpsHistory perf)
        /\ forall lo hi : Z,
             Forall (fun v => lo <= v <= hi) (lastn 10 (map reading checks)) ->
             (inject_Z lo <= avgFps perf <= inject_Z hi)%Q).
Proof.
  intros checks. cbv zeta. pose proof (history_after checks) as Hh.
  split; [exact Hh|]. split.
  - rewrite Hh. unfold lastn. rewrite length_skipn. lia.
  - intros Hne.
    assert (Havg : avgFps (fst (monitor initial checks))
                   = average (fpsHistory (fst (monitor initial checks)))).
    { destruct checks as [|c checks] using rev_ind; [congruence|].
      rewrite monitor_app. cbn [fst]. rewrite monitor_cons. cbn [monitor fst].
      destruct (check_keeps_metrics true c (fst (monitor initial checks)))
        as (_ & -> & -> & _).
      reflexivity. }
    split; [exact Havg|].
    intros lo hi Hall. rewrite Havg, Hh.
    apply average_between; [|exact Hall].
    unfold lastn. intros E. apply (f_equal (@length Z)) in E.
    rewrite length_skipn, length_map in E. cbn [length] in E.
    destruct checks; [congruence | cbn [length] in E; lia].
Qed.

(** Twelve checks at 1, 2, ..., 12 frames in 1000 ms: the history is 3 to
    12 frames per second and the average 7.5. *)
Example history_of_twelve :
  let perf := fst (monitor initial
                     (map (fun k => checkAt medium k (1000 * k))
                          [1; 2; 3; 4; 5; 6; 7; 8; 9; 10; 11; 12])) in
  fpsHistory perf = [3; 4; 5; 6; 7; 8; 9; 10; 11; 12]
  /\ (avgFps perf == 15 # 2)%Q.
Proof. vm_compute. split; reflexivity. Qed.

End MonitorProps.

Section WarningProps.
Import JS Quality Perf Warnings History.
Local Open Scope Z_scope.

(** *** Memory and CPU warnings *)

Lemma memoryEstimate_values (q : quality) (isPlaying : bool) :
  (memoryEstimate q isPlaying <= 120)%Q
  /\ (gt (memoryEstimate q isPlaying) memory_warning_threshold = true
      <-> q = ultra /\ isPlaying = true).
Proof.
  destruct q, isPlaying; (split; [vm_compute; discriminate|]);
    vm_compute; split; try discriminate; try tauto;
    intros [H1 H2]; discriminate.
Qed.

(** X10. The memory estimate never exceeds 120 MB, so no periodic check emits a
    critical memory warning; a check emits a memory warning at all only on
    "ultra", and then it suggests "high". *)
Theorem memory_warning_only_on_ultra :
  forall (c : check) (perf : performance) (w : PerformanceWarning),
    In w (emitted (performanceCheck true c perf)) ->
    wtype w = memory_high ->
    wseverity w = sev_warning /\ c_quality c = ultra
    /\ suggestedQuality w = Some high.
Proof.
  intros c perf w Hin Hty. unfold performanceCheck in Hin.
  set (perf2 := updatePerformanceMetrics _ _ _) in Hin.
  assert (Hmem : memoryUsage perf2 = memoryEstimate (c_quality c) true)
    by reflexivity.
  destruct (emitted_cases (c_quality c) (c_auto c) (c_now c) perf2)
    as [[E _] | (_ & _ & E & _)]; rewrite E in Hin; [destruct Hin|].
  apply in_app_or in Hin. destruct Hin as [Hin | Hin].
  - apply fpsWarnings_only_when in Hin.
    destruct Hin as [(Ht & _) | (Ht & _)]; congruence.
  - apply in_app_or in Hin. destruct Hin as [Hin | Hin].
    + unfold memoryWarnings in Hin. rewrite Hmem in Hin.
      destruct (memoryEstimate_values (c_quality c) true) as [Hle Hiff].
      assert (Hnot : gt (memoryEstimate (c_quality c) true) memory_critical_threshold
                     = false).
      { apply gt_false. exact Hle. }
      rewrite Hnot in Hin.
      destruct (gt (memoryEstimate (c_quality c) true) memory_warning_threshold)
        eqn:Hw; [|destruct Hin].
      destruct Hin as [<- | []]. destruct Hiff as [Hiff _].
      destruct (Hiff eq_refl) as [Hq _].
      cbn [wseverity suggestedQuality]. rewrite Hq. repeat split.
    + apply cpuWarnings_type in Hin. congruence.
Qed.

Lemma memory_warning_witness :
  let w := {| wtype := memory_high; suggestedQuality := Some high;
              timestamp := 1000000; wseverity := sev_warning |} in
  wseverity w = sev_warning /\ ultra = ultra /\ suggestedQuality w = Some high.
Proof.
  cbv zeta.
  apply (memory_warning_only_on_ultra (checkAt ultra 30 1000000) initial).
  - vm_compute. left. reflexivity.
  - reflexivity.
Defined.

(** X11. While playing, the CPU estimate is within [[10,95]]; it is above the
    warning threshold exactly when the average frame rate is under half
    the tier's target, and above the critical threshold exactly when it is
    under 35% of the target. *)
Theorem cpu_thresholds_in_frame_rates :
  forall (q : quality) (avg : Q),
    (10 <= cpuEstimate q true avg <= 95)%Q
    /\ (gt (cpuEstimate q true avg) cpu_warning_threshold = true
        <-> (avg < targetFps q * (1 # 2))%Q)
    /\ (gt (cpuEstimate q true avg) cpu_critical_threshold = true
        <-> (avg < targetFps q * (35 # 100))%Q).
Proof.
  intros q avg. rewrite !gt_true.
  unfold cpuEstimate, cpu_warning_threshold, cpu_critical_threshold.
  assert (Hr : forall k : Q,
             (avg / targetFps q < k)%Q <-> (avg < targetFps q * k)%Q).
  { intros k. pose proof (targetFps_positive q) as Ht. split; intros H.
    - apply (Qmult_lt_r _ _ (targetFps q)) in H; [|exact Ht].
      assert (E : (avg / targetFps q * targetFps q == avg)%Q)
        by (field; Lqa.lra).
      rewrite E in H. Lqa.lra.
    - apply Qlt_shift_div_r; [exact Ht | Lqa.lra]. }
  rewrite <- !Hr.
  set (r := (avg / targetFps q)%Q). clearbody r.
  clamp_cases. repeat split; intros; Lqa.lra.
Qed.

(** *** The automatic downgrade *)



(** *** Emissions and their expiry *)

Lemma emitted_timestamps (isPlaying : bool) (c : check) (perf : performance)
    (w : PerformanceWarning) :
  In w (emitted (performanceCheck isPlaying c perf)) -> timestamp w = c_now c.
Proof.
  unfold performanceCheck. set (perf2 := updatePerformanceMetrics _ _ _).
  destruct isPlaying; [|intros []].
  destruct (emitted_cases (c_quality c) (c_auto c) (c_now c) perf2)
    as [[E _] | (_ & _ & E & _)]; rewrite E; [intros []|].
  unfold fpsWarnings, memoryWarnings, cpuWarnings.
  intros Hin.
  repeat (apply in_app_or in Hin; destruct Hin as [Hin | Hin]);
    repeat match type of Hin with
           | In _ (if ?b then _ else _) => destruct b
           end;
    cbn [In] in Hin;
    first [ destruct Hin as [<- | []]; reflexivity | destruct Hin ].
Qed.


End WarningProps.

(** ** The render loop *)

Section LoopProps.
Import JS Quality Perf Loop.
Local Open Scope Z_scope.

Lemma run_cons (st : loop) (f : frame) (rest : list frame) :
  run st (f :: rest)
  = (fst (run (after (updateVisuals f st)) rest),
     (f, updateVisuals f st) :: snd (run (after (updateVisuals f st)) rest)).
Proof. cbn [run]. destruct (run _ rest). reflexivity. Qed.

(** *** The measured frame rate and the frame-skip count *)

Lemma measureFps_at_least_1 (q : quality) (count : Z) :
  1 <= count -> 1 <= measureFps q count.
Proof.
  intros Hc. unfold measureFps, Math_round.
  apply (floor_at_least _ 1).
  assert (Hi : (inject_Z (Quality.performance (getUpdateIntervals q)) <= 2000)%Q
               /\ (0 < inject_Z (Quality.performance (getUpdateIntervals q)))%Q).
  { destruct q; split; vm_compute; congruence. }
  destruct Hi as [Hhi Hlo].
  set (i := inject_Z (Quality.performance (getUpdateIntervals q))) in *. clearbody i.
  assert (Hn : (1000 <= inject_Z (count * 1000))%Q).
  { change 1000%Q with (inject_Z 1000). rewrite <- Zle_Qle. lia. }
  set (n := inject_Z (count * 1000)) in *. clearbody n.
  assert (Hq : (1 # 2 <= n / i)%Q).
  { apply Qle_shift_div_l; [exact Hlo | Lqa.lra]. }
  change (inject_Z 1) with 1%Q. Lqa.lra.
Qed.

Lemma framesToSkip_steady (fps : Z) :
  1 <= fps ->
  exists k : Z, framesToSkip fps = Frames k /\ (k = 0 \/ 2 <= k <= 60).
Proof.
  intros Hf. unfold framesToSkip.
  destruct (fps <? 30) eqn:H30; [|exists 0; split; [reflexivity | lia]].
  apply Z.ltb_lt in H30.
  destruct (fps =? 0) eqn:H0; [apply Z.eqb_eq in H0; lia|].
  exists (Z.max 1 (Math_floor (60 / inject_Z fps))). split; [reflexivity|].
  right. change 60%Q with (inject_Z 60). rewrite floor_of_quotient.
  assert (2 <= 60 / fps) by (apply Z.div_le_lower_bound; lia).
  assert (60 / fps <= 60) by (apply Z.div_le_upper_bound; lia).
  lia.
Qed.

Lemma countFrame_steady (f : frame) (st : loop) :
  steady st -> steady (fst (countFrame f st)).
Proof.
  intros [Hc Hk]. unfold countFrame.
  destruct (gt _ _); cbn [fst]; unfold steady; cbn [frameCount skipFrames].
  - split; [lia|].
    set (c := {| c_quality := f_quality f; c_auto := f_auto f;
                 c_frames := frameCount st + 1; c_now := f_dateNow f |}).
    destruct (check_keeps_metrics (f_isPlaying f) c (perf st)) as (-> & _).
    cbn [updatePerformanceMetrics fps setFps c_quality c_frames c].
    apply framesToSkip_steady, measureFps_at_least_1. lia.
  - split; [lia | exact Hk].
Qed.

Lemma updateVisuals_steady (f : frame) (st : loop) :
  steady st -> steady (after (updateVisuals f st)).
Proof.
  intros Hs. pose proof (countFrame_steady f st Hs) as H1.
  unfold updateVisuals. destruct (countFrame f st) as [st1 r]. cbn [fst] in H1.
  destruct (skipsFrame _ _); cbn [after]; exact H1.
Qed.

(** X14. From the first frame on, the frame rate that a check measures is at
    least 1, so the frame-skip count is never the [Infinity] of a division
    by zero: it is 0, or a number from 2 to 60.  And the frame on which
    the periodic check runs is never skipped. *)
Theorem frame_skip_count_is_finite :
  (forall fs : list frame, steady (fst (run initial fs)))
  /\ (forall (f : frame) (st : loop),
         checked (updateVisuals f st) <> None ->
         skipped (updateVisuals f st) = false).
Proof.
  split.
  - intros fs.
    assert (G : forall st, steady st -> steady (fst (run st fs))).
    { induction fs as [|f fs IH]; intros st Hs; [exact Hs|].
      rewrite run_cons. cbn [fst]. apply IH, updateVisuals_steady, Hs. }
    apply G. unfold steady. cbn. split; [lia|].
    exists 0. split; [reflexivity | lia].
  - intros f st. unfold updateVisuals, countFrame.
    destruct (gt _ _); cbn [skipFrames frameCount].
    + intros _. destruct (framesToSkip _) as [k|]; cbn [skipsFrame].
      * change (Z.rem 0 k) with 0. cbn. rewrite andb_false_r. reflexivity.
      * reflexivity.
    + destruct (skipsFrame _ _); cbn [checked]; congruence.
Qed.

(** A slow second on "medium": 20 frames in the check interval give a
    skip count of 3, and of the next six frames the third and the sixth
    are processed. *)
Example frame_skipping :
  let slow := {| perf := Perf.initial; lastUpdate := 0; frameCount := 19;
                 skipFrames := Frames 0;
                 lastMeterUpdateRef := 0; lastWaveformUpdateRef := 0 |} in
  let at_ (t : Q) := {| f_quality := medium; f_isPlaying := true; f_auto := false;
                       f_now := t; f_dateNow := 1000000 |} in
  let log := snd (run slow (map at_ [1001; 1017; 1034; 1051; 1067; 1084; 1101]%Q)) in
  map (fun e => skipped (snd e)) log = [false; true; true; false; true; true; false]
  /\ skipFrames (after (snd (hd (at_ 0%Q, updateVisuals (at_ 0%Q) slow) log)))
     = Frames 3.
Proof. vm_compute. split; reflexivity. Qed.

(** *** The two throttles *)

Section Throttle.

(** A throttle: its stamp in the loop state, its flag in a frame's result
    and its interval on a tier. *)
Variable stamp : loop -> Q.
Variable flag : frameResult -> bool.
Variable interval : quality -> Z.

Hypothesis interval_positive : forall q : quality, 0 < interval q.

Hypothesis fires_or_waits :
  forall (f : frame) (st : loop),
    let r := updateVisuals f st in
    (flag r = false /\ stamp (after r) = stamp st)
    \/ (flag r = true /\ stamp (after r) = f_now f
        /\ (inject_Z (interval (f_quality f)) < f_now f - stamp st)%Q).

Lemma fires_after_interval (fs : list frame) :
  forall (st : loop) (f : frame) (r : frameResult),
    In (f, r) (snd (run st fs)) -> flag r = true ->
    (inject_Z (interval (f_quality f)) < f_now f - stamp st)%Q.
Proof.
  induction fs as [|g fs IH]; intros st f r Hin Hfl; [destruct Hin|].
  rewrite run_cons in Hin. cbn [snd In] in Hin.
  pose proof (fires_or_waits g st) as Hstep. cbv zeta in Hstep.
  destruct Hin as [Heq | Hin].
  - injection Heq as <- <-.
    destruct Hstep as [[Hno _] | (_ & _ & Hgap)]; [congruence | exact Hgap].
  - specialize (IH _ _ _ Hin Hfl).
    destruct Hstep as [[_ Hsame] | (_ & Hnow & Hgap)].
    + rewrite Hsame in IH. exact IH.
    + rewrite Hnow in IH.
      pose proof (interval_positive (f_quality g)) as Hpos.
      assert (0 < inject_Z (interval (f_quality g)))%Q.
      { change 0%Q with (inject_Z 0). now rewrite <- Zlt_Qlt. }
      Lqa.lra.
Qed.

Lemma fires_spaced (fs : list frame) :
  forall (st : loop) (log1 log2 : list (frame * frameResult))
         (f1 f2 : frame) (r1 r2 : frameResult),
    snd (run st fs) = log1 ++ (f1, r1) :: log2 ->
    In (f2, r2) log2 -> flag r1 = true -> flag r2 = true ->
    (inject_Z (interval (f_quality f2)) < f_now f2 - f_now f1)%Q.
Proof.
  induction fs as [|g fs IH]; intros st log1 log2 f1 f2 r1 r2 Hlog Hin H1 H2.
  - destruct log1; discriminate Hlog.
  - rewrite run_cons in Hlog. cbn [snd] in Hlog.
    destruct log1 as [|e log1]; cbn [app] in Hlog.
    + injection Hlog as Hf Hr Hrest. subst log2.
      pose proof (fires_after_interval fs _ _ _ Hin H2) as Hgap.
      pose proof (fires_or_waits g st) as Hstep. cbv zeta in Hstep.
      rewrite Hr, Hf in Hstep.
      destruct Hstep as [[Hno _] | (_ & Hnow & _)]; [congruence|].
      rewrite Hr, Hnow in Hgap. exact Hgap.
    + injection Hlog as _ Hrest.
      apply (IH _ _ _ _ _ _ _ Hrest Hin H1 H2).
Qed.

End Throttle.

Lemma meter_throttle (f : frame) (st : loop) :
  let r := updateVisuals f st in
  (shouldUpdateMeters r = false
   /\ lastMeterUpdateRef (after r) = lastMeterUpdateRef st)
  \/ (shouldUpdateMeters r = true /\ lastMeterUpdateRef (after r) = f_now f
      /\ (inject_Z (Quality.meter (getUpdateIntervals (f_quality f)))
          < f_now f - lastMeterUpdateRef st)%Q).
Proof.
  cbv zeta. unfold updateVisuals.
  assert (E : lastMeterUpdateRef (fst (countFrame f st)) = lastMeterUpdateRef st).
  { unfold countFrame. destruct (gt _ _); reflexivity. }
  destruct (countFrame f st) as [st1 r]. cbn [fst] in E.
  destruct (skipsFrame _ _); cbn [shouldUpdateMeters after lastMeterUpdateRef].
  - left. split; [reflexivity | exact E].
  - rewrite E.
    destruct (gt (f_now f - lastMeterUpdateRef st) _) eqn:Hgt.
    + right. apply gt_true in Hgt. repeat split. exact Hgt.
    + left. split; reflexivity.
Qed.

Lemma waveform_throttle (f : frame) (st : loop) :
  let r := updateVisuals f st in
  (shouldUpdateWaveform r = false
   /\ lastWaveformUpdateRef (after r) = lastWaveformUpdateRef st)
  \/ (shouldUpdateWaveform r = true /\ lastWaveformUpdateRef (after r) = f_now f
      /\ (inject_Z (Quality.waveform (getUpdateIntervals (f_quality f)))
          < f_now f - lastWaveformUpdateRef st)%Q).
Proof.
  cbv zeta. unfold updateVisuals.
  assert (E : lastWaveformUpdateRef (fst (countFrame f st))
              = lastWaveformUpdateRef st).
  { unfold countFrame. destruct (gt _ _); reflexivity. }
  destruct (countFrame f st) as [st1 r]. cbn [fst] in E.
  destruct (skipsFrame _ _); cbn [shouldUpdateWaveform after lastWaveformUpdateRef].
  - left. split; [reflexivity | exact E].
  - rewrite E.
    destruct (gt (f_now f - lastWaveformUpdateRef st) _) eqn:Hgt.
    + right. apply gt_true in Hgt. repeat split. exact Hgt.
    + left. split; reflexivity.
Qed.

(** X15. In any run of frames, two frames that both update the meters are more
    than the later frame's meter interval apart, and two frames that both
    update the waveform more than its waveform interval apart, however
    many frames are drawn in between. *)
Theorem updates_are_throttled :
  forall (st : loop) (fs : list frame) (log1 log2 : list (frame * frameResult))
         (f1 f2 : frame) (r1 r2 : frameResult),
    snd (run st fs) = log1 ++ (f1, r1) :: log2 ->
    In (f2, r2) log2 ->
    (shouldUpdateMeters r1 = true -> shouldUpdateMeters r2 = true ->
     (inject_Z (Quality.meter (getUpdateIntervals (f_quality f2)))
      < f_now f2 - f_now f1)%Q)
    /\ (shouldUpdateWaveform r1 = true -> shouldUpdateWaveform r2 = true ->
        (inject_Z (Quality.waveform (getUpdateIntervals (f_quality f2)))
         < f_now f2 - f_now f1)%Q).
Proof.
  intros st fs log1 log2 f1 f2 r1 r2 Hlog Hin. split; intros H1 H2.
  - apply (fires_spaced lastMeterUpdateRef shouldUpdateMeters
             (fun q => Quality.meter (getUpdateIntervals q))
             ltac:(intros q; destruct q; reflexivity) meter_throttle
             fs st log1 log2 f1 f2 r1 r2 Hlog Hin H1 H2).
  - apply (fires_spaced lastWaveformUpdateRef shouldUpdateWaveform
             (fun q => Quality.waveform (getUpdateIntervals q))
             ltac:(intros q; destruct q; reflexivity) waveform_throttle
             fs st log1 log2 f1 f2 r1 r2 Hlog Hin H1 H2).
Qed.

Lemma updates_are_throttled_witness :
  shouldUpdateMeters (updateVisuals (playingAt medium 300) initial) = true
  /\ shouldUpdateMeters
       (updateVisuals (playingAt medium 600)
          (after (updateVisuals (playingAt medium 300) initial))) = true
  /\ (inject_Z (Quality.meter (getUpdateIntervals medium)) < 600 - 300)%Q
  /\ (inject_Z (Quality.waveform (getUpdateIntervals medium)) < 600 - 300)%Q.
Proof.
  destruct (updates_are_throttled initial
              [playingAt medium 300; playingAt medium 600] []
              [(playingAt medium 600,
                updateVisuals (playingAt medium 600)
                  (after (updateVisuals (playingAt medium 300) initial)))]
              (playingAt medium 300) (playingAt medium 600)
              (updateVisuals (playingAt medium 300) initial)
              (updateVisuals (playingAt medium 600)
                 (after (updateVisuals (playingAt medium 300) initial)))
              eq_refl (or_introl eq_refl)) as [Hm Hw].
  split; [reflexivity|]. split; [reflexivity|].
  split; [apply Hm; reflexivity | apply Hw; reflexivity].
Defined.

End LoopProps.

(** ** Track navigation *)

Section TrackProps.
Import JS Tracks.
Local Open Scope Z_scope.

Lemma at_of_nat (tracks : list Track) (k : nat) :
  at_ tracks (Z.of_nat k) = nth_error tracks k.
Proof.
  unfold at_. destruct (Z.of_nat k <? 0) eqn:H; [apply Z.ltb_lt in H; lia|].
  now rewrite Nat2Z.id.
Qed.

(** With distinct ids, [findIndex] finds a track at its own position. *)
Lemma findIndexFrom_nth (tracks : list Track) :
  NoDup (map id tracks) ->
  forall (k : nat) (t : Track) (start : Z),
    nth_error tracks k = Some t ->
    findIndexFrom start tracks (id t) = start + Z.of_nat k.
Proof.
  induction tracks as [|u rest IH]; intros Hnd k t start Hk.
  - destruct k; discriminate Hk.
  - cbn [map] in Hnd. inversion Hnd as [|? ? Hnotin Hrest]; subst.
    cbn [findIndexFrom]. destruct k as [|k]; cbn [nth_error] in Hk.
    + injection Hk as ->. rewrite Z.eqb_refl. lia.
    + destruct (id u =? id t) eqn:E.
      * apply Z.eqb_eq in E. exfalso. apply Hnotin. rewrite E.
        apply in_map, (nth_error_In _ _ Hk).
      * rewrite (IH Hrest k t (start + 1) Hk). lia.
Qed.

Lemma findIndex_nth (tracks : list Track) (k : nat) (t : Track) :
  NoDup (map id tracks) -> nth_error tracks k = Some t ->
  findIndex tracks (id t) = Z.of_nat k.
Proof. intros Hnd Hk. unfold findIndex. now rewrite (findIndexFrom_nth _ Hnd k t 0 Hk). Qed.

Lemma atModulo_in_range (tracks : list Track) (k : nat) :
  (k < length tracks)%nat -> atModulo tracks (Z.of_nat k) = nth_error tracks k.
Proof.
  intros Hk. unfold atModulo.
  destruct (Z.of_nat (length tracks) =? 0) eqn:E; [apply Z.eqb_eq in E; lia|].
  rewrite Z.rem_small by lia. apply at_of_nat.
Qed.

Lemma next_position (tracks : list Track) (k : nat) :
  (k < length tracks)%nat ->
  atModulo tracks (Z.of_nat k + 1) = nth_error tracks (after_ (length tracks) k).
Proof.
  intros Hk. unfold after_.
  destruct (Nat.eqb_spec (S k) (length tracks)) as [E|E].
  - unfold atModulo.
    destruct (Z.of_nat (length tracks) =? 0) eqn:E0; [apply Z.eqb_eq in E0; lia|].
    replace (Z.of_nat k + 1) with (Z.of_nat (length tracks)) by lia.
    rewrite Z.rem_same by lia. apply (at_of_nat tracks 0).
  - replace (Z.of_nat k + 1) with (Z.of_nat (S k)) by lia.
    apply atModulo_in_range. lia.
Qed.

Lemma previous_position (tracks : list Track) (k : nat) :
  (k < length tracks)%nat ->
  atModulo tracks (Z.of_nat k - 1 + Z.of_nat (length tracks))
  = nth_error tracks (before_ (length tracks) k).
Proof.
  intros Hk. unfold before_.
  destruct (Nat.eqb_spec k 0) as [E|E].
  - subst k. replace (Z.of_nat 0 - 1 + Z.of_nat (length tracks))
      with (Z.of_nat (length tracks - 1)) by lia.
    apply atModulo_in_range. lia.
  - unfold atModulo.
    destruct (Z.of_nat (length tracks) =? 0) eqn:E0; [apply Z.eqb_eq in E0; lia|].
    replace (Z.of_nat k - 1 + Z.of_nat (length tracks))
      with (Z.of_nat (k - 1) + 1 * Z.of_nat (length tracks)) by lia.
    rewrite Z.rem_mod_nonneg by lia.
    rewrite Z.mod_add by lia.
    rewrite Z.mod_small by lia. apply at_of_nat.
Qed.

Lemma after_before (n k : nat) :
  (k < n)%nat ->
  (after_ n k < n)%nat /\ (before_ n k < n)%nat
  /\ before_ n (after_ n k) = k /\ after_ n (before_ n k) = k.
Proof.
  intros Hk. unfold after_, before_.
  destruct (Nat.eqb_spec (S k) n), (Nat.eqb_spec k 0); cbv iota;
    repeat split;
    repeat (match goal with
            | |- context [(?a =? ?b)%nat] => destruct (Nat.eqb_spec a b); cbv iota
            end);
    lia.
Qed.

(** X16. In a playlist with distinct ids and shuffle off, from a track of the
    playlist "next" and "previous" each give a track of the playlist, and
    each undoes the other: the previous of the next track, and the next of
    the previous one, is the track one started from.  The provider's
    [playNextTrack], at the end of a track, schedules the same next track
    as the player's "next". *)
Theorem next_and_previous_are_inverse :
  forall (allTracks : list Track) (current : Track) (random random' : Q),
    NoDup (map id allTracks) ->
    In current allTracks ->
    exists next previous : Track,
      getNextTrack (Some current) allTracks false random = Some next
      /\ getPreviousTrack (Some current) allTracks false random = Some previous
      /\ In next allTracks /\ In previous allTracks
      /\ getPreviousTrack (Some next) allTracks false random' = Some current
      /\ getNextTrack (Some previous) allTracks false random' = Some current
      /\ playNextTrack (Some current) allTracks = Some next.
Proof.
  intros allTracks current random random' Hnd Hin.
  destruct (In_nth_error _ _ Hin) as [k Hk].
  assert (Hlt : (k < length allTracks)%nat).
  { apply nth_error_Some. congruence. }
  destruct (after_before (length allTracks) k Hlt) as (Ha & Hb & Hba & Hab).
  destruct (nth_error allTracks (after_ (length allTracks) k)) as [next|] eqn:Hnext;
    [|apply nth_error_None in Hnext; lia].
  destruct (nth_error allTracks (before_ (length allTracks) k)) as [previous|] eqn:Hprev;
    [|apply nth_error_None in Hprev; lia].
  exists next, previous.
  cbn [getNextTrack getPreviousTrack playNextTrack].
  rewrite (findIndex_nth _ _ _ Hnd Hk), (findIndex_nth _ _ _ Hnd Hnext),
    (findIndex_nth _ _ _ Hnd Hprev).
  rewrite !next_position, !previous_position by assumption.
  rewrite Hba, Hab.
  repeat split; try assumption.
  - apply (nth_error_In _ _ Hnext).
  - apply (nth_error_In _ _ Hprev).
Qed.

Lemma next_and_previous_witness :
  exists next previous : Track,
    getNextTrack (Some {| id := 4 |}) [{| id := 1 |}; {| id := 2 |}; {| id := 4 |}]
      false 0%Q = Some next
    /\ getPreviousTrack (Some {| id := 4 |}) [{| id := 1 |}; {| id := 2 |}; {| id := 4 |}]
         false 0%Q = Some previous
    /\ In next [{| id := 1 |}; {| id := 2 |}; {| id := 4 |}]
    /\ In previous [{| id := 1 |}; {| id := 2 |}; {| id := 4 |}]
    /\ getPreviousTrack (Some next) [{| id := 1 |}; {| id := 2 |}; {| id := 4 |}]
         false 0%Q = Some {| id := 4 |}
    /\ getNextTrack (Some previous) [{| id := 1 |}; {| id := 2 |}; {| id := 4 |}]
         false 0%Q = Some {| id := 4 |}
    /\ playNextTrack (Some {| id := 4 |}) [{| id := 1 |}; {| id := 2 |}; {| id := 4 |}]
       = Some next.
Proof.
  apply (next_and_previous_are_inverse
           [{| id := 1 |}; {| id := 2 |}; {| id := 4 |}] {| id := 4 |} 0%Q 0%Q).
  - cbn. repeat constructor; cbn; intuition lia.
  - cbn. intuition.
Defined.

(** *** Shuffle *)

Lemma otherTracks_In (allTracks : list Track) (current t : Track) :
  In t (otherTracks allTracks current) <-> In t allTracks /\ id t <> id current.
Proof.
  unfold otherTracks. rewrite filter_In.
  destruct (Z.eqb_spec (id t) (id current)); cbn; intuition congruence.
Qed.

Lemma random_index (random : Q) (n : nat) :
  (0 <= random)%Q -> (random < 1)%Q -> (0 < n)%nat ->
  0 <= Math_floor (random * inject_Z (Z.of_nat n))%Q < Z.of_nat n.
Proof.
  intros H0 H1 Hn. unfold Math_floor.
  assert (Hpos : (0 < inject_Z (Z.of_nat n))%Q).
  { change 0%Q with (inject_Z 0). rewrite <- Zlt_Qlt. lia. }
  set (m := inject_Z (Z.of_nat n)) in *.
  split.
  - change 0 with (Qfloor 0). apply Qfloor_resp_le.
    apply Qmult_le_0_compat; [exact H0 | apply Qlt_le_weak, Hpos].
  - rewrite Zlt_Qlt. fold m.
    apply Qle_lt_trans with (random * m)%Q; [apply Qfloor_le|].
    assert (random * m < 1 * m)%Q by (apply Qmult_lt_compat_r; assumption).
    Lqa.lra.
Qed.

(** X17. With shuffle on and [Math.random()] in [[0,1)], "next" and
    "previous" never give the track that is playing: when the playlist
    has a track with another id they give one such track, and when it
    has none they give nothing and the player keeps its track. *)
Theorem shuffle_leaves_the_current_track :
  forall (allTracks : list Track) (current : Track) (random : Q),
    (0 <= random)%Q -> (random < 1)%Q ->
    getPreviousTrack (Some current) allTracks true random
    = getNextTrack (Some current) allTracks true random
    /\ ((exists other : Track, In other allTracks /\ id other <> id current) ->
        exists next : Track,
          getNextTrack (Some current) allTracks true random = Some next
          /\ In next allTracks /\ id next <> id current)
    /\ ((forall t : Track, In t allTracks -> id t = id current) ->
        getNextTrack (Some current) allTracks true random = None).
Proof.
  intros allTracks current random H0 H1.
  split; [reflexivity|]. cbn [getNextTrack]. unfold shuffled. split.
  - intros (other & Hin & Hid).
    assert (Ho : In other (otherTracks allTracks current))
      by (apply otherTracks_In; split; assumption).
    assert (Hn : (0 < length (otherTracks allTracks current))%nat).
    { destruct (otherTracks allTracks current); [destruct Ho | cbn; lia]. }
    pose proof (random_index random _ H0 H1 Hn) as [Hlo Hhi].
    set (i := Math_floor _) in *.
    rewrite <- (Z2Nat.id i Hlo), at_of_nat.
    destruct (nth_error (otherTracks allTracks current) (Z.to_nat i)) as [next|] eqn:E.
    + exists next. split; [reflexivity|].
      apply otherTracks_In, (nth_error_In _ _ E).
    + apply nth_error_None in E. lia.
  - intros Hall.
    assert (E : otherTracks allTracks current = []).
    { destruct (otherTracks allTracks current) as [|t rest] eqn:E; [reflexivity|].
      assert (Ht : In t (otherTracks allTracks current)) by (rewrite E; left; reflexivity).
      apply otherTracks_In in Ht. destruct Ht as [Hin Hid].
      elim Hid. apply Hall, Hin. }
    rewrite E. cbn [length]. unfold at_.
    destruct (Math_floor _ <? 0); [reflexivity|].
    now destruct (Z.to_nat _).
Qed.

Lemma shuffle_witness :
  (0 <= 3 # 4)%Q /\ (3 # 4 < 1)%Q
  /\ getNextTrack (Some {| id := 2 |}) [{| id := 1 |}; {| id := 2 |}; {| id := 4 |}]
       true (3 # 4) = Some {| id := 4 |}.
Proof.
  assert (H0 : (0 <= 3 # 4)%Q) by (vm_compute; congruence).
  assert (H1 : (3 # 4 < 1)%Q) by reflexivity.
  split; [exact H0 | split; [exact H1|]].
  destruct (shuffle_leaves_the_current_track
              [{| id := 1 |}; {| id := 2 |}; {| id := 4 |}] {| id := 2 |} (3 # 4) H0 H1)
    as (_ & Hsome & _).
  destruct Hsome as (next & Hnext & _).
  - exists {| id := 1 |}. split; [left; reflexivity | cbn; lia].
  - rewrite Hnext. vm_compute in Hnext. symmetry. exact Hnext.
Defined.

(** *** With no current track, and the provider's own "next" *)

(** With no current track both directions give the first track. *)
Lemma first_track_without_current (allTracks : list Track) (shuffleMode : bool)
    (random : Q) :
  getNextTrack None allTracks shuffleMode random = nth_error allTracks 0
  /\ getPreviousTrack None allTracks shuffleMode random = nth_error allTracks 0.
Proof. split; reflexivity. Qed.

(** *** The release spotlight *)

(** X18. Over a non-empty list of releases the two index steps keep the index
    within the list, wrap at the ends, and undo each other. *)
Theorem release_index_stays_in_range :
  forall (releases : nat) (prev : Z),
    0 <= prev < Z.of_nat releases ->
    exists up down : Z,
      nextRelease releases prev = Some up
      /\ prevRelease releases prev = Some down
      /\ 0 <= up < Z.of_nat releases /\ 0 <= down < Z.of_nat releases
      /\ up = (if prev + 1 =? Z.of_nat releases then 0 else prev + 1)
      /\ down = (if prev =? 0 then Z.of_nat releases - 1 else prev - 1)
      /\ prevRelease releases up = Some prev
      /\ nextRelease releases down = Some prev.
Proof.
  intros releases prev Hp. unfold nextRelease, prevRelease.
  set (n := Z.of_nat releases) in *.
  destruct (n =? 0) eqn:E0; [apply Z.eqb_eq in E0; lia|].
  assert (Hrem : forall x, 0 <= x -> Z.rem x n = x mod n).
  { intros x Hx. apply Z.rem_mod_nonneg; lia. }
  exists (Z.rem (prev + 1) n), (Z.rem (prev - 1 + n) n).
  rewrite !Hrem by lia.
  assert (Hup : (prev + 1) mod n = if prev + 1 =? n then 0 else prev + 1).
  { destruct (Z.eqb_spec (prev + 1) n) as [E|Hne];
      [rewrite E; apply Z_mod_same_full | apply Z.mod_small; lia]. }
  assert (Hdown : (prev - 1 + n) mod n = if prev =? 0 then n - 1 else prev - 1).
  { destruct (Z.eqb_spec prev 0) as [E|Hne].
    - rewrite Z.mod_small by lia. lia.
    - replace (prev - 1 + n) with (prev - 1 + 1 * n) by lia.
      rewrite Z.mod_add by lia. apply Z.mod_small. lia. }
  rewrite Hup, Hdown.
  assert (Hu : 0 <= (if prev + 1 =? n then 0 else prev + 1) < n)
    by (destruct (Z.eqb_spec (prev + 1) n); lia).
  assert (Hd : 0 <= (if prev =? 0 then n - 1 else prev - 1) < n)
    by (destruct (Z.eqb_spec prev 0); lia).
  repeat split; try reflexivity; try lia.
  - rewrite Hrem by lia. f_equal.
    destruct (Z.eqb_spec (prev + 1) n) as [E|E].
    + replace (0 - 1 + n) with prev by lia. apply Z.mod_small. lia.
    + replace (prev + 1 - 1 + n) with (prev + 1 * n) by lia.
      rewrite Z.mod_add by lia. apply Z.mod_small. lia.
  - rewrite Hrem by lia. f_equal.
    destruct (Z.eqb_spec prev 0) as [E|E].
    + replace (n - 1 + 1) with n by lia. rewrite Z_mod_same_full. lia.
    + replace (prev - 1 + 1) with prev by lia. apply Z.mod_small. lia.
Qed.

Lemma release_index_witness :
  exists up down : Z,
    nextRelease 3 2 = Some up /\ prevRelease 3 2 = Some down
    /\ 0 <= up < 3 /\ 0 <= down < 3
    /\ up = 0 /\ down = 1
    /\ prevRelease 3 up = Some 2 /\ nextRelease 3 down = Some 2.
Proof. apply (release_index_stays_in_range 3 2). cbn. lia. Defined.

End TrackProps.

(** ** Spectrum columns *)

Section ColumnProps.
Import JS Spectrum Columns.
Local Open Scope Q_scope.

Lemma binValue_range (frequencyData : list byte) (j : Z) :
  (0 <= binValue frequencyData j <= 255)%Z.
Proof. unfold binValue. destruct (index _ _); [apply u8_range | lia]. Qed.

Lemma binValue_at (frequencyData : list byte) (k : nat) (b : byte) :
  nth_error frequencyData k = Some b -> binValue frequencyData (Z.of_nat k) = u8 b.
Proof.
  intros Hk. unfold binValue, index.
  destruct (Z.of_nat k <? 0)%Z eqn:E; [apply Z.ltb_lt in E; lia|].
  now rewrite Nat2Z.id, Hk.
Qed.

Lemma fold_sum_from (g : nat -> Z) (ks : list nat) :
  forall acc : Z,
    fold_left (fun sum k => (sum + g k)%Z) ks acc
    = (acc + fold_left (fun sum k => (sum + g k)%Z) ks 0)%Z.
Proof.
  induction ks as [|k ks IH]; intros acc; cbn [fold_left]; [lia|].
  rewrite IH, (IH (0 + g k)%Z). lia.
Qed.

Lemma fold_sum_bounds (g : nat -> Z) (ks : list nat) :
  (forall k, 0 <= g k <= 255)%Z ->
  (0 <= fold_left (fun sum k => (sum + g k)%Z) ks 0
   <= 255 * Z.of_nat (length ks))%Z.
Proof.
  intros Hg. induction ks as [|k ks IH]; cbn [fold_left length]; [lia|].
  rewrite fold_sum_from. specialize (Hg k). lia.
Qed.

Lemma fold_sum_zero (g : nat -> Z) (ks : list nat) :
  (forall k, 0 <= g k <= 255)%Z ->
  fold_left (fun sum k => (sum + g k)%Z) ks 0%Z = 0%Z
  <-> forall k, In k ks -> g k = 0%Z.
Proof.
  intros Hg. induction ks as [|k ks IH]; cbn [fold_left In].
  - split; [intros _ k [] | reflexivity].
  - rewrite fold_sum_from.
    pose proof (fold_sum_bounds g ks Hg) as Hb. pose proof (Hg k) as Hk.
    split.
    + intros Hsum j [<- | Hj]; [lia|]. apply IH; [lia | exact Hj].
    + intros Hall. rewrite (Hall k) by (left; reflexivity).
      assert (E : fold_left (fun sum k => (sum + g k)%Z) ks 0%Z = 0%Z)
        by (apply IH; intros j Hj; apply Hall; right; exact Hj).
      lia.
Qed.

Lemma sumBins_bounds (frequencyData : list byte) (s e : Z) :
  (0 <= sumBins frequencyData s e <= 255 * Z.max 1 (e - s))%Z.
Proof.
  unfold sumBins.
  pose proof (fold_sum_bounds (fun k => binValue frequencyData (s + Z.of_nat k))
                (seq 0 (Z.to_nat (e - s)))
                (fun k => binValue_range frequencyData _)) as H.
  rewrite length_seq in H. lia.
Qed.

Lemma sumBins_zero (frequencyData : list byte) (s e : Z) :
  sumBins frequencyData s e = 0%Z
  <-> forall j, (s <= j < e)%Z -> binValue frequencyData j = 0%Z.
Proof.
  unfold sumBins.
  rewrite (fold_sum_zero (fun k => binValue frequencyData (s + Z.of_nat k)))
    by (intros k; apply binValue_range).
  split.
  - intros H j Hj. specialize (H (Z.to_nat (j - s))).
    replace (s + Z.of_nat (Z.to_nat (j - s)))%Z with j in H by lia.
    apply H, in_seq. lia.
  - intros H k Hk. apply in_seq in Hk. apply H. lia.
Qed.

(** The scaled average of a column, before the clamp. *)
Lemma column_scaling (sum binCount : Z) (intensity : Q) :
  (1 <= binCount)%Z -> (0 <= sum <= 255 * binCount)%Z -> 0 <= intensity ->
  0 <= (inject_Z sum / inject_Z binCount / 255) * 100 * (intensity / 50)
  /\ (inject_Z sum / inject_Z binCount / 255) * 100 * (intensity / 50) <= 2 * intensity
  /\ (0 < intensity ->
      ((inject_Z sum / inject_Z binCount / 255) * 100 * (intensity / 50) == 0
       <-> sum = 0%Z)).
Proof.
  intros Hc Hs Hi.
  assert (Hcq : 0 < inject_Z binCount).
  { change 0 with (inject_Z 0). rewrite <- Zlt_Qlt. lia. }
  assert (Hs0 : 0 <= inject_Z sum).
  { change 0 with (inject_Z 0). rewrite <- Zle_Qle. lia. }
  assert (Hs1 : inject_Z sum <= 255 * inject_Z binCount).
  { change 255 with (inject_Z 255). rewrite <- inject_Z_mult, <- Zle_Qle. lia. }
  set (avg := inject_Z sum / inject_Z binCount).
  assert (Ha0 : 0 <= avg).
  { subst avg. apply Qle_shift_div_l; [exact Hcq | Lqa.lra]. }
  assert (Ha1 : avg <= 255).
  { subst avg. apply Qle_shift_div_r; [exact Hcq | Lqa.lra]. }
  assert (Hz : avg == 0 <-> sum = 0%Z).
  { subst avg. split.
    - intros E.
      assert (E' : inject_Z sum == 0).
      { rewrite <- (Qmult_div_r (inject_Z sum) (inject_Z binCount)) by Lqa.lra.
        unfold Qdiv in *. rewrite E. ring. }
      unfold Qeq in E'. cbn in E'. lia.
    - intros ->. unfold Qdiv. change (inject_Z 0) with 0. ring. }
  clearbody avg.
  assert (Hx : (avg / 255) * 100 * (intensity / 50) == (avg * intensity) * (2 # 255))
    by field.
  assert (Hp0 : 0 <= avg * intensity) by (apply Qmult_le_0_compat; assumption).
  assert (Hp1 : avg * intensity <= 255 * intensity)
    by (apply Qmult_le_compat_r; assumption).
  rewrite Hx. split; [Lqa.lra | split; [Lqa.lra|]].
  intros Hpos. rewrite <- Hz. split.
  - intros E.
    assert (E' : avg * intensity == 0) by Lqa.lra.
    apply Qmult_integral in E'. destruct E' as [E' | E']; [exact E' | Lqa.lra].
  - intros ->. ring.
Qed.

Lemma columnValue_spec (frequencyData : list byte) (intensity : Q) (s e : Z) :
  0 <= intensity ->
  0 <= columnValue frequencyData intensity s e <= 100
  /\ columnValue frequencyData intensity s e <= 2 * intensity
  /\ (0 < intensity ->
      (columnValue frequencyData intensity s e == 0
       <-> sumBins frequencyData s e = 0%Z)).
Proof.
  intros Hi. unfold columnValue.
  pose proof (sumBins_bounds frequencyData s e) as Hs.
  destruct (column_scaling (sumBins frequencyData s e) (Z.max 1 (e - s)) intensity
              ltac:(lia) Hs Hi) as (H0 & H1 & Hz).
  set (x := _ * 100 * (intensity / 50)) in *. clearbody x.
  split; [|split].
  - clamp_cases. Lqa.lra.
  - clamp_cases. Lqa.lra.
  - intros Hpos. rewrite <- (Hz Hpos). clamp_cases. split; intros; Lqa.lra.
Qed.

Lemma all_bins_zero (frequencyData : list byte) :
  Forall (fun b => u8 b = 0%Z) frequencyData
  <-> forall j, (0 <= j < Z.of_nat (length frequencyData))%Z ->
                binValue frequencyData j = 0%Z.
Proof.
  rewrite Forall_forall. split.
  - intros H j Hj. destruct (index_defined frequencyData j Hj) as [b Hb].
    unfold binValue. rewrite Hb. apply H.
    unfold index in Hb. destruct (j <? 0)%Z; [discriminate|].
    apply (nth_error_In _ _ Hb).
  - intros H b Hb. destruct (In_nth_error _ _ Hb) as [k Hk].
    rewrite <- (binValue_at _ _ _ Hk). apply H.
    assert (k < length frequencyData)%nat by (apply nth_error_Some; congruence).
    lia.
Qed.

Lemma binValue_outside (frequencyData : list byte) (j : Z) :
  (j < 0 \/ Z.of_nat (length frequencyData) <= j)%Z -> binValue frequencyData j = 0%Z.
Proof.
  intros Hj. unfold binValue, index.
  destruct (j <? 0)%Z eqn:E; [reflexivity|].
  apply Z.ltb_ge in E.
  destruct (nth_error frequencyData (Z.to_nat j)) eqn:Hn; [|reflexivity].
  assert (Z.to_nat j < length frequencyData)%nat by (apply nth_error_Some; congruence).
  lia.
Qed.



(** *** The fade *)

Lemma fade_step_monotone (f g : Q) :
  f <= g -> Math_max 0 (f * (95 # 100) - 1) <= Math_max 0 (g * (95 # 100) - 1).
Proof. intros H. clamp_cases. Lqa.lra. Qed.

Lemma fade_step_non_negative (f : Q) : 0 <= Math_max 0 (f * (95 # 100) - 1).
Proof. clamp_cases. Lqa.lra. Qed.

Lemma decayColumns_spec (columns : list Q) (top : Q) :
  Forall (fun f => f <= top) columns ->
  Forall (fun f => 0 <= f <= Math_max 0 (top * (95 # 100) - 1))
         (fst (decayColumns columns))
  /\ (snd (decayColumns columns) = true
      <-> Forall (fun f => f == 0) (fst (decayColumns columns))).
Proof.
  intros Hall. unfold decayColumns. cbn [fst snd]. split.
  - apply Forall_forall. intros v Hv. apply in_map_iff in Hv.
    destruct Hv as (f & <- & Hf).
    rewrite Forall_forall in Hall. specialize (Hall f Hf).
    split; [apply fade_step_non_negative | apply fade_step_monotone, Hall].
  - rewrite forallb_forall, Forall_forall.
    split; intros H f Hf; [apply Qeq_bool_iff | apply Qeq_bool_iff]; apply H, Hf.
Qed.

Lemma fade_clears (n : nat) :
  forall (k : nat) (columns : list Q),
    Forall (fun f => f <= columnAfter k 100) columns ->
    columnAfter (k + n) 100 == 0 -> (0 < n)%nat ->
    snd (fade n columns) = true
    /\ Forall (fun f => f == 0) (fst (fade n columns)).
Proof.
  induction n as [|n IH]; intros k columns Hall Hzero Hn; [lia|].
  cbn [fade].
  destruct (decayColumns_spec columns _ Hall) as [Hstep Hclear].
  change (Math_max 0 (columnAfter k 100 * (95 # 100) - 1))
    with (columnAfter (S k) 100) in Hstep.
  destruct (decayColumns columns) as [columns' cleared]. cbn [fst snd] in *.
  destruct cleared.
  - cbn [fst snd]. split; [reflexivity | apply Hclear; reflexivity].
  - destruct n as [|n].
    + exfalso. replace (k + 1)%nat with (S k) in Hzero by lia.
      assert (Hall0 : Forall (fun f => f == 0) columns').
      { eapply Forall_impl; [|exact Hstep]. cbv beta. intros f Hf.
        rewrite Hzero in Hf. Lqa.lra. }
      apply Hclear in Hall0. discriminate.
    + apply (IH (S k)).
      * eapply Forall_impl; [|exact Hstep]. cbv beta. intros f Hf. apply Hf.
      * replace (S k + S n)%nat with (k + S (S n))%nat by lia. exact Hzero.
      * lia.
Qed.

(** X20. When the analyser is switched off with its columns at 100 or less,
    the fade has cleared every column, and its interval, by the 35th
    firing: 1.75 seconds.  From a full column it takes all 35. *)
Theorem fade_clears_within_35_firings :
  forall columns : list Q,
    Forall (fun f => f <= 100) columns ->
    snd (fade 35 columns) = true
    /\ Forall (fun f => f == 0) (fst (fade 35 columns))
    /\ snd (fade 34 (100 :: columns)) = false.
Proof.
  intros columns Hall. split; [|split].
  - apply (fade_clears 35 0 columns Hall); [vm_compute; reflexivity | lia].
  - apply (fade_clears 35 0 columns Hall); [vm_compute; reflexivity | lia].
  - assert (G : forall (n k : nat) (cs : list Q),
               ~ columnAfter (k + n) 100 == 0 ->
               snd (fade n (columnAfter k 100 :: cs)) = false).
    { induction n as [|n IH]; intros k cs Hnz; [reflexivity|].
      cbn [fade decayColumns map forallb].
      change (Math_max 0 (columnAfter k 100 * (95 # 100) - 1))
        with (columnAfter (S k) 100).
      destruct (Qeq_bool (columnAfter (S k) 100) 0) eqn:E.
      - apply Qeq_bool_iff in E. exfalso.
        assert (Hz : forall m, columnAfter (S k + m) 100 == 0).
        { induction m as [|m IHm].
          - now rewrite Nat.add_0_r.
          - replace (S k + S m)%nat with (S (S k + m)) by lia.
            cbn [columnAfter]. rewrite IHm. reflexivity. }
        apply Hnz. replace (k + S n)%nat with (S k + n)%nat by lia. apply Hz.
      - cbn [andb]. apply IH.
        replace (S k + n)%nat with (k + S n)%nat by lia. exact Hnz. }
    apply (G 34%nat 0%nat columns). vm_compute. discriminate.
Qed.

Lemma fade_witness :
  snd (fade 35 [100; 40; 0]) = true
  /\ Forall (fun f => f == 0) (fst (fade 35 [100; 40; 0]))
  /\ snd (fade 34 [100; 100; 40; 0]) = false.
Proof.
  apply (fade_clears_within_35_firings [100; 40; 0]).
  repeat constructor; vm_compute; congruence.
Defined.

(** *** Characters *)

(** X21. Out of a non-empty set of characters [getAsciiChar] always returns
    one of the set, whatever the value: the first one for a value of 0 or
    less, the last one for 100 or more. *)
Theorem getAsciiChar_in_chars :
  forall (A : Type) (value : Q) (chars : list A),
    chars <> [] ->
    exists c : A,
      getAsciiChar value chars = Some c /\ In c chars
      /\ (value <= 0 -> nth_error chars 0 = Some c)
      /\ (100 <= value -> nth_error chars (length chars - 1) = Some c).
Proof.
  intros A value chars Hne. unfold getAsciiChar.
  assert (Hlen : (0 < length chars)%nat) by (destruct chars; [congruence | cbn; lia]).
  set (last := (Z.of_nat (length chars) - 1)%Z).
  assert (Hlast : (0 <= last)%Z) by (subst last; lia).
  assert (Hlq : 0 <= inject_Z last) by (apply inject_Z_non_negative, Hlast).
  set (index := Math_floor (value / 100 * inject_Z last)).
  set (i := Z.to_nat (Z.max 0 (Z.min last index))).
  assert (Hi : (i < length chars)%nat) by (subst i last; lia).
  destruct (nth_error chars i) as [c|] eqn:Hc; [|apply nth_error_None in Hc; lia].
  exists c. split; [reflexivity|]. split; [apply (nth_error_In _ _ Hc)|]. split.
  - intros Hv.
    assert (Hidx : (index <= 0)%Z).
    { subst index. apply floor_at_most. change (inject_Z 0) with 0.
      assert (value / 100 <= 0) by qlra.
      set (a := value / 100) in *. clearbody a.
      set (l := inject_Z last) in *. clearbody l. Lqa.nra. }
    replace 0%nat with i by (subst i; lia). exact Hc.
  - intros Hv.
    assert (Hidx : (last <= index)%Z).
    { subst index. apply floor_at_least.
      assert (1 <= value / 100) by qlra.
      set (a := value / 100) in *. clearbody a.
      set (l := inject_Z last) in *. clearbody l. Lqa.nra. }
    replace (length chars - 1)%nat with i by (subst i last; lia). exact Hc.
Qed.

Lemma getAsciiChar_witness :
  exists c : nat,
    getAsciiChar 50 [0; 1; 2; 3; 4; 5; 6; 7]%nat = Some c
    /\ In c [0; 1; 2; 3; 4; 5; 6; 7]%nat
    /\ (50 <= 0 -> nth_error [0; 1; 2; 3; 4; 5; 6; 7]%nat 0 = Some c)
    /\ (100 <= 50 ->
        nth_error [0; 1; 2; 3; 4; 5; 6; 7]%nat
                  (length [0; 1; 2; 3; 4; 5; 6; 7]%nat - 1) = Some c).
Proof.
  apply (getAsciiChar_in_chars nat 50 [0; 1; 2; 3; 4; 5; 6; 7]%nat). discriminate.
Defined.

End ColumnProps.

(** ** Frequency labels *)

Section LabelProps.
Import Spectrum Columns.
Local Open Scope R_scope.

Lemma log10_pow (x : R) : Math_log10 (Math_pow 10 x) = x.
Proof.
  unfold Math_log10, Math_pow, Rpower. rewrite ln_exp.
  field. pose proof ln_10_positive. Lra.lra.
Qed.

Lemma log10_increasing (x y : R) : 0 < x -> x < y -> Math_log10 x < Math_log10 y.
Proof.
  intros Hx Hxy. unfold Math_log10.
  apply Rmult_lt_compat_r; [apply Rinv_0_lt_compat, ln_10_positive|].
  apply ln_increasing; assumption.
Qed.

Lemma logRange_positive : 0 < Math_log10 MAX_FREQ - Math_log10 MIN_FREQ.
Proof.
  pose proof (log10_increasing MIN_FREQ MAX_FREQ) as H.
  unfold MIN_FREQ, MAX_FREQ in *. Lra.lra.
Qed.

Lemma label_position_increasing (f g : R) :
  0 < f -> f < g -> getFreqLabelPosition f < getFreqLabelPosition g.
Proof.
  intros Hf Hfg. unfold getFreqLabelPosition. cbv zeta.
  pose proof logRange_positive as Hr.
  pose proof (log10_increasing f g Hf Hfg) as Hl.
  apply Rmult_lt_compat_r; [Lra.lra|].
  apply Rmult_lt_compat_r; [apply Rinv_0_lt_compat, Hr | Lra.lra].
Qed.

Lemma label_position_first : getFreqLabelPosition 20 = 0.
Proof.
  unfold getFreqLabelPosition. cbv zeta. unfold MIN_FREQ.
  replace (Math_log10 20 - Math_log10 20) with 0 by ring.
  unfold Rdiv. ring.
Qed.

Lemma label_position_last : getFreqLabelPosition 22000 = 100.
Proof.
  unfold getFreqLabelPosition. cbv zeta.
  pose proof logRange_positive as Hr. unfold MAX_FREQ, MIN_FREQ in *.
  field. Lra.lra.
Qed.

(** X22. The frequency labels stand on the scale of the columns: the position
    computed for the frequency of column [i] is [i/139] of the width, the
    position grows with the frequency, and each of the ten labels, from
    "20" at the left edge to "20k", stands within the strip. *)
Theorem labels_line_up_with_columns :
  (forall i : nat,
      getFreqLabelPosition (columnFrequency i) = INR i / 139 * 100)
  /\ (forall f g : R, 0 < f < g -> getFreqLabelPosition f < getFreqLabelPosition g)
  /\ getFreqLabelPosition 20 = 0
  /\ Forall (fun f => 0 <= getFreqLabelPosition f < 100) freqLabels.
Proof.
  split; [|split; [|split]].
  - intros i. unfold getFreqLabelPosition, columnFrequency. cbv zeta.
    rewrite log10_pow, INR_139.
    pose proof logRange_positive as Hr. field. Lra.lra.
  - intros f g [Hf Hfg]. apply label_position_increasing; assumption.
  - exact label_position_first.
  - assert (H : forall f, 20 <= f < 22000 -> 0 <= getFreqLabelPosition f < 100).
    { intros f [Hlo Hhi]. rewrite <- label_position_first, <- label_position_last.
      split.
      - destruct Hlo as [Hlt | <-]; [|apply Rle_refl].
        left. apply label_position_increasing; Lra.lra.
      - apply label_position_increasing; Lra.lra. }
    unfold freqLabels.
    repeat (apply Forall_cons; [apply H; Lra.lra|]). apply Forall_nil.
Qed.

End LabelProps.

(** ** Meter segments *)

Section DisplayProps.
Import JS Quality Display.
Local Open Scope Q_scope.

Lemma segmentHeight_positive (q : quality) : 0 < segmentHeight q.
Proof. destruct q; reflexivity. Qed.

Lemma segmentLevel_antitone (q : quality) (i j : Z) :
  (i <= j)%Z -> segmentLevel q j <= segmentLevel q i.
Proof.
  intros Hij. unfold segmentLevel.
  apply Qmult_le_compat_r; [|apply Qlt_le_weak, segmentHeight_positive].
  rewrite <- Zle_Qle. lia.
Qed.

(** X23. The segments of a meter light from the bottom up without a gap: when
    a segment is lit, so is every segment below it.  The top segment is
    lit exactly at a level of 100 or more, and below the height of one
    segment none is lit. *)
Theorem segments_light_from_the_bottom :
  forall (q : quality) (level : Q),
    (forall i j : Z, (i <= j)%Z ->
        isActive q level i = true -> isActive q level j = true)
    /\ (isActive q level 0 = true <-> 100 <= level)
    /\ (level < segmentHeight q ->
        forall i : Z, (0 <= i < getSegmentCount q)%Z -> isActive q level i = false).
Proof.
  intros q level. unfold isActive. split; [|split].
  - intros i j Hij Hi. apply Qle_bool_iff in Hi. apply Qle_bool_iff.
    pose proof (segmentLevel_antitone q i j Hij). Lqa.lra.
  - rewrite Qle_bool_iff.
    assert (E : segmentLevel q 0 == 100) by (destruct q; reflexivity).
    rewrite E. reflexivity.
  - intros Hlow i Hi.
    destruct (Qle_bool (segmentLevel q i) level) eqn:E; [|reflexivity].
    apply Qle_bool_iff in E. exfalso.
    pose proof (segmentLevel_antitone q i (getSegmentCount q - 1) ltac:(lia)) as H.
    assert (E1 : segmentLevel q (getSegmentCount q - 1) == segmentHeight q).
    { unfold segmentLevel.
      replace (getSegmentCount q - (getSegmentCount q - 1))%Z with 1%Z by lia.
      change (inject_Z 1) with 1. ring. }
    Lqa.lra.
Qed.

End DisplayProps.

(** ** The zoom ladder *)

Section ZoomProps.
Import JS Scope Zoom.
Local Open Scope Q_scope.

Ltac on_each_level H :=
  cbn [In levels amplitudeLevels] in H;
  repeat (destruct H as [H | H]; [subst | ]); try contradiction.

Lemma step_onLadder (s : state) (e : event) : onLadder s -> onLadder (step s e).
Proof.
  intros [Hz Ha].
  assert (Zin : onLadder (zoomIn s)).
  { unfold onLadder, zoomIn. destruct s as [z p a d x]. cbn [zoomLevel amplitudeZoom] in *.
    split; [|destruct (_ <? _)%Z; exact Ha].
    on_each_level Hz; vm_compute; tauto. }
  assert (Zout : onLadder (zoomOut s)).
  { unfold onLadder, zoomOut. destruct s as [z p a d x]. cbn [zoomLevel amplitudeZoom] in *.
    split.
    - on_each_level Hz; vm_compute; tauto.
    - destruct (_ <? _)%Z; [destruct (le _ _)|]; exact Ha. }
  assert (Ain : onLadder (amplitudeZoomIn s)).
  { unfold onLadder, amplitudeZoomIn. destruct s as [z p a d x].
    cbn [zoomLevel amplitudeZoom] in *.
    split; [destruct (_ <? _)%Z; exact Hz|].
    on_each_level Ha; vm_compute; tauto. }
  assert (Aout : onLadder (amplitudeZoomOut s)).
  { unfold onLadder, amplitudeZoomOut. destruct s as [z p a d x].
    cbn [zoomLevel amplitudeZoom] in *.
    split; [destruct (_ <? _)%Z; exact Hz|].
    on_each_level Ha; vm_compute; tauto. }
  destruct e; cbn [step]; try assumption.
  - split; cbn; tauto.
  - unfold handleMouseDown. destruct (gt _ _); split; assumption.
  - unfold handleMouseMove. destruct (_ && _); split; assumption.
  - unfold handleGlobalMouseMove. destruct (isDragging s); split; assumption.
  - split; assumption.
  - unfold handleGlobalMouseUp. destruct (isDragging s); split; assumption.
  - unfold handleWheel. destruct shiftKey, (lt _ _); assumption.
Qed.

(** X24. Whatever the user does, the zoom is one of the twelve levels and the
    amplitude zoom one of the four.  On the ladder, zooming out undoes
    zooming in and zooming in undoes zooming out, except at the ends,
    where the step beyond the ladder changes nothing. *)
Theorem zoom_steps_walk_the_ladder :
  forall s : state,
    reachable s ->
    onLadder s
    /\ (if Qeq_bool (zoomLevel s) 16 then zoomIn s = s
        else zoomLevel (zoomOut (zoomIn s)) = zoomLevel s
             /\ zoomLevel s < zoomLevel (zoomIn s))
    /\ (if Qeq_bool (zoomLevel s) (5 # 10000) then zoomOut s = s
        else zoomLevel (zoomIn (zoomOut s)) = zoomLevel s
             /\ zoomLevel (zoomOut s) < zoomLevel s).
Proof.
  intros s [events ->].
  assert (H : onLadder (run initial events)).
  { unfold run. rewrite <- fold_left_rev_right.
    induction (rev events) as [|e es IH]; cbn [fold_right].
    - split; cbn; tauto.
    - apply step_onLadder, IH. }
  split; [exact H|].
  destruct H as [Hz _]. destruct (run initial events) as [z p a d x].
  cbn [zoomLevel] in *.
  split; on_each_level Hz; vm_compute; repeat split; reflexivity.
Qed.

Lemma zoom_steps_witness :
  onLadder (run initial [ClickZoomIn; Wheel true 1; Wheel false (-1)])
  /\ zoomLevel (run initial [ClickZoomIn; Wheel true 1; Wheel false (-1)]) = 4.
Proof.
  split; [|reflexivity].
  refine (proj1 (zoom_steps_walk_the_ladder
                   (run initial [ClickZoomIn; Wheel true 1; Wheel false (-1)]) _)).
  exists [ClickZoomIn; Wheel true 1; Wheel false (-1)]. reflexivity.
Defined.

End ZoomProps.

(** ** The bins behind the waveform bars *)

Section WaveformBins.
Import JS Quality Waveform.
Local Open Scope Q_scope.

(** X25. On a non-empty buffer every waveform bar shows a bin of the buffer:
    bar [i] reads bin [i * step] with [step] the whole quotient of the
    buffer length by the bar count, an index inside the buffer, so that
    the fallback for a missing bin is never taken. *)
Theorem bars_read_bins_of_the_buffer :
  forall (frequencyData : list byte) (q : quality) (waveformBars : list Q) (i : nat),
    frequencyData <> [] ->
    (i < getWaveformBars q)%nat ->
    exists b : byte,
      nth_error frequencyData (i * (length frequencyData / getWaveformBars q))
      = Some b
      /\ nth_error (updateWaveform frequencyData q waveformBars) i
         = Some (Math_min 100 (Math_max 5 ((inject_Z (u8 b) / 255) * 80))).
Proof.
  intros fd q bars i Hne Hi. unfold updateWaveform.
  assert (Hlen : (0 < length fd)%nat) by (destruct fd; [congruence | cbn; lia]).
  assert (E : (0 <? length fd)%nat = true) by (apply Nat.ltb_lt, Hlen).
  rewrite E.
  assert (Hbars : (0 < getWaveformBars q)%nat) by lia.
  set (n := getWaveformBars q) in *.
  assert (Hstep : Math_floor (inject_Z (Z.of_nat (length fd)) / inject_Z (Z.of_nat n))
                  = Z.of_nat (length fd / n)).
  { rewrite floor_of_quotient, Nat2Z.inj_div. reflexivity. }
  rewrite Hstep.
  assert (Hin : (i * (length fd / n) < length fd)%nat).
  { pose proof (Nat.Div0.mul_div_le (length fd) n) as Hq.
    destruct (Nat.eq_dec (length fd / n) 0) as [E0 | E0]; [rewrite E0; lia|].
    assert (i * (length fd / n) < n * (length fd / n))%nat
      by (apply Nat.mul_lt_mono_pos_r; lia).
    lia. }
  destruct (nth_error fd (i * (length fd / n))) as [b|] eqn:Hb;
    [|apply nth_error_None in Hb; lia].
  exists b. split; [reflexivity|].
  rewrite nth_error_map, nth_error_seq.
  assert (Ei : (i <? n)%nat = true) by (apply Nat.ltb_lt, Hi).
  rewrite Ei. cbn [option_map Nat.add]. unfold bar.
  replace (Z.of_nat i * Z.of_nat (length fd / n))%Z
    with (Z.of_nat (i * (length fd / n))) by lia.
  unfold index.
  destruct (Z.of_nat _ <? 0)%Z eqn:Hneg; [apply Z.ltb_lt in Hneg; lia|].
  rewrite Nat2Z.id, Hb. reflexivity.
Qed.

Lemma bars_read_bins_witness :
  exists b : byte,
    nth_error [x00; x40; x80; xff] (1 * (length [x00; x40; x80; xff] / getWaveformBars low))
    = Some b
    /\ nth_error (updateWaveform [x00; x40; x80; xff] low []) 1
       = Some (Math_min 100 (Math_max 5 ((inject_Z (u8 b) / 255) * 80))).
Proof.
  apply (bars_read_bins_of_the_buffer [x00; x40; x80; xff] low [] 1).
  - discriminate.
  - cbn. lia.
Defined.

End WaveformBins.

(** ** The buffers the provider delivers *)

Section DeliveryProps.
Import JS Quality Provider Delivery Spectrum.

Lemma step_sized (st : audioState) (e : event) : sized st -> sized (step st e).
Proof.
  intros (Hlen & Hin & Han). destruct e as [created | q | playing td fd]; cbn [step].
  - unfold initializeAudioContext. destruct (analyser st) eqn:E.
    + unfold sized. rewrite E. auto.
    + destruct created; unfold sized; cbn [audioData frequencyData analyser].
      * repeat split; [exact Hlen | exact Hin | cbn; tauto].
      * rewrite E. auto.
  - unfold sized, updateQualitySettings, new_Uint8Array.
    cbn [audioData frequencyData analyser]. rewrite !repeat_length.
    split; [reflexivity|]. split; [destruct q; cbn; tauto|].
    destruct (analyser st); [destruct q; cbn; tauto | exact I].
  - unfold updateAudioData. destruct (analyser st) as [fftSize|] eqn:E.
    + destruct playing.
      * unfold sized. cbn [audioData frequencyData analyser].
        rewrite !length_map, !length_seq. auto.
      * unfold sized. rewrite E. auto.
    + unfold sized. rewrite E. auto.
Qed.

(** X26. Whatever the order of the starts of playback, the tier switches and
    the firings of the update interval, the two buffers that the
    provider hands to the displays have one length, and it is 32, 64, 128
    or 256: a length for which the spectrum columns cover every bin.  The
    length need not be the one configured for the tier in force: a switch
    to "low" before the first start of playback is followed by buffers
    of 64 bytes, not 32. *)
Theorem delivered_buffers_are_sized :
  (forall events : list event,
      sized (run events) /\ coversOnce (length (frequencyData (run events))))
  /\ length (frequencyData
               (run [SetQuality low; Play true; Interval true (fun _ => x80) (fun _ => x00)]))
     = 64%nat
  /\ bufferSizes low = 32%nat.
Proof.
  split; [|split; reflexivity].
  intros events.
  assert (H : sized (run events)).
  { unfold run. rewrite <- fold_left_rev_right.
    induction (rev events) as [|e es IH]; cbn [fold_right].
    - unfold sized. cbn. tauto.
    - apply step_sized, IH. }
  split; [exact H|].
  destruct H as (_ & Hin & _). apply windows_cover.
  cbn [In] in Hin. lia.
Qed.

End DeliveryProps.

(** ** The warning list over time *)

Section PlayerProps.
Import Quality Perf Warnings Player.
Local Open Scope Z_scope.

Lemma run_snoc (p : player) (events : list event) (e : event) :
  run p (events ++ [e]) = step (run p events) e.
Proof. unfold run. now rewrite fold_left_app. Qed.

(** Every warning of a check suggests a tier. *)
Lemma check_warning_suggests (q : quality) (now : Z) (perf : performance)
    (w : PerformanceWarning) :
  In w (fpsWarnings q now perf ++ memoryWarnings q now perf ++ cpuWarnings q now perf) ->
  suggestedQuality w <> None.
Proof.
  unfold fpsWarnings, memoryWarnings, cpuWarnings. intros Hin.
  repeat (apply in_app_or in Hin; destruct Hin as [Hin | Hin]);
    repeat match type of Hin with
           | In _ (if ?b then _ else _) => destruct b
           end;
    cbn [In] in Hin;
    first [ destruct Hin as [<- | []]; discriminate | destruct Hin ].
Qed.

(** A warning of severity "critical" that a check emits is the critical
    frame-rate warning, or a memory or CPU warning that suggests "low". *)
Lemma critical_warnings_of_a_check (q : quality) (auto : bool) (now : Z)
    (perf : performance) (w : PerformanceWarning) :
  In w (emitted (checkPerformanceWarnings q auto now perf)) ->
  wseverity w = sev_critical ->
  w = criticalWarning q now
  \/ ((wtype w = memory_high \/ wtype w = cpu_high) /\ suggestedQuality w = Some low).
Proof.
  intros Hin Hsev.
  destruct (emitted_cases q auto now perf) as [[E _] | (_ & _ & E & _)];
    rewrite E in Hin; [destruct Hin|].
  unfold fpsWarnings, memoryWarnings, cpuWarnings in Hin.
  repeat (apply in_app_or in Hin; destruct Hin as [Hin | Hin]);
    repeat match type of Hin with
           | In _ (if ?b then _ else _) => destruct b
           end;
    cbn [In] in Hin;
    first [ destruct Hin as [<- | []] | destruct Hin ];
    first [ discriminate Hsev | now left | right; split; [tauto | reflexivity] ].
Qed.

Lemma checked_is_check (p : player) (frames now : Z) :
  checked p frames now
  = checkPerformanceWarnings (qualityLevel p) (autoQualityEnabled p) now
      (tested p (Check frames now)).
Proof. reflexivity. Qed.

(** What a check appends obeys the rule. *)
Lemma check_obeys_the_rule (p : player) (frames now : Z) (w : PerformanceWarning) :
  In w (appended p (Check frames now)) ->
  streakAndCooldown p (Check frames now) w
  /\ (wtype w = fps_low -> (avgFps (tested p (Check frames now)) < 45)%Q)
  /\ timestamp w = now
  /\ suggestedQuality w <> None.
Proof.
  cbn [appended]. rewrite checked_is_check.
  set (perf2 := tested p (Check frames now)).
  assert (Hlast : lastWarningTime perf2 = lastWarningTime (performanceRef p))
    by reflexivity.
  intros Hin.
  pose proof (frame_rate_warning_only_when _ _ _ _ _ Hin) as [Hcrit Hlow].
  destruct (emitted_cases (qualityLevel p) (autoQualityEnabled p) now perf2)
    as [[E _] | (Hcool & _ & E & _)]; rewrite E in Hin; [destruct Hin|].
  unfold streakAndCooldown. fold perf2. cbn [eventTime]. rewrite <- Hlast.
  repeat split.
  - intros Ht. apply Hcrit, Ht.
  - intros Ht. apply Hlow, Ht.
  - exact Hcool.
  - intros Ht. apply Hlow, Ht.
  - pose proof (emitted_timestamps true
                  {| c_quality := qualityLevel p; c_auto := autoQualityEnabled p;
                     c_frames := frames; c_now := now |}
                  (performanceRef p) w) as Hts.
    apply Hts. change (In w (emitted (checked p frames now))).
    rewrite checked_is_check. fold perf2. rewrite E. exact Hin.
  - apply (check_warning_suggests _ _ _ _ Hin).
Qed.

Lemma check_appends_at_most_three (p : player) (frames now : Z) :
  (length (appended p (Check frames now)) <= 3)%nat.
Proof.
  cbn [appended]. rewrite checked_is_check.
  set (perf2 := tested p (Check frames now)).
  destruct (emitted_cases (qualityLevel p) (autoQualityEnabled p) now perf2)
    as [[E _] | (_ & _ & E & _)]; rewrite E; [cbn; lia|].
  rewrite !length_app. unfold fpsWarnings, memoryWarnings, cpuWarnings.
  repeat match goal with
         | |- context [if ?b then _ else _] => destruct b
         end; cbn [length]; lia.
Qed.

(** *** The rule of the specification, and where it fails *)

Lemma slow_checks_schedule_the_adjustment :
  let p := run initial threeSlowChecks in
  map wtype (performanceWarnings p) = [fps_critical]
  /\ timers p = [ {| due := 1003000; tier := low |} ]
  /\ lowFpsCount (performanceRef p) = 3
  /\ lastWarningTime (performanceRef p) = 1002000
  /\ appended p (Timeout 1003000) = [autoNotice 1003000]
  /\ qualityLevel (step p (Timeout 1003000)) = low.
Proof. vm_compute. repeat split. Qed.

(** C5, as stated, fails: a warning is also appended without a streak
    and inside the cooldown.  After three checks at 20 frames per second
    on "medium" with the automatic adjustment on, the timer that the
    third check sets appends the "AUTO" notice, a warning of type
    [fps_low], one second after the critical warning and with the low
    streak at 3. *)
Lemma C5_auto_notice_breaks_the_rule :
  ~ (forall (events : list event) (e : event) (w : PerformanceWarning),
        In w (appended (run initial events) e) ->
        streakAndCooldown (run initial events) e w).
Proof.
  intros H.
  destruct slow_checks_schedule_the_adjustment as (_ & _ & Hlow & Hlast & Happ & _).
  specialize (H threeSlowChecks (Timeout 1003000) (autoNotice 1003000)).
  rewrite Happ in H. destruct (H (or_introl eq_refl)) as (_ & Hstreak & Hcool).
  cbn [eventTime] in Hcool. rewrite Hlast in Hcool. lia.
Qed.

(** On "ultra" the check that emits the critical frame-rate warning at 20
    frames per second emits a CPU warning of severity "critical" with
    it. *)
Lemma ultra_two_critical_severities :
  map wtype
      (filter isCritical
         (emitted (performanceCheck true (checkAt ultra 10 1005000)
                     (fst (monitor Perf.initial
                             (map (checkAt ultra 10)
                                  [1000000; 1000500; 1001000; 1001500]))))))
  = [fps_critical; cpu_high].
Proof. vm_compute. reflexivity. Qed.

(** C5, amended.  A warning that an event appends to the list either
    obeys the rule (it comes from a periodic check, a critical frame-rate
    warning with [criticalFpsCount] at 3 or more, a sustained-low one with
    [lowFpsCount] at 5 or more and the average under 45, and any warning
    of a check 5000 ms or more after the last emission) or is the "AUTO"
    notice, which the callback of a pending adjustment timer appends
    without such a test.  The callback leaves the monitor's state, and
    with it the cooldown, as it is; a timer is set only by a check, for
    1000 ms later, with the automatic adjustment on and for the tier,
    other than the one in force, that a warning of severity "critical" of
    that check suggests.  In a run of checks that all measure 20 frames
    per second, from the third check on, a check inside the cooldown emits
    nothing and a check outside it emits exactly one warning of type
    [fps_critical], whose suggested tier is strictly lower than the tier
    in force unless that is "low", when it is "low" too, and no
    sustained-low warning; any other warning of severity "critical" in
    its batch is a memory or CPU warning that suggests "low".  In any run,
    two checks that both emit are at least 5000 ms apart. *)
Theorem C5_warnings_of_checks_and_timers :
  (forall (p : player) (e : event) (w : PerformanceWarning),
      In w (appended p e) ->
      ((exists frames now : Z, e = Check frames now)
       /\ streakAndCooldown p e w
       /\ (wtype w = fps_low -> (avgFps (tested p e) < 45)%Q)
       /\ timestamp w = eventTime e)
      \/ (exists (dateNow : Z) (t : timer) (rest : list timer),
             e = Timeout dateNow /\ timers p = t :: rest /\ due t <= dateNow
             /\ w = autoNotice dateNow))
  /\ (forall (p : player) (dateNow : Z),
         performanceRef (step p (Timeout dateNow)) = performanceRef p)
  /\ (forall (p : player) (frames now : Z) (t : timer),
         In t (timers (step p (Check frames now))) ->
         In t (timers p)
         \/ (due t = now + 1000 /\ autoQualityEnabled p = true
             /\ tier t <> qualityLevel p
             /\ exists w : PerformanceWarning,
                  In w (appended p (Check frames now))
                  /\ wseverity w = sev_critical
                  /\ suggestedQuality w = Some (tier t)))
  /\ (forall (start : performance) (before : list check) (c : check),
         0 <= criticalFpsCount start ->
         Forall holds20 (before ++ [c]) -> (2 <= length before)%nat ->
         let perf := fst (monitor start before) in
         let r := performanceCheck true c perf in
         (c_now c - lastWarningTime perf < 5000 ->
          emitted r = [] /\ lastWarningTime (perfAfter r) = lastWarningTime perf)
         /\ (5000 <= c_now c - lastWarningTime perf ->
             filter isFpsCritical (emitted r)
             = [criticalWarning (c_quality c) (c_now c)]
             /\ filter isFpsLow (emitted r) = []
             /\ lastWarningTime (perfAfter r) = c_now c))
  /\ (forall (q : quality) (auto : bool) (now : Z) (perf : performance)
             (w : PerformanceWarning),
         In w (emitted (checkPerformanceWarnings q auto now perf)) ->
         wseverity w = sev_critical ->
         w = criticalWarning q now
         \/ ((wtype w = memory_high \/ wtype w = cpu_high)
             /\ suggestedQuality w = Some low))
  /\ (forall q : quality,
         (rank (criticalSuggestion q) < rank q)%nat
         \/ (q = low /\ criticalSuggestion q = low))
  /\ (forall (perf : performance) (checks : list check)
             (log1 log2 : list (Z * list PerformanceWarning))
             (t1 t2 : Z) (ws1 ws2 : list PerformanceWarning),
         snd (monitor perf checks) = log1 ++ (t1, ws1) :: log2 ->
         In (t2, ws2) log2 -> ws1 <> [] -> ws2 <> [] ->
         5000 <= t2 - t1).
Proof.
  split; [|split; [|split; [|split; [|split; [|split]]]]].
  - intros p e w Hin. destruct e; try (destruct Hin).
    + left. destruct (check_obeys_the_rule p frames now w Hin) as (Hr & Ha & Ht & _).
      split; [now exists frames, now|]. repeat split; try assumption; apply Hr.
    + right. cbn [appended] in Hin.
      destruct (timers p) as [|t rest] eqn:Et; [destruct Hin|].
      destruct (due t <=? dateNow) eqn:Ed; [|destruct Hin].
      destruct Hin as [<- | []]. apply Z.leb_le in Ed.
      exists dateNow, t, rest. repeat split. exact Ed.
  - intros p dateNow. cbn [step].
    destruct (timers p) as [|t rest]; [reflexivity|].
    destruct (due t <=? dateNow); reflexivity.
  - intros p frames now t Hin. cbn [step timers] in Hin.
    apply in_app_or in Hin. destruct Hin as [Hin | Hin]; [now left|]. right.
    destruct (scheduled (checked p frames now)) as [s|] eqn:Es; [|destruct Hin].
    destruct Hin as [<- | []]. cbn [due tier].
    rewrite checked_is_check in Es.
    destruct (autoAdjust_only_after_critical _ _ _ _ _ Es) as (Hauto & Hne & w & Hw & Hs & Hq).
    repeat split; try assumption.
    exists w. repeat split; try assumption.
  - exact check_in_20fps_trace.
  - exact critical_warnings_of_a_check.
  - exact criticalSuggestion_lower.
  - intros perf checks. exact (emissions_spaced checks perf).
Qed.

Lemma C5_warnings_witness :
  filter isFpsCritical
    (emitted (performanceCheck true (checkAt medium 20 1002000)
                (fst (monitor Perf.initial
                        (map (checkAt medium 20) [1000000; 1001000])))))
  = [criticalWarning medium 1002000].
Proof.
  destruct C5_warnings_of_checks_and_timers as (_ & _ & _ & H & _).
  apply (H Perf.initial (map (checkAt medium 20) [1000000; 1001000])
           (checkAt medium 20 1002000)).
  - discriminate.
  - repeat constructor.
  - cbn. lia.
  - vm_compute. discriminate.
Defined.

(** *** What a sweep leaves on the list *)

Lemma not_from_a_check (dateNow : Z) : suggestedQuality (autoNotice dateNow) = None.
Proof. reflexivity. Qed.

(** The warnings of checks on the list carry the time of the last
    emission, that of one emission 5000 ms or more before it, or a time
    10000 ms or more before it; the others are "AUTO" notices. *)
Lemma listed_warnings (now : Z) (events : list event) :
  0 <= now -> Forall (notAfter now) events ->
  let p := run initial events in
  lastWarningTime (performanceRef p) <= now
  /\ (exists e1 : Z,
         e1 <= lastWarningTime (performanceRef p) - 5000
         /\ forall w : PerformanceWarning,
              In w (performanceWarnings p) -> suggestedQuality w <> None ->
              timestamp w = lastWarningTime (performanceRef p)
              \/ timestamp w = e1
              \/ timestamp w <= lastWarningTime (performanceRef p) - 10000)
  /\ (forall w : PerformanceWarning,
         In w (performanceWarnings p) -> suggestedQuality w = None ->
         w = autoNotice (timestamp w)).
Proof.
  intros Hnow. cbv zeta.
  induction events as [|e events IH] using rev_ind; intros Hall.
  - cbn. split; [exact Hnow|]. split; [|intros w []].
    exists (-5000). split; [lia | intros w []].
  - apply Forall_app in Hall. destruct Hall as [Hall He].
    inversion He as [|e' l' Hle _]; subst. clear He.
    specialize (IH Hall). rewrite run_snoc.
    set (p := run initial events) in *. clearbody p.
    destruct IH as (Hlast & (e1 & He1 & Hchecks) & Hnotices).
    assert (Hsub : forall p' : player,
               performanceRef p' = performanceRef p ->
               (forall w, In w (performanceWarnings p') ->
                          In w (performanceWarnings p)
                          \/ (suggestedQuality w = None /\ w = autoNotice (timestamp w))) ->
               lastWarningTime (performanceRef p') <= now
               /\ (exists e1 : Z,
                      e1 <= lastWarningTime (performanceRef p') - 5000
                      /\ forall w : PerformanceWarning,
                           In w (performanceWarnings p') -> suggestedQuality w <> None ->
                           timestamp w = lastWarningTime (performanceRef p')
                           \/ timestamp w = e1
                           \/ timestamp w <= lastWarningTime (performanceRef p') - 10000)
               /\ (forall w : PerformanceWarning,
                      In w (performanceWarnings p') -> suggestedQuality w = None ->
                      w = autoNotice (timestamp w))).
    { intros p' Hperf Hin. rewrite Hperf. split; [exact Hlast|]. split.
      - exists e1. split; [exact He1|]. intros w Hw Hs.
        destruct (Hin w Hw) as [Hold | [Hnone _]]; [apply Hchecks; assumption | congruence].
      - intros w Hw Hs. destruct (Hin w Hw) as [Hold | [_ Hn]];
          [apply Hnotices; assumption | exact Hn]. }
    destruct e as [frames t | dateNow | t | q | enabled | warning | warning |].
    + cbn [notAfter] in Hle. cbn [step performanceRef performanceWarnings].
      pose proof (last_warning_time
                    {| c_quality := qualityLevel p; c_auto := autoQualityEnabled p;
                       c_frames := frames; c_now := t |} (performanceRef p)) as Hl.
      cbv zeta in Hl. cbn [c_now] in Hl. fold (checked p frames t) in Hl.
      assert (Hnew : forall w, In w (emitted (checked p frames t)) ->
                               timestamp w = t /\ suggestedQuality w <> None).
      { intros w Hw.
        destruct (check_obeys_the_rule p frames t w Hw) as (_ & _ & Ht & Hs).
        split; assumption. }
      destruct Hl as [[E Hsame] | (Hne & Hset & Hcool)].
      * rewrite E, app_nil_r, Hsame. split; [exact Hlast|]. split.
        -- exists e1. split; [exact He1 | exact Hchecks].
        -- exact Hnotices.
      * rewrite Hset. split; [exact Hle|]. split.
        -- exists (lastWarningTime (performanceRef p)). split; [lia|].
           intros w Hw Hs. apply in_app_or in Hw. destruct Hw as [Hw | Hw].
           ++ destruct (Hchecks w Hw Hs) as [H | [H | H]]; lia.
           ++ left. apply Hnew, Hw.
        -- intros w Hw Hs. apply in_app_or in Hw. destruct Hw as [Hw | Hw].
           ++ apply Hnotices; assumption.
           ++ destruct (Hnew w Hw) as [_ Hsome]. congruence.
    + cbn [step]. destruct (timers p) as [|tm rest];
        [split; [exact Hlast | split; [exists e1; split; assumption | exact Hnotices]]|].
      destruct (due tm <=? dateNow);
        [|split; [exact Hlast | split; [exists e1; split; assumption | exact Hnotices]]].
      apply Hsub; [reflexivity|]. cbn [performanceWarnings]. intros w Hw.
      apply in_app_or in Hw. destruct Hw as [Hw | [<- | []]]; [now left|].
      right. split; reflexivity.
    + apply Hsub; [reflexivity|]. cbn [step performanceWarnings]. intros w Hw.
      left. unfold expire in Hw. apply filter_In in Hw. apply Hw.
    + apply Hsub; [reflexivity|]. cbn [step performanceWarnings]. intros w Hw. now left.
    + apply Hsub; [reflexivity|]. cbn [step performanceWarnings]. intros w Hw. now left.
    + apply Hsub; [reflexivity|]. cbn [step performanceWarnings]. intros w Hw.
      left. apply filter_In in Hw. apply Hw.
    + cbn [step]. destruct (suggestedQuality warning);
        [|split; [exact Hlast | split; [exists e1; split; assumption | exact Hnotices]]].
      apply Hsub; [reflexivity|]. cbn [performanceWarnings]. intros w Hw.
      left. apply filter_In in Hw. apply Hw.
    + apply Hsub; [reflexivity|]. cbn [step performanceWarnings]. intros w [].
Qed.

(** X13. After any events of the player from its initial state (checks,
    adjustment timers, sweeps, settings, dismissals), right after a sweep
    of the warning list that reads the clock no earlier than they did:
    every listed warning is less than 10 seconds old; the listed warnings
    that checks emitted, those with a suggested tier, carry at most two
    timestamps, so they come from at most two checks; the other listed
    warnings are "AUTO" notices.  A check appends three warnings at most,
    each stamped with its time and suggesting a tier. *)
Theorem after_a_sweep_two_checks_remain :
  forall (events : list event) (now : Z),
    0 <= now -> Forall (notAfter now) events ->
    let p := run initial (events ++ [Sweep now]) in
    (forall w : PerformanceWarning,
        In w (performanceWarnings p) -> now - timestamp w < 10000)
    /\ (exists ta tb : Z,
           forall w : PerformanceWarning,
             In w (performanceWarnings p) -> suggestedQuality w <> None ->
             timestamp w = ta \/ timestamp w = tb)
    /\ (forall w : PerformanceWarning,
           In w (performanceWarnings p) -> suggestedQuality w = None ->
           w = autoNotice (timestamp w))
    /\ (forall (p0 : player) (frames t : Z),
           (length (appended p0 (Check frames t)) <= 3)%nat
           /\ forall w : PerformanceWarning,
                In w (appended p0 (Check frames t)) ->
                timestamp w = t /\ suggestedQuality w <> None).
Proof.
  intros events now Hnow Hall. cbv zeta. rewrite run_snoc.
  destruct (listed_warnings now events Hnow Hall) as (Hlast & (e1 & He1 & Hchecks) & Hnotices).
  set (p := run initial events) in *. clearbody p.
  cbn [step performanceWarnings].
  assert (Hin : forall w, In w (expire now (performanceWarnings p)) ->
                          In w (performanceWarnings p) /\ now - timestamp w < 10000).
  { intros w Hw. unfold expire in Hw. apply filter_In in Hw.
    destruct Hw as [Hw Hage]. apply Z.ltb_lt in Hage. split; assumption. }
  split; [|split; [|split]].
  - intros w Hw. apply Hin, Hw.
  - exists (lastWarningTime (performanceRef p)), e1. intros w Hw Hs.
    destruct (Hin w Hw) as [Hold Hage].
    destruct (Hchecks w Hold Hs) as [H | [H | H]]; [now left | now right | lia].
  - intros w Hw Hs. apply Hnotices; [apply Hin, Hw | exact Hs].
  - intros p0 frames t. split; [apply check_appends_at_most_three|].
    intros w Hw. destruct (check_obeys_the_rule p0 frames t w Hw) as (_ & _ & Ht & Hs).
    split; assumption.
Qed.

(** Checks at 20 frames per second that emit at 1002, 1007 and 1012
    seconds: before the next sweep the warnings of all three are listed,
    after it those of the last two, with the notice of the adjustment. *)
Lemma three_batches_until_the_sweep :
  let events :=
    [Check 20 1000000; Check 20 1001000; Check 20 1002000; Timeout 1003000;
     Check 5 1007000; Check 5 1012000] in
  map timestamp (performanceWarnings (run initial events))
  = [1002000; 1003000; 1007000; 1012000]
  /\ map timestamp (performanceWarnings (run initial (events ++ [Sweep 1012500])))
     = [1003000; 1007000; 1012000].
Proof. vm_compute. split; reflexivity. Qed.

Lemma after_a_sweep_witness :
  exists ta tb : Z,
    forall w : PerformanceWarning,
      In w (performanceWarnings
              (run initial
                 ([Check 20 1000000; Check 20 1001000; Check 20 1002000;
                   Timeout 1003000; Check 5 1007000; Check 5 1012000]
                  ++ [Sweep 1012500]))) ->
      suggestedQuality w <> None ->
      timestamp w = ta \/ timestamp w = tb.
Proof.
  refine (proj1 (proj2 (after_a_sweep_two_checks_remain
                          [Check 20 1000000; Check 20 1001000; Check 20 1002000;
                           Timeout 1003000; Check 5 1007000; Check 5 1012000]
                          1012500 _ _))).
  - lia.
  - repeat constructor; cbn; lia.
Defined.

End PlayerProps.

(** ** The decay intervals among the meter updates *)

Section DecayIntervalProps.
Import JS Meter MeterRange Decay.
Local Open Scope Q_scope.

Lemma updateMeters_in_range
    (leftRMS rightRMS leftPeak rightPeak corr : Q) (points : list (Q * Q))
    (prev : meterData) :
  percent leftRMS -> percent rightRMS -> percent leftPeak -> percent rightPeak ->
  -1 <= corr <= 1 -> inRange prev ->
  inRange (updateMeters leftRMS rightRMS leftPeak rightPeak corr points prev).
Proof.
  intros H1 H2 H3 H4 Hc (P1 & P2 & P3 & P4 & P5 & P6 & P7 & P8 & PL & PC).
  unfold inRange, updateMeters.
  cbn [vuLeft vuRight ppmLeft ppmRight vuPeakLeft vuPeakRight ppmPeakLeft
       ppmPeakRight loudness correlation].
  pose proof (calculateLUFS_range leftRMS rightRMS) as HL.
  repeat split;
    try (apply vuBallistics_percent; assumption);
    try (apply ppmBallistics_percent; assumption);
    try (apply vuPeakHold_percent; assumption);
    try (apply ppmPeakHold_percent; assumption);
    Lqa.lra.
Qed.

Lemma cleared_at (i : nat) (l : list bool) (b : bool) :
  nth_error l i = Some b -> nth_error (cleared i l) i = Some false.
Proof.
  intros Hi. assert (Hlt : (i < length l)%nat) by (apply nth_error_Some; congruence).
  unfold cleared. rewrite nth_error_app2 by (rewrite length_firstn; lia).
  rewrite length_firstn. replace (i - Nat.min i (length l))%nat with 0%nat by lia.
  reflexivity.
Qed.

Lemma cleared_elsewhere (i j : nat) (l : list bool) :
  (i < length l)%nat -> i <> j -> nth_error (cleared i l) j = nth_error l j.
Proof.
  intros Hlt Hne. unfold cleared.
  destruct (Nat.lt_ge_cases j i) as [Hji | Hij].
  - rewrite nth_error_app1 by (rewrite length_firstn; lia).
    rewrite nth_error_firstn.
    assert (E : (j <? i)%nat = true) by (apply Nat.ltb_lt, Hji). now rewrite E.
  - rewrite nth_error_app2 by (rewrite length_firstn; lia).
    rewrite length_firstn. replace (Nat.min i (length l)) with i by lia.
    destruct (j - i)%nat as [|k] eqn:Ek; [lia|].
    cbn [nth_error]. rewrite nth_error_skipn. f_equal. lia.
Qed.

Lemma decay_run_cons (m : meters) (e : event) (events : list event) :
  run m (e :: events) = run (step m e) events.
Proof. reflexivity. Qed.

(** An interval that has been cleared stays cleared. *)
Lemma stays_cleared (events : list event) :
  forall (m : meters) (i : nat),
    nth_error (intervals m) i = Some false ->
    nth_error (intervals (run m events)) i = Some false.
Proof.
  induction events as [|e events IH]; intros m i Hi; [exact Hi|].
  rewrite decay_run_cons. apply IH.
  assert (Hlt : (i < length (intervals m))%nat) by (apply nth_error_Some; congruence).
  destruct e as [| | j]; cbn [step intervals].
  - rewrite nth_error_app1 by exact Hlt. exact Hi.
  - exact Hi.
  - destruct (nth_error (intervals m) j) as [[|]|] eqn:Hj; try exact Hi.
    destruct (decayTick (data m)) as [d halted]. cbn [intervals].
    destruct halted; [|exact Hi].
    destruct (Nat.eq_dec j i) as [->|Hne]; [congruence|].
    rewrite cleared_elsewhere; [exact Hi | | exact Hne].
    apply nth_error_Some. congruence.
Qed.

(** With playback stopped and the levels under 1 the meters rest. *)
Lemma meters_rest (events : list event) :
  forall m : meters,
    Forall noTick events -> levelsUnder 1 (data m) ->
    data (run m events) = data m.
Proof.
  induction events as [|e events IH]; intros m Hall Hlow; [reflexivity|].
  inversion Hall as [|e' l' He Hrest]; subst.
  rewrite decay_run_cons.
  assert (Hstep : data (step m e) = data m).
  { destruct e as [| | j]; cbn [step]; [reflexivity | destruct He |].
    destruct (nth_error (intervals m) j) as [[|]|]; try reflexivity.
    unfold decayTick. apply allLow_levels in Hlow. rewrite Hlow. reflexivity. }
  rewrite IH; [exact Hstep | exact Hrest | rewrite Hstep; exact Hlow].
Qed.

Lemma stopped_in_range (events : list event) :
  forall m : meters,
    Forall noTick events -> inRange (data m) -> inRange (data (run m events)).
Proof.
  induction events as [|e events IH]; intros m Hall Hm; [exact Hm|].
  inversion Hall as [|e' l' He Hrest]; subst.
  rewrite decay_run_cons. apply IH; [exact Hrest|].
  destruct e as [| | j]; cbn [step]; [exact Hm | destruct He |].
  destruct (nth_error (intervals m) j) as [[|]|]; try exact Hm.
  pose proof (decayTick_in_range (data m) Hm) as Ht.
  destruct (decayTick (data m)) as [d halted]. exact Ht.
Qed.

(** With playback stopped and the four levels at most [bound], an
    interval is cleared by the firing after those that bring [bound]
    under 1, whichever intervals they are of. *)
Lemma fires_until_cleared (events : list event) :
  forall (n : nat) (bound : Q) (m : meters) (i : nat),
    0 <= bound -> levelsAtMost bound (data m) -> decayed n bound < 1 ->
    Forall noTick events ->
    nth_error (intervals m) i = Some true ->
    (S n <= firings i events)%nat ->
    nth_error (intervals (run m events)) i = Some false
    /\ levelsUnder 1 (data (run m events)).
Proof.
  induction events as [|e events IH]; intros n bound m i Hb Hm Hn Hall Hi Hf.
  - cbn in Hf. lia.
  - inversion Hall as [|e' l' He Hrest]; subst. rewrite decay_run_cons.
    assert (Hlt : (i < length (intervals m))%nat) by (apply nth_error_Some; congruence).
    destruct e as [| | j].
    + apply (IH n bound); try assumption. cbn [step intervals].
      rewrite nth_error_app1 by exact Hlt. exact Hi.
    + destruct He.
    + unfold firings in Hf. cbn [filter firesOf] in Hf. fold (firings i events) in Hf.
      cbn [step].
      destruct (nth_error (intervals m) j) as [[|]|] eqn:Hj.
      * unfold decayTick. destruct (allLow (data m)) eqn:Hlow.
        -- cbn [data intervals]. apply allLow_levels in Hlow.
           destruct (Nat.eqb_spec j i) as [->|Hne].
           ++ split.
              ** apply stays_cleared. cbn [intervals]. apply (cleared_at _ _ true), Hi.
              ** rewrite meters_rest; [exact Hlow | exact Hrest | exact Hlow].
           ++ apply (IH n bound); try assumption.
              cbn [intervals]. rewrite cleared_elsewhere; [exact Hi | | exact Hne].
              apply nth_error_Some. congruence.
        -- assert (Hn0 : exists n', n = S n').
           { destruct n as [|n']; [|now exists n']. exfalso.
             cbn [decayed] in Hn.
             assert (Hl : allLow (data m) = true).
             { apply allLow_levels. unfold levelsUnder, levelsAtMost in *. Lqa.lra. }
             congruence. }
           destruct Hn0 as [n' ->]. cbn [decayed] in Hn.
           apply (IH n' (bound * (95 # 100))); try assumption.
           ++ Lqa.lra.
           ++ unfold levelsAtMost in *. cbn [data vuLeft vuRight ppmLeft ppmRight].
              Lqa.lra.
           ++ unfold firings in *. destruct (j =? i)%nat; cbn [length] in Hf; lia.
      * assert (Hne : (j =? i)%nat = false).
        { apply Nat.eqb_neq. intros ->. congruence. }
        rewrite Hne in Hf. apply (IH n bound); assumption.
      * assert (Hne : (j =? i)%nat = false).
        { apply Nat.eqb_neq. intros ->. congruence. }
        rewrite Hne in Hf. apply (IH n bound); assumption.
Qed.

(** A meter update at 100 leaves the left VU level at 30 or more. *)
Lemma level_after_full_tick (prev : Q) :
  percent prev -> 30 <= vuBallistics 100 prev.
Proof.
  unfold percent, vuBallistics. intros Hp.
  destruct (gt 100 prev) eqn:G; [|apply gt_false in G]; Lqa.lra.
Qed.

Lemma resumed_keeps_firing (i n : nat) :
  forall m : meters,
    inRange (data m) -> nth_error (intervals m) i = Some true ->
    nth_error (intervals (run m (resumed i n))) i = Some true
    /\ inRange (data (run m (resumed i n))).
Proof.
  induction n as [|n IH]; intros m Hm Hi; [split; assumption|].
  change (resumed i (S n))
    with (Tick 100 100 100 100 0 [] :: Fires i :: resumed i n).
  rewrite !decay_run_cons. cbn [step intervals data]. rewrite Hi.
  set (d := updateMeters 100 100 100 100 0 [] (data m)).
  assert (Hd : inRange d).
  { apply updateMeters_in_range; try (split; discriminate). exact Hm. }
  assert (Hhigh : allLow d = false).
  { apply not_true_iff_false. intros Hlow. apply allLow_levels in Hlow.
    destruct Hlow as [Hv _]. subst d. cbn [updateMeters vuLeft] in Hv.
    destruct Hm as (P1 & _).
    pose proof (level_after_full_tick (vuLeft (data m)) P1). Lqa.lra. }
  pose proof (decayTick_in_range d Hd) as Ht.
  unfold decayTick in *. rewrite Hhigh in *. cbn [fst] in Ht.
  apply IH; [exact Ht | exact Hi].
Qed.

(** X7. Nothing but its own callback clears a decay interval.  While
    playback stays stopped (no meter update among the events) and the
    meters are in range, an interval that has not been cleared is
    cleared by its 91st firing at the latest, whichever other intervals
    fire in between, and then the four levels are under 1 and the meters
    in range.  When playback resumes before that, the interval goes on
    firing among the meter updates: at full level it is never cleared. *)
Theorem decay_interval_clears_only_while_stopped :
  (forall (m : meters) (events : list event) (i : nat),
      inRange (data m) -> nth_error (intervals m) i = Some true ->
      Forall noTick events -> (91 <= firings i events)%nat ->
      nth_error (intervals (run m events)) i = Some false
      /\ levelsUnder 1 (data (run m events))
      /\ inRange (data (run m events)))
  /\ (forall (m : meters) (i n : nat),
         inRange (data m) -> nth_error (intervals m) i = Some true ->
         nth_error (intervals (run m (resumed i n))) i = Some true).
Proof.
  split.
  - intros m events i Hm Hi Hall Hf.
    destruct (fires_until_cleared events 90 100 m i) as [Hc Hlow]; try assumption.
    + discriminate.
    + destruct Hm as (H1 & H2 & H3 & H4 & _). unfold percent in *.
      unfold levelsAtMost. tauto.
    + vm_compute. reflexivity.
    + split; [exact Hc|]. split; [exact Hlow|].
      apply stopped_in_range; assumption.
  - intros m i n Hm Hi. apply resumed_keeps_firing; assumption.
Qed.

Lemma decay_interval_witness :
  nth_error
    (intervals (run {| data := afterStep 100; intervals := [true] |}
                    (repeat (Fires 0) 91))) 0
  = Some false.
Proof.
  refine (proj1 (proj1 decay_interval_clears_only_while_stopped
                   {| data := afterStep 100; intervals := [true] |}
                   (repeat (Fires 0) 91) 0%nat _ _ _ _)).
  - unfold inRange, percent. vm_compute. repeat split; discriminate.
  - reflexivity.
  - apply Forall_forall. intros e He. apply repeat_spec in He. subst e. exact I.
  - vm_compute. lia.
Defined.

End DecayIntervalProps.

(** ** The signal processors in the player *)

Section ProcessorsInThePlayer.
Import JS Quality Provider Delivery Signal.

Lemma run_sized (events : list event) : sized (run events).
Proof.
  unfold run. rewrite <- fold_left_rev_right.
  induction (rev events) as [|e es IH]; cbn [fold_right].
  - unfold sized. cbn. tauto.
  - apply step_sized, IH.
Qed.

(** A tier switch before the first start of playback finds no analyser,
    and the start creates it with an FFT size of 128 on every tier. *)
Lemma switch_before_first_play (q : quality) :
  analyser (updateQualitySettings q Provider.initial) = None
  /\ analyser (run [SetQuality q; Play true]) = Some 128%nat.
Proof. split; reflexivity. Qed.

(** C1, amended.  On every non-empty buffer the RMS output is within
    [[0,100]], and 0 on an all-128 buffer; the peak output is so on every
    buffer, the empty one included.  The empty buffer does not reach the
    processors: the buffer that the provider hands to the meter block
    passes its guard, both its halves are non-empty, and their RMS
    outputs are within [[0,100]]. *)
Theorem C1_processors_within_range :
  (forall samples : list byte,
      samples <> [] ->
      within 0 100 (calculateRMS samples defaultSampleRate)
      /\ (silent samples -> calculateRMS samples defaultSampleRate = Num 0))
  /\ (forall samples : list byte,
         (0 <= calculatePeak samples defaultSampleRate <= 100)%Q
         /\ (silent samples -> (calculatePeak samples defaultSampleRate == 0)%Q))
  /\ (forall events : list event,
         let delivered := audioData (run events) in
         meterGuard delivered = true
         /\ leftSamples delivered <> [] /\ rightSamples delivered <> []
         /\ within 0 100 (calculateRMS (leftSamples delivered) defaultSampleRate)
         /\ within 0 100 (calculateRMS (rightSamples delivered) defaultSampleRate)).
Proof.
  split; [|split].
  - intros samples Hne.
    destruct (processors_on_non_empty_buffers samples Hne) as (Hr & _ & Hs).
    split; [exact Hr | intros H; apply Hs, H].
  - intros samples. split; [apply calculatePeak_range | apply calculatePeak_silent].
  - intros events. cbv zeta.
    destruct (run_sized events) as (Hlen & Hin & _).
    set (delivered := audioData (run events)) in *.
    assert (H32 : (32 <= length delivered)%nat).
    { rewrite Hlen. cbn [In] in Hin. lia. }
    destruct (halfLength_bounds delivered) as [Hhalf Hone].
    assert (Hl : leftSamples delivered <> []).
    { intros E. apply (f_equal (@length byte)) in E.
      rewrite leftSamples_length in E. cbn [length] in E. lia. }
    assert (Hr : rightSamples delivered <> []).
    { intros E. apply (f_equal (@length byte)) in E.
      rewrite rightSamples_length in E. cbn [length] in E. lia. }
    split; [unfold meterGuard; apply Nat.ltb_lt; lia|].
    split; [exact Hl|]. split; [exact Hr|].
    split; apply processors_on_non_empty_buffers; assumption.
Qed.

End ProcessorsInThePlayer.
